(** * HireCoach-AI: response parsing and session protocol of [app.py]

    A shallow embedding of the Flask application [src/app.py]:

    - the text layer ([str.strip], [str.split]) and the fragment of
      Python's [re] module that the program's patterns use, as a
      backtracking matcher with the priorities of the [sre] engine;
    - the four response parsers ([parse_ai_response],
      [parse_feedback_response], [parse_overall_results],
      [parse_resume_optimization_response]);
    - the route handlers of the coach and practice flows and of the resume
      optimizer, as functions from a world (database rows, the signed
      cookie session, the model client) and a request to a response, a new
      world and the list of prompts sent to the model.

    Text is a list of characters; a character is a code point below 256
    (the Latin-1 range), which is where [\s], [\d] and case-insensitive
    comparison are modelled.

    What the embedding leaves out: log lines and flashed messages; the
    wording of the prompts (a prompt is the data interpolated into its
    template); the encoding of the question list as JSON in one text column
    (the list is stored as it is); failures of the database.  The model
    client is a function from prompts to completions, so that a statement
    holds for every answer of the model, and a table is the list of its rows
    in the order of their keys. *)

From Stdlib Require Import Ascii String List ZArith Lia Bool.
From stdpp Require Import gmap list.

Set Default Proof Using "Type".
Local Open Scope list_scope.

(** ** Text *)

Module Text.

Abbreviation str := (list ascii).

(** A literal of the source, written as a Rocq string. *)
Definition txt (s : string) : str := list_ascii_of_string s.

Definition code (c : ascii) : N := N_of_ascii c.

Definition nl : ascii := ascii_of_N 10.

(** [str.isspace] on one character, which is also the class [\s] of a
    [str] pattern: TAB..CR, FS..US, space, NEL and NBSP below 256. *)
Definition isspace (c : ascii) : bool :=
  let n := code c in
  ((9 <=? n) && (n <=? 13) || (28 <=? n) && (n <=? 32)
   || (n =? 133) || (n =? 160))%N.

(** The class [\d] of a [str] pattern: decimal digits, below 256 only 0-9. *)
Definition isdigit (c : ascii) : bool :=
  let n := code c in ((48 <=? n) && (n <=? 57))%N.

(** Simple lower-casing, as [re.IGNORECASE] applies it to both sides. *)
Definition lower (c : ascii) : ascii :=
  let n := code c in
  if ((65 <=? n) && (n <=? 90)
      || (192 <=? n) && (n <=? 222) && negb (n =? 215))%N
  then ascii_of_N (n + 32) else c.

Definition eqc (c x : ascii) : bool := (code c =? code x)%N.

Definition eqc_ci (c x : ascii) : bool := eqc (lower c) (lower x).

(** [s] without its longest head of characters in [p]. *)
Fixpoint skip (p : ascii -> bool) (s : str) : str :=
  match s with
  | c :: s' => if p c then skip p s' else s
  | [] => []
  end.

Definition lstrip (s : str) : str := skip isspace s.

Definition rstrip (s : str) : str := rev (lstrip (rev s)).

(** [s.strip()] *)
Definition strip (s : str) : str := lstrip (rstrip s).

(** Truth value of a string: non-empty. *)
Definition truthy (s : str) : bool :=
  match s with [] => false | _ :: _ => true end.

Fixpoint str_eqb (a b : str) : bool :=
  match a, b with
  | [], [] => true
  | x :: a', y :: b' => eqc x y && str_eqb a' b'
  | _, _ => false
  end.

(** [s.split('\n')]: always at least one piece. *)
Fixpoint split_lines (s : str) : list str :=
  match s with
  | [] => [[]]
  | c :: s' =>
      if eqc c nl then [] :: split_lines s'
      else match split_lines s' with
           | l :: ls => (c :: l) :: ls
           | [] => [[c]]
           end
  end.

(** ["\n".join(ls)] *)
Fixpoint join_lines (ls : list str) : str :=
  match ls with
  | [] => []
  | [l] => l
  | l :: ls' => l ++ nl :: join_lines ls'
  end.

(** Remainder of [s] after the run [l], when [s] starts with [l] up to the
    comparison [eq] of characters. *)
Fixpoint after_prefix (eq : ascii -> ascii -> bool) (l s : str) : option str :=
  match l with
  | [] => Some s
  | c :: l' =>
      match s with
      | x :: s' => if eq c x then after_prefix eq l' s' else None
      | [] => None
      end
  end.

Definition starts_with (l s : str) : bool :=
  match after_prefix eqc l s with Some _ => true | None => false end.

(** [l in s] *)
Fixpoint contains (l s : str) : bool :=
  starts_with l s
  || match s with
     | [] => false
     | _ :: s' => contains l s'
     end.

(** [l.lower() in s.lower()] *)
Fixpoint contains_ci (l s : str) : bool :=
  match after_prefix eqc_ci l s with Some _ => true | None => false end
  || match s with
     | [] => false
     | _ :: s' => contains_ci l s'
     end.

(** The first place in [s] where [f] succeeds: the text before it and the
    result of [f]. *)
Fixpoint first_at {A : Type} (f : str -> option A) (s : str)
  : option (str * A) :=
  match f s with
  | Some a => Some ([], a)
  | None =>
      match s with
      | [] => None
      | x :: s' =>
          match first_at f s' with
          | Some (pre, a) => Some (x :: pre, a)
          | None => None
          end
      end
  end.

(** The part of [s] before the first place where [stop] holds, all of [s]
    when there is none. *)
Fixpoint up_to (stop : str -> bool) (s : str) : str :=
  if stop s then []
  else match s with
       | [] => []
       | x :: s' => x :: up_to stop s'
       end.

(** Where [$] matches without [re.MULTILINE]: at the end of the text, and
    before a newline that ends it. *)
Definition at_end (s : str) : bool :=
  match s with
  | [] => true
  | [x] => eqc x nl
  | _ => false
  end.

(** Longest run of characters in [p] at the head of [s]. *)
Fixpoint run_of (p : ascii -> bool) (s : str) : str :=
  match s with
  | x :: s' => if p x then x :: run_of p s' else []
  | [] => []
  end.

End Text.

Import Text.

(** ** The fragment of [re] used by [app.py] *)

Module Re.

(** Flags of a call; the program passes [re.DOTALL], [re.IGNORECASE], both
    or none. *)
Record flags := { IGNORECASE : bool; DOTALL : bool }.

Definition NOFLAG := {| IGNORECASE := false; DOTALL := false |}.
Definition S_ := {| IGNORECASE := false; DOTALL := true |}.
Definition I_ := {| IGNORECASE := true; DOTALL := false |}.
Definition IS_ := {| IGNORECASE := true; DOTALL := true |}.

(** One-character items. *)
Inductive cclass :=
  | CSpace                 (* \s *)
  | CDigit                 (* \d *)
  | CDot                   (* .  *)
  | CSet (l : str).        (* [...] of literal characters *)

(** Patterns.  Every repetition in the program's patterns is over a
    one-character item, so repetitions take a [cclass]. *)
Inductive regex :=
  | Str (l : str)                  (* a run of literal characters *)
  | Chr (c : cclass)
  | Seq (r1 r2 : regex)
  | Alt (r1 r2 : regex)            (* r1|r2 *)
  | Star (c : cclass)              (* c*  *)
  | LazyStar (c : cclass)          (* c*? *)
  | Rep (c : cclass) (lo hi : nat) (* c{lo,hi} *)
  | Group (n : nat) (r : regex)    (* capturing group number n *)
  | Look (r : regex)               (* (?=r) *)
  | Bol                            (* ^ without MULTILINE *)
  | Eol.                           (* $ without MULTILINE *)

Definition in_class (fl : flags) (c : cclass) (x : ascii) : bool :=
  match c with
  | CSpace => isspace x
  | CDigit => isdigit x
  | CDot => DOTALL fl || negb (eqc x nl)
  | CSet l => existsb (fun y => if IGNORECASE fl then eqc_ci y x else eqc y x) l
  end.

Definition lit_eq (fl : flags) (c x : ascii) : bool :=
  if IGNORECASE fl then eqc_ci c x else eqc c x.

(** Remainder of [s] after the literal run [l], if [s] starts with it. *)
Definition strip_prefix (fl : flags) (l s : str) : option str :=
  after_prefix (lit_eq fl) l s.

(** Group bindings, most recent first. *)
Definition caps := list (nat * str).

Fixpoint group (n : nat) (c : caps) : option str :=
  match c with
  | [] => None
  | (i, v) :: c' => if Nat.eqb i n then Some v else group n c'
  end.

(** [m.group(n)] where the group took part in the match, and the element of
    a [findall] tuple (empty for a group that did not). *)
Definition group_or_empty (n : nat) (c : caps) : str :=
  match group n c with Some v => v | None => [] end.

Section Matcher.

Context {R : Type}.

(** [c*] followed by [k]: longest run first, then shorter ones. *)
Fixpoint star_greedy (p : ascii -> bool) (s : str) (k : str -> option R)
  : option R :=
  match s with
  | x :: s' =>
      if p x then
        match star_greedy p s' k with
        | Some r => Some r
        | None => k s
        end
      else k s
  | [] => k s
  end.

(** [c*?] followed by [k]: shortest run first. *)
Fixpoint star_lazy (p : ascii -> bool) (s : str) (k : str -> option R)
  : option R :=
  match k s with
  | Some r => Some r
  | None =>
      match s with
      | x :: s' => if p x then star_lazy p s' k else None
      | [] => None
      end
  end.

(** [c{lo,hi}] followed by [k], greedy. *)
Fixpoint rep_greedy (p : ascii -> bool) (lo hi : nat) (s : str)
  (k : str -> option R) : option R :=
  let stop := if Nat.eqb lo 0 then k s else None in
  match hi with
  | 0 => stop
  | S hi' =>
      match s with
      | x :: s' =>
          if p x then
            match rep_greedy p (Nat.pred lo) hi' s' k with
            | Some r => Some r
            | None => stop
            end
          else stop
      | [] => stop
      end
  end.

End Matcher.

Definition result := (str * caps)%type.

(** [m fl text r s c k]: match [r] at the suffix [s] of the subject [text]
    with the bindings [c], then continue with [k]; alternatives are tried in
    the engine's order and the first success is returned. *)
Fixpoint m (fl : flags) (text : str) (r : regex) (s : str) (c : caps)
  (k : str -> caps -> option result) : option result :=
  match r with
  | Str l =>
      match strip_prefix fl l s with
      | Some s' => k s' c
      | None => None
      end
  | Chr cl =>
      match s with
      | x :: s' => if in_class fl cl x then k s' c else None
      | [] => None
      end
  | Seq r1 r2 => m fl text r1 s c (fun s' c' => m fl text r2 s' c' k)
  | Alt r1 r2 =>
      match m fl text r1 s c k with
      | Some res => Some res
      | None => m fl text r2 s c k
      end
  | Star cl => star_greedy (in_class fl cl) s (fun s' => k s' c)
  | LazyStar cl => star_lazy (in_class fl cl) s (fun s' => k s' c)
  | Rep cl lo hi => rep_greedy (in_class fl cl) lo hi s (fun s' => k s' c)
  | Group n r1 =>
      m fl text r1 s c
        (fun s' c' => k s' ((n, firstn (length s - length s') s) :: c'))
  | Look r1 =>
      match m fl text r1 s c (fun s' c' => Some (s', c')) with
      | Some (_, c') => k s c'
      | None => None
      end
  | Bol => if Nat.eqb (length s) (length text) then k s c else None
  | Eol => if at_end s then k s c else None
  end.

Definition accept : str -> caps -> option result := fun s c => Some (s, c).

(** A match attempt anchored at the suffix [s]: the suffix after the match
    and the groups. *)
Definition match_at (fl : flags) (text : str) (r : regex) (s : str)
  : option result :=
  m fl text r s [] accept.

(** Leftmost match at or after the suffix [s]: the suffixes where the match
    starts and ends, and the groups. *)
Fixpoint search_from (fl : flags) (text : str) (r : regex) (s : str)
  : option (str * str * caps) :=
  match match_at fl text r s with
  | Some (e, c) => Some (s, e, c)
  | None =>
      match s with
      | [] => None
      | _ :: s' => search_from fl text r s'
      end
  end.

(** [re.search(r, text, fl)] *)
Definition search (fl : flags) (r : regex) (text : str)
  : option (str * str * caps) :=
  search_from fl text r text.

(** Scan of [re.findall]: successive leftmost matches; after an empty match
    the scan moves on by one character. *)
Fixpoint findall_from (fuel : nat) (fl : flags) (text : str) (r : regex)
  (s : str) : list caps :=
  match fuel with
  | 0 => []
  | S fuel' =>
      match search_from fl text r s with
      | None => []
      | Some (b, e, c) =>
          c :: (if Nat.ltb (length e) (length b)
                then findall_from fuel' fl text r e
                else match e with
                     | [] => []
                     | _ :: e' => findall_from fuel' fl text r e'
                     end)
      end
  end.

(** [re.findall(r, text, fl)], each match given by its groups. *)
Definition findall (fl : flags) (r : regex) (text : str) : list caps :=
  findall_from (S (length text)) fl text r text.

(** Scan of [re.sub]: a match is replaced by [repl] of its groups, any other
    character is copied. *)
Fixpoint sub_from (fuel : nat) (fl : flags) (text : str) (r : regex)
  (repl : caps -> str) (s : str) : str :=
  match fuel with
  | 0 => s
  | S fuel' =>
      let copy :=
        match s with
        | [] => []
        | x :: s' => x :: sub_from fuel' fl text r repl s'
        end in
      match match_at fl text r s with
      | Some (e, c) =>
          repl c ++ (if Nat.ltb (length e) (length s)
                     then sub_from fuel' fl text r repl e
                     else copy)
      | None => copy
      end
  end.

(** [re.sub(r, repl, text)] *)
Definition sub (fl : flags) (r : regex) (repl : caps -> str) (text : str)
  : str :=
  sub_from (S (length text)) fl text r repl text.

End Re.

Import Re.

Declare Scope re_scope.
Delimit Scope re_scope with re.
Infix ">>" := Seq (at level 60, right associativity) : re_scope.
Local Open Scope re_scope.

(** ** Pattern syntax

    The patterns of [app.py] are kept as the strings the source passes to
    [re]; [compile] reads the syntax they use into a [regex].  Each pattern
    below is also written out as a term, and the two are shown equal. *)

Module Pattern.

Inductive piece :=
  | PLit (c : ascii)
  | PRe (r : regex).

(** Sequence of pieces, adjacent literal characters merged into one run. *)
Fixpoint seq_of (ps : list piece) : regex :=
  match ps with
  | [] => Str []
  | PLit c :: ps' =>
      match seq_of ps' with
      | Str l => Str (c :: l)
      | Seq (Str l) r => Seq (Str (c :: l)) r
      | r => Seq (Str [c]) r
      end
  | PRe r :: ps' =>
      match ps' with
      | [] => r
      | _ => Seq r (seq_of ps')
      end
  end.

Definition ch (c : ascii) (s : string) : bool :=
  match s with
  | String x EmptyString => eqc c x
  | _ => false
  end.

Definition digit_val (c : ascii) : nat := N.to_nat (code c) - 48.

(** Decimal number at the head of [s]. *)
Fixpoint number (acc : nat) (s : str) : nat * str :=
  match s with
  | c :: s' => if isdigit c then number (10 * acc + digit_val c) s' else (acc, s)
  | [] => (acc, s)
  end.

(** Body of a set [[...]] of literal, possibly escaped, characters. *)
Fixpoint set_body (s : str) (acc : str) : option (str * str) :=
  match s with
  | [] => None
  | c :: s' =>
      if ch c "]" then Some (rev acc, s')
      else if ch c "\" then
        match s' with
        | x :: s'' => set_body s'' (x :: acc)
        | [] => None
        end
      else set_body s' (c :: acc)
  end.

(** A one-character item with the quantifier that follows it, if any. *)
Definition quantified (lit : option ascii) (cl : cclass) (s : str)
  : piece * str :=
  match s with
  | q :: s' =>
      if ch q "*" then
        match s' with
        | l :: s'' =>
            if ch l "?" then (PRe (LazyStar cl), s'') else (PRe (Star cl), s')
        | [] => (PRe (Star cl), s')
        end
      else if ch q "{" then
        let '(lo, s1) := number 0 s' in
        match s1 with
        | _comma :: s2 =>
            let '(hi, s3) := number 0 s2 in
            match s3 with
            | _brace :: s4 => (PRe (Rep cl lo hi), s4)
            | [] => (PRe (Rep cl lo hi), [])
            end
        | [] => (PRe (Rep cl lo lo), [])
        end
      else (match lit with Some c => PLit c | None => PRe (Chr cl) end, s)
  | [] => (match lit with Some c => PLit c | None => PRe (Chr cl) end, s)
  end.

Fixpoint alternatives (fuel : nat) (s : str) (g : nat)
  : option (regex * str * nat) :=
  match fuel with
  | 0 => None
  | S f =>
      match sequence f s g [] with
      | Some (ps, rest, g') =>
          let r := seq_of (rev ps) in
          match rest with
          | c :: rest' =>
              if ch c "|" then
                match alternatives f rest' g' with
                | Some (r2, rest'', g'') => Some (Alt r r2, rest'', g'')
                | None => None
                end
              else Some (r, rest, g')
          | [] => Some (r, rest, g')
          end
      | None => None
      end
  end
with sequence (fuel : nat) (s : str) (g : nat) (acc : list piece)
  : option (list piece * str * nat) :=
  match fuel with
  | 0 => None
  | S f =>
      match s with
      | [] => Some (acc, [], g)
      | c :: s' =>
          if ch c "|" || ch c ")" then Some (acc, s, g)
          else if ch c "(" then
            let '(kind, body, g1) :=
              match s' with
              | a :: b :: s'' =>
                  if ch a "?" && ch b ":" then (0, s'', g)
                  else if ch a "?" && ch b "=" then (1, s'', g)
                  else (2, s', S g)
              | _ => (2, s', S g)
              end in
            match alternatives f body g1 with
            | Some (r, close :: rest, g') =>
                if ch close ")" then
                  let r' :=
                    match kind with
                    | 0 => r
                    | 1 => Look r
                    | _ => Group g r
                    end in
                  sequence f rest g' (PRe r' :: acc)
                else None
            | _ => None
            end
          else if ch c "^" then sequence f s' g (PRe Bol :: acc)
          else if ch c "$" then sequence f s' g (PRe Eol :: acc)
          else
            let item :=
              if ch c "\" then
                match s' with
                | x :: s'' =>
                    if ch x "s" then Some (None, CSpace, s'')
                    else if ch x "d" then Some (None, CDigit, s'')
                    else Some (Some x, CSet [x], s'')
                | [] => None
                end
              else if ch c "." then Some (None, CDot, s')
              else if ch c "[" then
                match set_body s' [] with
                | Some (l, s'') => Some (None, CSet l, s'')
                | None => None
                end
              else Some (Some c, CSet [c], s') in
            match item with
            | Some (lit, cl, rest) =>
                let '(p, rest') := quantified lit cl rest in
                sequence f rest' g (p :: acc)
            | None => None
            end
      end
  end.

(** The pattern [src] as a [regex]; groups are numbered from 1 in the order
    of their opening parentheses. *)
Definition compile (src : string) : option regex :=
  let s := txt src in
  match alternatives (2 * S (length s)) s 1 with
  | Some (r, [], _) => Some r
  | _ => None
  end.

End Pattern.

(** ** Response parsers *)

(** An entry of a session's question list: a dict with the keys [question]
    and [answer] and, once evaluated, [user_answer] and [ai_feedback]. *)
Record QuestionRecord := {
  question : str;
  answer : str;
  user_answer : option str;
  ai_feedback : option str
}.

Definition MAX_INITIAL_QUESTIONS : nat := 5.
Definition MAX_PRACTICE_QUESTIONS : nat := 5.

Definition qa_src : string :=
  "Question:\s*(.*?)\s*Answer:\s*(.*?)(?=(Question:|$))".

Definition qa_re : regex :=
  Str (txt "Question:") >> Star CSpace >> Group 1 (LazyStar CDot)
  >> Star CSpace >> Str (txt "Answer:") >> Star CSpace
  >> Group 2 (LazyStar CDot)
  >> Look (Group 3 (Alt (Str (txt "Question:")) Eol)).

(** One turn of the loop over the matches: a pair is kept when both parts
    are non-empty after stripping, and skipped (with a warning) otherwise. *)
Definition qa_of_match (c : caps) : list QuestionRecord :=
  let question := strip (group_or_empty 1 c) in
  let answer := strip (group_or_empty 2 c) in
  if truthy question && truthy answer
  then [{| question := question; answer := answer;
           user_answer := None; ai_feedback := None |}]
  else [].

Definition parse_ai_response (response_text : str) : list QuestionRecord :=
  flat_map qa_of_match (findall S_ qa_re response_text).

Definition parse_feedback_response (response_text : str) : str :=
  strip response_text.

Record OverallResults := {
  hiring_percentage : str;
  areas_for_improvement : str;
  overall_message : str
}.

Definition percent_src : string :=
  "Hiring Percentage:\s*(\d{1,3})%".

Definition percent_re : regex :=
  Str (txt "Hiring Percentage:") >> Star CSpace
  >> Group 1 (Rep CDigit 1 3) >> Str (txt "%").

Definition improvement_src : string :=
  "Areas for Improvement:\s*(.*?)(?=(Overall Message:|Overall Feedback:|$))".

Definition improvement_re : regex :=
  Str (txt "Areas for Improvement:") >> Star CSpace
  >> Group 1 (LazyStar CDot)
  >> Look (Group 2 (Alt (Str (txt "Overall Message:"))
                        (Alt (Str (txt "Overall Feedback:")) Eol))).

Definition overall_message_src : string :=
  "(?:Overall Message|Overall Feedback):\s*(.*)".

Definition overall_message_re : regex :=
  Alt (Str (txt "Overall Message")) (Str (txt "Overall Feedback"))
  >> Str (txt ":") >> Star CSpace >> Group 1 (Star CDot).

(** Group [n] of a successful search. *)
Definition found (n : nat) (mt : option (str * str * caps)) : option str :=
  match mt with
  | Some (_, _, c) => Some (group_or_empty n c)
  | None => None
  end.

Definition parse_overall_results (response_text : str) : OverallResults :=
  let percent_match := found 1 (search I_ percent_re response_text) in
  let improvement_match := found 1 (search IS_ improvement_re response_text) in
  let overall_message_match :=
    found 1 (search IS_ overall_message_re response_text) in
  {| hiring_percentage :=
       match percent_match with
       | Some g => g ++ txt "%"
       | None => txt "N/A"
       end;
     areas_for_improvement :=
       match improvement_match with
       | Some g => strip g
       | None => txt "N/A"
       end;
     overall_message :=
       match overall_message_match with
       | Some g => strip g
       | None => strip response_text
       end |}.

Record ResumeResults := {
  match_score : str;
  summary_message : str;
  original_improvements : list str;
  optimized_resume_text : str;
  changes_analysis : str
}.

Definition NO_SCORE : str := txt "N/A".
Definition NO_SUMMARY : str := txt "N/A".
Definition NO_OPTIMIZED : str := txt "Could not generate optimized resume.".
Definition NO_ANALYSIS : str := txt "Could not generate analysis of changes.".

Definition bold_src : string :=
  "\*\*(.*?)\*\*".

Definition bold_re : regex :=
  Str (txt "**") >> Group 1 (LazyStar CDot) >> Str (txt "**").

(** The helper of the resume parser: every match of [bold_src] is replaced
    by its group, and the result is stripped. *)
Definition clean_asterisks (text : str) : str :=
  strip (sub NOFLAG bold_re (group_or_empty 1) text).

Definition score_src : string :=
  "\*\*Match Score:\*\*\s*(\d{1,3}%)".

Definition score_re : regex :=
  Str (txt "**Match Score:**") >> Star CSpace
  >> Group 1 (Rep CDigit 1 3 >> Str (txt "%")).

Definition score_fallback_src : string :=
  "Match Score:\s*(\d{1,3})".

Definition score_fallback_re : regex :=
  Str (txt "Match Score:") >> Star CSpace >> Group 1 (Rep CDigit 1 3).

Definition L_IMPROVEMENTS : str :=
  txt "**Original Resume Analysis - Areas for Improvement:**".
Definition L_OPTIMIZED : str := txt "**Optimized Resume:**".
Definition L_CHANGES : str := txt "**Analysis of Optimization Changes:**".

Definition summary_src : string :=
  "\*\*Summary Message:\*\*\s*(.*?)(?=\*\*Original Resume Analysis - Areas for Improvement:\*\*|\*\*Optimized Resume:\*\*|$)".

Definition summary_re : regex :=
  Str (txt "**Summary Message:**") >> Star CSpace
  >> Group 1 (LazyStar CDot)
  >> Look (Alt (Str L_IMPROVEMENTS) (Alt (Str L_OPTIMIZED) Eol)).

Definition improvements_src : string :=
  "\*\*Original Resume Analysis - Areas for Improvement:\*\*\s*(.*?)(?=\*\*Optimized Resume:\*\*|$)".

Definition improvements_re : regex :=
  Str L_IMPROVEMENTS >> Star CSpace >> Group 1 (LazyStar CDot)
  >> Look (Alt (Str L_OPTIMIZED) Eol).

Definition optimized_resume_src : string :=
  "\*\*Optimized Resume:\*\*\s*(.*?)(?=\*\*Analysis of Optimization Changes:\*\*|$)".

Definition optimized_resume_re : regex :=
  Str L_OPTIMIZED >> Star CSpace >> Group 1 (LazyStar CDot)
  >> Look (Alt (Str L_CHANGES) Eol).

Definition changes_analysis_src : string :=
  "\*\*Analysis of Optimization Changes:\*\*\s*(.*)".

Definition changes_analysis_re : regex :=
  Str L_CHANGES >> Star CSpace >> Group 1 (Star CDot).

Definition bullet_src : string :=
  "^[-\*]\s*".

Definition bullet_re : regex :=
  Bol >> Chr (CSet (txt "-*")) >> Star CSpace.

(** One line of the improvements block:
    [clean_asterisks(re.sub(r"^[-\*]\s*", "", line).strip())]. *)
Definition clean_line (line : str) : str :=
  clean_asterisks (strip (sub NOFLAG bullet_re (fun _ => []) line)).

Definition parse_resume_optimization_response (response_text : str)
  : ResumeResults :=
  let score_match := found 1 (search I_ score_re response_text) in
  let score_match_fallback :=
    found 1 (search I_ score_fallback_re response_text) in
  let summary_match := found 1 (search IS_ summary_re response_text) in
  let improvements_match :=
    found 1 (search IS_ improvements_re response_text) in
  let optimized_resume_match :=
    found 1 (search IS_ optimized_resume_re response_text) in
  let changes_analysis_match :=
    found 1 (search IS_ changes_analysis_re response_text) in
  {| match_score :=
       match score_match with
       | Some g => strip g
       | None =>
           match score_match_fallback with
           | Some g => strip g ++ txt "%"
           | None => NO_SCORE
           end
       end;
     summary_message :=
       match summary_match with
       | Some g => clean_asterisks (strip g)
       | None => NO_SUMMARY
       end;
     original_improvements :=
       match improvements_match with
       | Some g =>
           let raw_areas := split_lines (strip g) in
           map clean_line (filter (fun line => truthy (strip line)) raw_areas)
       | None => []
       end;
     optimized_resume_text :=
       match optimized_resume_match with
       | Some g => strip g
       | None => NO_OPTIMIZED
       end;
     changes_analysis :=
       match changes_analysis_match with
       | Some g => clean_asterisks (strip g)
       | None => NO_ANALYSIS
       end |}.

(** ** Stored rows, the cookie session and the model client *)

Inductive SessionType := coach | practice.

Definition SessionType_eqb (a b : SessionType) : bool :=
  match a, b with
  | coach, coach | practice, practice => true
  | _, _ => false
  end.

(** A row of [PracticeSession]; [questions_data] is the decoded JSON list. *)
Record PracticeSession := {
  ps_user_id : nat;
  job_position : str;
  experience_level : option str;
  industry : option str;
  session_type : SessionType;
  questions_data : list QuestionRecord
}.

(** A row of [ResumeOptimizationResult]. *)
Record ResumeOptimizationResult := {
  row_user_id : nat;
  row_match_score : str;
  row_summary_message : str;
  row_original_improvements : str;
  row_optimized_resume_text : str;
  row_changes_analysis : str
}.

(** The tables.  Rows are never deleted and keys are assigned in sequence
    from 1, so a table is the list of its rows and the row with key [id] is
    at position [id - 1]. *)
Record Database := {
  practice_sessions : list PracticeSession;
  resume_results : list ResumeOptimizationResult
}.

Definition query_get {A : Type} (table : list A) (id : nat) : option A :=
  match id with
  | 0 => None
  | S i => table !! i
  end.

(** Commit of a changed row object. *)
Definition commit_row {A : Type} (table : list A) (id : nat) (row : A)
  : list A :=
  match id with
  | 0 => table
  | S i => <[i:=row]> table
  end.

Record JobDetails := {
  jd_position : str;
  jd_experience : option str;
  jd_industry : option str
}.

(** The keys of Flask's [session] that the routes use. *)
Record FlaskSession := {
  user_id : option nat;
  current_coach_session_id : option nat;
  current_practice_session_id : option nat;
  job_details : option JobDetails
}.

Record World := {
  db : Database;
  session : FlaskSession
}.

(** [session.get(key)] followed by [if not ...]: a missing key and the key 0
    are both absent. *)
Definition present (id : option nat) : option nat :=
  match id with
  | Some (S i) => Some (S i)
  | _ => None
  end.

(** What is interpolated into each prompt template. *)
Inductive Prompt :=
  | FirstQuestionPrompt (job : JobDetails)
  | NextQuestionPrompt (job : JobDetails) (previous_q_for_prompt : list str)
  | EvaluationPrompt (job : JobDetails)
      (question_text user_answer_text ideal_answer : str)
  | OverallFeedbackPrompt (job : JobDetails)
      (items : list (str * str * str * str))
  | ResumePrompt (job_description resume_text : str).

(** Outcome of [model.generate_content(...)] and of reading [response.text]. *)
Inductive Completion :=
  | Text (text : str)
  | DeadlineExceeded (e : str)
  | GoogleAPIError (e : str)
  | OtherException (e : str).

(** The global [model]: [None] when the client could not be initialised. *)
Definition Model := option (Prompt -> Completion).

Inductive jvalue :=
  | JStr (s : str)
  | JNum (n : nat).

Inductive Page :=
  | error_html (message : str)
  | practice_interview_html (job : str)
  | practice_results_html (practice_data : list QuestionRecord)
      (overall_feedback : OverallResults) (job : JobDetails)
  | resume_optimizer_setup_html.

Inductive Response :=
  | jsonify (body : list (string * jvalue)) (status : nat)
  | redirect (endpoint : string)
  | render_template (page : Page)
  | uncaught (exception : string).

(** What a request leaves behind: the response, the world and the prompts
    sent to the model, in order. *)
Record Outcome := {
  response : Response;
  world : World;
  calls : list Prompt
}.

Definition reply (w : World) (r : Response) : Outcome :=
  {| response := r; world := w; calls := [] |}.

Definition error_json (w : World) (message : string) (status : nat)
  : Outcome :=
  reply w (jsonify [("error"%string, JStr (txt message))] status).

(** The decorator of the protected routes. *)
Definition login_required (w : World) (f : Outcome) : Outcome :=
  match user_id (session w) with
  | None => reply w (redirect "login")
  | Some _ => f
  end.

Definition job_of (s : PracticeSession) : JobDetails :=
  {| jd_position := job_position s;
     jd_experience := experience_level s;
     jd_industry := industry s |}.

Definition set_questions (s : PracticeSession) (qs : list QuestionRecord)
  : PracticeSession :=
  {| ps_user_id := ps_user_id s;
     job_position := job_position s;
     experience_level := experience_level s;
     industry := industry s;
     session_type := session_type s;
     questions_data := qs |}.

(** [row.questions_data = json.dumps(qs); db.session.commit()] *)
Definition commit_questions (w : World) (id : nat) (s : PracticeSession)
  (qs : list QuestionRecord) : World :=
  {| db := {| practice_sessions :=
                commit_row (practice_sessions (db w)) id (set_questions s qs);
              resume_results := resume_results (db w) |};
     session := session w |}.

(** [l[-n:]] *)
Definition last_n {A : Type} (n : nat) (l : list A) : list A :=
  drop (length l - n) l.

(** ** Route handlers *)

Local Open Scope string_scope.

(** The three [except] clauses that close every call to the model. *)
Definition on_failure (w : World) (p : Prompt) (c : Completion)
  (timed_out api_error unexpected : string) : Outcome :=
  let status_message :=
    match c with
    | DeadlineExceeded _ => (504, txt timed_out)
    | GoogleAPIError e => (500, (txt api_error ++ e)%list)
    | _ => (500, txt unexpected)
    end in
  {| response := jsonify [("error", JStr (snd status_message))]
                   (fst status_message);
     world := w;
     calls := [p] |}.

(** [GET /get-question/<int:index>] *)
Definition get_question (model : Model) (w : World) (index : nat) : Outcome :=
  login_required w
  match present (current_coach_session_id (session w)) with
  | None =>
      error_json w
        "No active interview coach session found. Please start a new one." 400
  | Some coach_session_id =>
  match query_get (practice_sessions (db w)) coach_session_id with
  | None =>
      error_json w
        "Interview coach session not found or invalid. Please start a new one."
        400
  | Some current_coach_session =>
  if negb (SessionType_eqb (session_type current_coach_session) coach) then
    error_json w
      "Interview coach session not found or invalid. Please start a new one."
      400
  else
  let questions := questions_data current_coach_session in
  let job_details := job_of current_coach_session in
  match model with
  | None => error_json w "AI service not available." 500
  | Some generate_content =>
  match questions !! index with
  | Some q =>
      reply w (jsonify [("question", JStr (question q));
                        ("answer", JStr (answer q));
                        ("index", JNum index);
                        ("total", JNum MAX_INITIAL_QUESTIONS)] 200)
  | None =>
  if Nat.eqb index (length questions) then
    if Nat.leb MAX_INITIAL_QUESTIONS (length questions) then
      error_json w "Maximum questions reached." 400
    else
      let previous_q_for_prompt :=
        map question (last_n MAX_INITIAL_QUESTIONS questions) in
      let prompt := NextQuestionPrompt job_details previous_q_for_prompt in
      match generate_content prompt with
      | Text text =>
          let raw_text := strip text in
          match parse_ai_response raw_text with
          | new_qa :: _ =>
              {| response :=
                   jsonify [("question", JStr (question new_qa));
                            ("answer", JStr (answer new_qa));
                            ("index", JNum index);
                            ("total", JNum MAX_INITIAL_QUESTIONS)] 200;
                 world := commit_questions w coach_session_id
                            current_coach_session (questions ++ [new_qa])%list;
                 calls := [prompt] |}
          | [] =>
              {| response :=
                   jsonify [("error", JStr (txt
                     "Failed to generate a new question. AI response was malformed."))]
                     500;
                 world := w;
                 calls := [prompt] |}
          end
      | failure =>
          on_failure w prompt failure
            "AI generation timed out for this question. Please try again."
            "AI Service Error for this question: "
            "An unexpected server error occurred while fetching this question."
      end
  else error_json w "Invalid question index requested." 404
  end end end end.

(** [GET /practice-interview-question/<int:index>] *)
Definition practice_interview_question (model : Model) (w : World)
  (index : nat) : Outcome :=
  login_required w
  match present (current_practice_session_id (session w)) with
  | None =>
      error_json w "No active practice session found. Please start a new one."
        400
  | Some practice_session_id =>
  match query_get (practice_sessions (db w)) practice_session_id with
  | None =>
      error_json w
        "Practice session not found in database or invalid type. Please start a new one."
        400
  | Some current_practice_session =>
  if negb (SessionType_eqb (session_type current_practice_session) practice)
  then
    error_json w
      "Practice session not found in database or invalid type. Please start a new one."
      400
  else
  let questions := questions_data current_practice_session in
  let job_details := job_of current_practice_session in
  match model with
  | None => error_json w "AI service not available." 500
  | Some generate_content =>
  match questions !! index with
  | Some q =>
      reply w (jsonify [("question", JStr (question q));
                        ("index", JNum index);
                        ("total", JNum MAX_PRACTICE_QUESTIONS)] 200)
  | None =>
  if Nat.eqb index (length questions) then
    if Nat.leb MAX_PRACTICE_QUESTIONS (length questions) then
      error_json w "Maximum practice questions reached." 400
    else
      let previous_q_for_prompt := map question questions in
      let prompt := NextQuestionPrompt job_details previous_q_for_prompt in
      match generate_content prompt with
      | Text text =>
          let raw_text := strip text in
          match parse_ai_response raw_text with
          | new_qa :: _ =>
              {| response :=
                   jsonify [("question", JStr (question new_qa));
                            ("index", JNum index);
                            ("total", JNum MAX_PRACTICE_QUESTIONS)] 200;
                 world := commit_questions w practice_session_id
                            current_practice_session (questions ++ [new_qa])%list;
                 calls := [prompt] |}
          | [] =>
              {| response :=
                   jsonify [("error", JStr (txt
                     "Failed to generate a new practice question. AI response was malformed."))]
                     500;
                 world := w;
                 calls := [prompt] |}
          end
      | failure =>
          on_failure w prompt failure
            "AI generation timed out for this practice question. Please try again."
            "AI Service Error for this practice question: "
            "An unexpected server error occurred while fetching this practice question."
      end
  else error_json w "Invalid practice question index requested." 404
  end end end end.

(** The JSON body of [POST /practice-evaluate]: [index] is [None] when the
    key is missing or not an integer, [user_answer_field] is the string
    under [user_answer] (empty when the key is missing). *)
Record EvaluateRequest := {
  q_index : option Z;
  user_answer_field : str
}.

(** [questions_data_list[q_index].update({...})] *)
Definition with_evaluation (q : QuestionRecord) (user_answer feedback : str)
  : QuestionRecord :=
  {| question := question q;
     answer := answer q;
     user_answer := Some user_answer;
     ai_feedback := Some feedback |}.

(** [POST /practice-evaluate] *)
Definition practice_evaluate (model : Model) (w : World)
  (data : EvaluateRequest) : Outcome :=
  login_required w
  match present (current_practice_session_id (session w)) with
  | None => reply w (jsonify [("redirect", JStr (txt "practice_interview"))] 400)
  | Some practice_session_id =>
  match query_get (practice_sessions (db w)) practice_session_id with
  | None => reply w (jsonify [("redirect", JStr (txt "practice_interview"))] 400)
  | Some current_practice_session =>
  if negb (SessionType_eqb (session_type current_practice_session) practice)
  then reply w (jsonify [("redirect", JStr (txt "practice_interview"))] 400)
  else
  let questions_data_list := questions_data current_practice_session in
  let user_answer := strip (user_answer_field data) in
  match q_index data with
  | None => error_json w "Invalid question index for evaluation." 400
  | Some z =>
  if negb ((0 <=? z)%Z && (z <? Z.of_nat MAX_PRACTICE_QUESTIONS)%Z) then
    error_json w "Invalid question index for evaluation." 400
  else
  let i := Z.to_nat z in
  if negb (truthy user_answer) then
    error_json w "Your answer cannot be empty. Please provide a response." 400
  else
  match questions_data_list !! i with
  | None => error_json w "Question data not found for evaluation." 404
  | Some q =>
  let question_text := question q in
  let ideal_answer := answer q in
  let job_details := job_of current_practice_session in
  match model with
  | None => error_json w "AI service not available." 500
  | Some generate_content =>
  let evaluation_prompt :=
    EvaluationPrompt job_details question_text user_answer ideal_answer in
  match generate_content evaluation_prompt with
  | Text text =>
      let feedback_text := strip text in
      let updated :=
        if Nat.ltb i (length questions_data_list)
        then <[i:=with_evaluation q user_answer feedback_text]>
               questions_data_list
        else (questions_data_list
              ++ [{| question := question_text; answer := ideal_answer;
                     user_answer := Some user_answer;
                     ai_feedback := Some feedback_text |}])%list in
      {| response :=
           if Nat.eqb (length updated) MAX_PRACTICE_QUESTIONS
           then jsonify [("redirect", JStr (txt "practice_results"))] 200
           else jsonify [("message", JStr (txt "Answer evaluated successfully."));
                         ("feedback", JStr feedback_text)] 200;
         world := commit_questions w practice_session_id
                    current_practice_session updated;
         calls := [evaluation_prompt] |}
  | failure =>
      on_failure w evaluation_prompt failure
        "AI evaluation timed out. Please try again."
        "AI Service Error during evaluation: "
        "An unexpected server error occurred during evaluation."
  end end end end end end.

(** What the summary prompt reads from one entry; a missing key raises
    [KeyError]. *)
Definition prompt_item (data : QuestionRecord)
  : option (str * str * str * str) :=
  match user_answer data, ai_feedback data with
  | Some ua, Some fb => Some (question data, answer data, ua, fb)
  | _, _ => None
  end.

Fixpoint prompt_items (practice_data : list QuestionRecord)
  : option (list (str * str * str * str)) :=
  match practice_data with
  | [] => Some []
  | data :: rest =>
      match prompt_item data with
      | None => None
      | Some it =>
          match prompt_items rest with
          | None => None
          | Some its => Some (it :: its)
          end
      end
  end.

Definition unavailable (areas message : str) : OverallResults :=
  {| hiring_percentage := txt "N/A";
     areas_for_improvement := areas;
     overall_message := message |}.

(** [generate_overall_practice_feedback]: the result, or the exception that
    escapes it, and the prompts it sent. *)
Definition generate_overall_practice_feedback (model : Model)
  (practice_data : list QuestionRecord) (job_details : JobDetails)
  : (string + OverallResults) * list Prompt :=
  match model with
  | None =>
      (inr (unavailable (txt "AI service not available.")
              (txt "AI service not available.")), [])
  | Some generate_content =>
  match practice_data with
  | [] =>
      (inr (unavailable (txt "No practice data to evaluate.")
              (txt "No practice data to evaluate.")), [])
  | _ =>
  match prompt_items practice_data with
  | None => (inl "KeyError", [])
  | Some items =>
  let feedback_summary_prompt := OverallFeedbackPrompt job_details items in
  (inr match generate_content feedback_summary_prompt with
       | Text text => parse_overall_results (strip text)
       | DeadlineExceeded e =>
           unavailable
             (txt "AI generation timed out for overall feedback: " ++ e)%list
             (txt "Please try again.")
       | GoogleAPIError e =>
           unavailable
             (txt "AI service error for overall feedback: " ++ e)%list
             (txt "Please try again.")
       | OtherException e =>
           unavailable
             (txt "An unexpected server error occurred: " ++ e)%list
             (txt "Please try again.")
       end,
   [feedback_summary_prompt])
  end end end.

(** [session.pop("current_practice_session_id", None);
     session.pop("job_details", None)] *)
Definition clear_practice (s : FlaskSession) : FlaskSession :=
  {| user_id := user_id s;
     current_coach_session_id := current_coach_session_id s;
     current_practice_session_id := None;
     job_details := None |}.

(** [GET /practice-results] *)
Definition practice_results (model : Model) (w : World) : Outcome :=
  login_required w
  match present (current_practice_session_id (session w)) with
  | None => reply w (redirect "practice_interview")
  | Some practice_session_id =>
  match query_get (practice_sessions (db w)) practice_session_id with
  | None => reply w (redirect "practice_interview")
  | Some current_practice_session =>
  if negb (SessionType_eqb (session_type current_practice_session) practice)
  then reply w (redirect "practice_interview")
  else
  let practice_data := questions_data current_practice_session in
  let job_details := job_of current_practice_session in
  if match practice_data with [] => true | _ => false end
     || Nat.ltb (length practice_data) MAX_PRACTICE_QUESTIONS
  then reply w (redirect "practice_interview")
  else
  match generate_overall_practice_feedback model practice_data job_details with
  | (inl exception, sent) =>
      {| response := uncaught exception; world := w; calls := sent |}
  | (inr overall_feedback, sent) =>
      {| response :=
           render_template
             (practice_results_html practice_data overall_feedback job_details);
         world := {| db := db w; session := clear_practice (session w) |};
         calls := sent |}
  end end end.

(** The form of [POST /resume-optimizer]; a field is [None] when absent. *)
Record ResumeForm := {
  resume_text : option str;
  job_description : option str
}.

Definition filled (field : option str) : option str :=
  match field with
  | Some (c :: s) => Some (c :: s)
  | _ => None
  end.

Definition new_result (user : nat) (parsed_results : ResumeResults)
  : ResumeOptimizationResult :=
  {| row_user_id := user;
     row_match_score := match_score parsed_results;
     row_summary_message := summary_message parsed_results;
     row_original_improvements :=
       join_lines (original_improvements parsed_results);
     row_optimized_resume_text := optimized_resume_text parsed_results;
     row_changes_analysis := changes_analysis parsed_results |}.

(** [db.session.add(new_result); db.session.commit()] *)
Definition add_result (w : World) (row : ResumeOptimizationResult) : World :=
  {| db := {| practice_sessions := practice_sessions (db w);
              resume_results := (resume_results (db w) ++ [row])%list |};
     session := session w |}.

(** The test that the response could not be used:
    [match_score == 'N/A' and not original_improvements and
     optimized_resume_text == 'Could not generate optimized resume.'] *)
Definition parsing_failed (parsed_results : ResumeResults) : bool :=
  str_eqb (match_score parsed_results) NO_SCORE
  && match original_improvements parsed_results with
     | [] => true
     | _ => false
     end
  && str_eqb (optimized_resume_text parsed_results) NO_OPTIMIZED.

(** [POST /resume-optimizer] *)
Definition resume_optimizer (model : Model) (w : World) (form : ResumeForm)
  : Outcome :=
  login_required w
  match present (user_id (session w)) with
  | None => reply w (redirect "login")
  | Some user =>
  match filled (resume_text form), filled (job_description form) with
  | Some resume, Some description =>
      match model with
      | None =>
          reply w (render_template (error_html (txt
            "AI service not available for resume optimization. Check terminal for details.")))
      | Some generate_content =>
          let prompt := ResumePrompt description resume in
          match generate_content prompt with
          | Text text =>
              let raw_text := strip text in
              let parsed_results :=
                parse_resume_optimization_response raw_text in
              if parsing_failed parsed_results then
                {| response := render_template (error_html (txt
                     "AI did not generate complete optimization results. Check terminal for details."));
                   world := w;
                   calls := [prompt] |}
              else
                {| response := redirect "resume_optimizer_results";
                   world := add_result w (new_result user parsed_results);
                   calls := [prompt] |}
          | DeadlineExceeded _ =>
              {| response := render_template (error_html (txt
                   "AI generation timed out for resume optimization. Please try again."));
                 world := w;
                 calls := [prompt] |}
          | GoogleAPIError e =>
              {| response :=
                   render_template
                     (error_html (txt "AI Service Error: " ++ e)%list);
                 world := w;
                 calls := [prompt] |}
          | OtherException _ =>
              {| response := render_template (error_html (txt
                   "An unexpected server error occurred. Please try again. Check terminal for details."));
                 world := w;
                 calls := [prompt] |}
          end
      end
  | _, _ => reply w (render_template resume_optimizer_setup_html)
  end end.

(** The form of the two set-up routes. *)
Record SetupForm := {
  form_job_position : option str;
  form_experience : option str;
  form_industry : option str
}.

Definition add_session (w : World) (row : PracticeSession)
  (s : FlaskSession) : World :=
  {| db := {| practice_sessions := (practice_sessions (db w) ++ [row])%list;
              resume_results := resume_results (db w) |};
     session := s |}.

(** [POST /practice-interview] *)
Definition practice_interview (model : Model) (w : World) (form : SetupForm)
  : Outcome :=
  login_required w
  match model with
  | None => reply w (render_template (error_html (txt "AI service not available.")))
  | Some _ =>
  match filled (form_job_position form), user_id (session w) with
  | Some position, Some user =>
      let new_practice_session :=
        {| ps_user_id := user;
           job_position := position;
           experience_level := form_experience form;
           industry := form_industry form;
           session_type := practice;
           questions_data := [] |} in
      let id := S (length (practice_sessions (db w))) in
      reply
        (add_session w new_practice_session
           {| user_id := user_id (session w);
              current_coach_session_id :=
                current_coach_session_id (session w);
              current_practice_session_id := Some id;
              job_details := Some (job_of new_practice_session) |})
        (render_template (practice_interview_html position))
  | _, _ =>
      reply w (render_template (error_html (txt
        "Job position cannot be empty for practice. Please go back and provide one.")))
  end end.

(** [POST /interview-coach] *)
Definition interview_coach (model : Model) (w : World) (form : SetupForm)
  : Outcome :=
  login_required w
  match filled (form_job_position form), user_id (session w) with
  | Some position, Some user =>
      match model with
      | None =>
          reply w (render_template (error_html (txt
            "Google Gemini AI client not initialized. Check API key in .env and restart server.")))
      | Some generate_content =>
          let new_coach_session :=
            {| ps_user_id := user;
               job_position := position;
               experience_level := form_experience form;
               industry := form_industry form;
               session_type := coach;
               questions_data := [] |} in
          let id := S (length (practice_sessions (db w))) in
          let w1 :=
            add_session w new_coach_session
              {| user_id := user_id (session w);
                 current_coach_session_id := Some id;
                 current_practice_session_id :=
                   current_practice_session_id (session w);
                 job_details := Some (job_of new_coach_session) |} in
          let prompt := FirstQuestionPrompt (job_of new_coach_session) in
          match generate_content prompt with
          | Text text =>
              match parse_ai_response (strip text) with
              | first_qa :: _ =>
                  {| response := redirect "interview_question_display";
                     world := commit_questions w1 id new_coach_session
                                (questions_data new_coach_session
                                 ++ [first_qa])%list;
                     calls := [prompt] |}
              | [] =>
                  {| response := render_template (error_html (txt
                       "AI did not generate a valid first question. Try a different prompt/position."));
                     world := w1;
                     calls := [prompt] |}
              end
          | DeadlineExceeded _ =>
              {| response := render_template (error_html (txt
                   "AI generation timed out for the first question. Please try again."));
                 world := w1;
                 calls := [prompt] |}
          | GoogleAPIError e =>
              {| response :=
                   render_template (error_html
                     (txt "AI Service Error for initial question: " ++ e)%list);
                 world := w1;
                 calls := [prompt] |}
          | OtherException _ =>
              {| response := render_template (error_html (txt
                   "An unexpected server error occurred. Please try again. Check terminal for details."));
                 world := w1;
                 calls := [prompt] |}
          end
      end
  | _, _ =>
      reply w (render_template (error_html (txt
        "Job position cannot be empty. Please go back and provide one.")))
  end.

(** ** The session protocol: vocabulary of the statements *)

(** A question endpoint: its handler, the cookie key that points at its
    session, the session type it accepts, its cap and the JSON it sends for
    a record. *)
Record Endpoint := {
  handler : Model -> World -> nat -> Outcome;
  pointer : FlaskSession -> option nat;
  kind : SessionType;
  cap : nat;
  history : list QuestionRecord -> list str;
  payload : QuestionRecord -> nat -> list (string * jvalue)
}.

Definition coach_endpoint : Endpoint :=
  {| handler := get_question;
     pointer := current_coach_session_id;
     kind := coach;
     cap := MAX_INITIAL_QUESTIONS;
     history := fun qs => map question (last_n MAX_INITIAL_QUESTIONS qs);
     payload := fun q i =>
       [("question", JStr (question q)); ("answer", JStr (answer q));
        ("index", JNum i); ("total", JNum MAX_INITIAL_QUESTIONS)] |}.

Definition practice_endpoint : Endpoint :=
  {| handler := practice_interview_question;
     pointer := current_practice_session_id;
     kind := practice;
     cap := MAX_PRACTICE_QUESTIONS;
     history := fun qs => map question qs;
     payload := fun q i =>
       [("question", JStr (question q));
        ("index", JNum i); ("total", JNum MAX_PRACTICE_QUESTIONS)] |}.

(** The user is logged in and the cookie points at the stored session [s]
    with key [id], of the type the endpoint serves. *)
Definition active (ep : Endpoint) (w : World) (id : nat) (s : PracticeSession)
  : Prop :=
  user_id (session w) <> None
  /\ present (pointer ep (session w)) = Some id
  /\ query_get (practice_sessions (db w)) id = Some s
  /\ session_type s = kind ep.

(** The question list stored for the session with key [id]. *)
Definition stored (w : World) (id : nat) : list QuestionRecord :=
  match query_get (practice_sessions (db w)) id with
  | Some s => questions_data s
  | None => []
  end.

Definition rejected (out : Outcome) (status : nat) : Prop :=
  exists message, response out = jsonify [("error", JStr message)] status.

(** The transitions of the question endpoint as the specification words
    them, for the request of index [i] on the session with key [id]. *)
Definition question_transitions (ep : Endpoint) (model : Model) (w : World)
  (id i : nat) : Prop :=
  let qs := stored w id in
  let out := handler ep model w i in
  (i < length qs ->
     exists q, qs !! i = Some q
       /\ response out = jsonify (payload ep q i) 200 /\ world out = w)
  /\ (i = length qs -> length qs < cap ep ->
        exists q, stored (world out) id = (qs ++ [q])%list
          /\ length (stored (world out) id) = S i)
  /\ (i = length qs -> length qs = cap ep ->
        rejected out 400 /\ world out = w)
  /\ (length qs < i -> rejected out 404 /\ world out = w).

(** The same transitions with what the handlers add: the model client must
    be there, and a new record is stored when the call returns a text in
    which [parse_ai_response] finds a pair; a failed call or an unusable
    text is answered with an error, nothing stored. *)
Definition question_transitions_amended (ep : Endpoint)
  (generate_content : Prompt -> Completion) (w : World)
  (id i : nat) (s : PracticeSession) : Prop :=
  let qs := stored w id in
  let out := handler ep (Some generate_content) w i in
  let prompt := NextQuestionPrompt (job_of s) (history ep qs) in
  (i < length qs ->
     exists q, qs !! i = Some q
       /\ response out = jsonify (payload ep q i) 200 /\ world out = w
       /\ calls out = [])
  /\ (i = length qs -> length qs < cap ep ->
        calls out = [prompt]
        /\ match generate_content prompt with
           | Text text =>
               match parse_ai_response (strip text) with
               | q :: _ =>
                   stored (world out) id = (qs ++ [q])%list
                   /\ length (stored (world out) id) = S i
                   /\ response out = jsonify (payload ep q i) 200
                   /\ (forall id', id' <> id ->
                         stored (world out) id' = stored w id')
               | [] => rejected out 500 /\ world out = w
               end
           | DeadlineExceeded _ => rejected out 504 /\ world out = w
           | _ => rejected out 500 /\ world out = w
           end)
  /\ (i = length qs -> length qs = cap ep ->
        rejected out 400 /\ world out = w /\ calls out = [])
  /\ (length qs < i -> rejected out 404 /\ world out = w /\ calls out = []).

(** Worlds used as concrete inputs. *)
Definition alice : FlaskSession :=
  {| user_id := Some 1;
     current_coach_session_id := Some 1;
     current_practice_session_id := Some 2;
     job_details := None |}.

Definition unasked (q a : string) : QuestionRecord :=
  {| question := txt q; answer := txt a;
     user_answer := None; ai_feedback := None |}.

Definition session_row (t : SessionType) (qs : list QuestionRecord)
  : PracticeSession :=
  {| ps_user_id := 1;
     job_position := txt "Backend Engineer";
     experience_level := Some (txt "Mid");
     industry := Some (txt "Fintech");
     session_type := t;
     questions_data := qs |}.

(** A coach session (key 1) and a practice session (key 2) of one user. *)
Definition world_with (coach_qs practice_qs : list QuestionRecord) : World :=
  {| db := {| practice_sessions :=
                [session_row coach coach_qs; session_row practice practice_qs];
              resume_results := [] |};
     session := alice |}.

Definition timing_out : Model := Some (fun _ => DeadlineExceeded []).

Definition answering (text : string) : Model := Some (fun _ => Text (txt text)).

Definition evaluated (q : QuestionRecord) : bool :=
  match user_answer q, ai_feedback q with
  | Some _, Some _ => true
  | _, _ => false
  end.

Definition evaluated_count (qs : list QuestionRecord) : nat :=
  length (filter (fun q => evaluated q = true) qs).

(** Requests to the modelled routes. *)
Inductive Op :=
  | StartCoach (form : SetupForm)
  | StartPractice (form : SetupForm)
  | CoachQuestion (index : nat)
  | PracticeQuestion (index : nat)
  | Evaluate (data : EvaluateRequest)
  | Results
  | OptimizeResume (form : ResumeForm).

Definition perform (model : Model) (op : Op) (w : World) : Outcome :=
  match op with
  | StartCoach form => interview_coach model w form
  | StartPractice form => practice_interview model w form
  | CoachQuestion index => get_question model w index
  | PracticeQuestion index => practice_interview_question model w index
  | Evaluate data => practice_evaluate model w data
  | Results => practice_results model w
  | OptimizeResume form => resume_optimizer model w form
  end.

(** One step of a history: the request may come with another cookie (another
    browser, or after a login or logout), and the model answers as it
    likes. *)
Record Step := {
  cookie : option FlaskSession;
  model_then : Model;
  request : Op
}.

Definition arrive (st : Step) (w : World) : World :=
  match cookie st with
  | Some c => {| db := db w; session := c |}
  | None => w
  end.

Definition step (st : Step) (w : World) : World :=
  world (perform (model_then st) (request st) (arrive st w)).

Fixpoint run (steps : list Step) (w : World) : World :=
  match steps with
  | [] => w
  | st :: rest => run rest (step st w)
  end.

Definition empty_world (c : FlaskSession) : World :=
  {| db := {| practice_sessions := []; resume_results := [] |};
     session := c |}.

Definition within_cap (w : World) : Prop :=
  Forall (fun s => length (questions_data s) <= 5) (practice_sessions (db w)).

Definition same_question (a b : QuestionRecord) : Prop :=
  question a = question b /\ answer a = answer b.

(** [new] keeps every entry of [old] in place, with its question and ideal
    answer, and may have more entries after them. *)
Definition grows (old new : list QuestionRecord) : Prop :=
  exists kept added,
    new = (kept ++ added)%list /\ Forall2 same_question old kept.

Definition is_success (out : Outcome) : Prop :=
  exists body, response out = jsonify body 200.

Definition to_results : list (string * jvalue) :=
  [("redirect", JStr (txt "practice_results"))].

(** What an accepted evaluation has checked and done. *)
Definition accepted_evaluation (model : Model) (w : World)
  (data : EvaluateRequest) : Prop :=
  let out := practice_evaluate model w data in
  let given := strip (user_answer_field data) in
  exists id s i q g text,
    active practice_endpoint w id s
    /\ q_index data = Some (Z.of_nat i)
    /\ i < MAX_PRACTICE_QUESTIONS
    /\ questions_data s !! i = Some q
    /\ given <> []
    /\ model = Some g
    /\ g (EvaluationPrompt (job_of s) (question q) given (answer q))
       = Text text
    /\ stored (world out) id
       = <[i:=with_evaluation q given (strip text)]> (questions_data s)
    /\ length (stored (world out) id) = length (stored w id)
    /\ stored (world out) id !! i
       = Some {| question := question q; answer := answer q;
                 user_answer := Some given;
                 ai_feedback := Some (strip text) |}
    /\ (forall j, j <> i -> stored (world out) id !! j = stored w id !! j)
    /\ (forall id', id' <> id -> stored (world out) id' = stored w id').

Definition answer_to_first : EvaluateRequest :=
  {| q_index := Some 0%Z; user_answer_field := txt " my answer " |}.

Definition with_sessions (d : Database) (rows : list PracticeSession)
  : Database :=
  {| practice_sessions := rows; resume_results := resume_results d |}.

(** The ways in which a request changes the tables. *)
Inductive db_change (op : Op) (d : Database) : Database -> Prop :=
  | change_none : db_change op d d
  | change_append (id i : nat) (s : PracticeSession) (q : QuestionRecord) :
      query_get (practice_sessions d) id = Some s ->
      i = length (questions_data s) ->
      i < 5 ->
      op = CoachQuestion i \/ op = PracticeQuestion i ->
      db_change op d
        (with_sessions d
           (commit_row (practice_sessions d) id
              (set_questions s (questions_data s ++ [q])%list)))
  | change_update (id i : nat) (s : PracticeSession) (q q' : QuestionRecord) :
      query_get (practice_sessions d) id = Some s ->
      questions_data s !! i = Some q ->
      same_question q q' ->
      db_change op d
        (with_sessions d
           (commit_row (practice_sessions d) id
              (set_questions s (<[i:=q']> (questions_data s)))))
  | change_open (row : PracticeSession) :
      length (questions_data row) <= 1 ->
      db_change op d
        (with_sessions d (practice_sessions d ++ [row])%list)
  | change_result (row : ResumeOptimizationResult) :
      db_change op d
        {| practice_sessions := practice_sessions d;
           resume_results := (resume_results d ++ [row])%list |}.

(** What one request may do to the question list of the session [id]. *)
Definition list_step (op : Op) (w w' : World) (id : nat) : Prop :=
  grows (stored w id) (stored w' id)
  /\ (query_get (practice_sessions (db w)) id <> None ->
      length (stored w' id) <> length (stored w id) ->
      exists i,
        (op = CoachQuestion i \/ op = PracticeQuestion i)
        /\ i = length (stored w id)
        /\ stored w' id = (stored w id ++ drop i (stored w' id))%list
        /\ length (stored w' id) = S i).

(** ** The overall assessment as the specification describes it *)

Module Described.

(** The text after [label] when [s] starts with it, letters compared without
    case. *)
Definition after_label (label : string) (s : str) : option str :=
  after_prefix eqc_ci (txt label) s.

(** A percentage that follows the label here: the label, optional
    whitespace, one to three digits and the percent sign. *)
Definition percentage_here (s : str) : option str :=
  match after_label "Hiring Percentage:" s with
  | Some rest =>
      let digits := run_of isdigit (lstrip rest) in
      if (1 <=? length digits)%nat && (length digits <=? 3)%nat
         && starts_with (txt "%") (drop (length digits) (lstrip rest))
      then Some digits
      else None
  | None => None
  end.

Definition hiring_percentage_of (text : str) : str :=
  match first_at percentage_here text with
  | Some (_, digits) => (digits ++ txt "%")%list
  | None => txt "N/A"
  end.

(** One of the labels that end the block of improvements starts here. *)
Definition known_label_here (s : str) : bool :=
  match after_label "Overall Message:" s, after_label "Overall Feedback:" s with
  | None, None => false
  | _, _ => true
  end.

(** The block after the label, up to the next known label or the end of the
    text, stripped. *)
Definition areas_for_improvement_of (text : str) : str :=
  match first_at (after_label "Areas for Improvement:") text with
  | Some (_, rest) => strip (up_to known_label_here rest)
  | None => txt "N/A"
  end.

Definition message_label_here (s : str) : option str :=
  match after_label "Overall Message:" s with
  | Some rest => Some rest
  | None => after_label "Overall Feedback:" s
  end.

(** The block after the first message label, to the end of the text,
    stripped; the whole text, stripped, when there is no such label. *)
Definition overall_message_of (text : str) : str :=
  match first_at message_label_here text with
  | Some (_, rest) => strip rest
  | None => strip text
  end.

Definition overall_results_of (text : str) : OverallResults :=
  {| hiring_percentage := hiring_percentage_of text;
     areas_for_improvement := areas_for_improvement_of text;
     overall_message := overall_message_of text |}.

(** No label of the overall assessment occurs in the text, in any case. *)
Definition no_label (text : str) : Prop :=
  contains_ci (txt "Hiring Percentage:") text = false
  /\ contains_ci (txt "Areas for Improvement:") text = false
  /\ contains_ci (txt "Overall Message:") text = false
  /\ contains_ci (txt "Overall Feedback:") text = false.

End Described.

(** Sample texts in the format the prompts ask for. *)
Definition lines (ls : list string) : str := join_lines (map txt ls).

Definition sample_overall : str :=
  lines ["Hiring Percentage: 75%"; "Areas for Improvement:"; "- Be concise";
         "- Give examples"; "Overall Message: Keep going!"].

Definition sample_resume : str :=
  lines ["**Match Score:** 82%"; "**Summary Message:** A **good** fit.";
         "**Original Resume Analysis - Areas for Improvement:**";
         "- Add **metrics**"; ""; "* Use keywords"; "**Optimized Resume:**";
         "**Jane Doe**"; "Engineer";
         "**Analysis of Optimization Changes:** Added **numbers**."].

Definition resume_form : ResumeForm :=
  {| resume_text := Some (txt "Python developer");
     job_description := Some (txt "Backend role") |}.

Definition backend_form : SetupForm :=
  {| form_job_position := Some (txt "Backend Engineer");
     form_experience := Some (txt "Mid");
     form_industry := Some (txt "Fintech") |}.

Definition asking (op : Op) : Step :=
  {| cookie := None;
     model_then := answering "Question: Why Rust? Answer: Memory safety.";
     request := op |}.

(** The cookie of a user who has just logged in. *)
Definition logged_in : FlaskSession :=
  {| user_id := Some 1;
     current_coach_session_id := None;
     current_practice_session_id := None;
     job_details := None |}.

(** A practice session is started and six questions are requested. *)
Definition six_requests : list Step :=
  [asking (StartPractice backend_form);
   asking (PracticeQuestion 0); asking (PracticeQuestion 1);
   asking (PracticeQuestion 2); asking (PracticeQuestion 3);
   asking (PracticeQuestion 4); asking (PracticeQuestion 5)].

(** The world after [six_requests]: five questions stored, none answered. *)
Definition five_generated : World := run six_requests (empty_world logged_in).


(** ** Accounts: [register], [login], [logout] *)

(** A row of [User]; as for the other tables, the row with key [id] is at
    position [id - 1]. *)
Record User := {
  username : str;
  password_hash : str
}.

(** [werkzeug.security]: a hash is made from the password and a fresh salt,
    and checked against a password. *)
Record Hashing := {
  generate_password_hash : str -> str -> str;
  check_password_hash : str -> str -> bool
}.

(** A password is accepted against its own hash, whatever the salt. *)
Definition accepts_own (h : Hashing) : Prop :=
  forall salt password,
    check_password_hash h (generate_password_hash h salt password) password
    = true.

(** [User.query.filter_by(username=name).first()], with the key of the row;
    [key] is the key of the first row of [users]. *)
Fixpoint first_user (name : str) (key : nat) (users : list User)
  : option (nat * User) :=
  match users with
  | [] => None
  | u :: rest =>
      if str_eqb (username u) name then Some (key, u)
      else first_user name (S key) rest
  end.

Definition filter_by_username (name : str) (users : list User)
  : option (nat * User) :=
  first_user name 1 users.

Inductive AuthResponse :=
  | auth_redirect (endpoint : string)
  | register_html (entered : option str)
  | login_html
  | auth_uncaught (exception : string).

Record AuthOutcome := {
  auth_response : AuthResponse;
  users_after : list User;
  session_after : FlaskSession
}.

(** The form of [POST /register]; a field is [None] when it is absent, and
    [.strip()] on it then raises. *)
Record RegisterForm := {
  reg_username : option str;
  reg_password : option str;
  reg_confirm_password : option str
}.

(** [POST /register]; [salt] is what the hash draws at random.  (A [GET]
    shows the form and changes nothing.) *)
Definition register (h : Hashing) (salt : str) (users : list User)
  (s : FlaskSession) (form : RegisterForm) : AuthOutcome :=
  let stay r := {| auth_response := r; users_after := users;
                   session_after := s |} in
  match user_id s with
  | Some _ => stay (auth_redirect "index")
  | None =>
  match reg_username form, reg_password form, reg_confirm_password form with
  | Some u, Some p, Some c =>
      let name := strip u in
      let password := strip p in
      let confirm_password := strip c in
      if negb (truthy name) || negb (truthy password)
         || negb (truthy confirm_password)
      then stay (register_html (Some name))
      else if negb (str_eqb password confirm_password)
      then stay (register_html (Some name))
      else if Nat.ltb (length password) 6
      then stay (register_html (Some name))
      else
        match filter_by_username name users with
        | Some _ => stay (register_html (Some name))
        | None =>
            let new_user :=
              {| username := name;
                 password_hash := generate_password_hash h salt password |} in
            {| auth_response := auth_redirect "login";
               users_after := (users ++ [new_user])%list;
               session_after := s |}
        end
  | _, _, _ => stay (auth_uncaught "AttributeError")
  end end.

Record LoginForm := {
  login_username : option str;
  login_password : option str
}.

(** [session['user_id'] = user.id]; the key [username], which is set with it
    and which no route reads, is not kept in [FlaskSession]. *)
Definition log_in (s : FlaskSession) (id : nat) : FlaskSession :=
  {| user_id := Some id;
     current_coach_session_id := current_coach_session_id s;
     current_practice_session_id := current_practice_session_id s;
     job_details := job_details s |}.

(** [POST /login]; [next] is the query argument of that name. *)
Definition login (h : Hashing) (users : list User) (s : FlaskSession)
  (form : LoginForm) (next : option string) : AuthOutcome :=
  let stay r := {| auth_response := r; users_after := users;
                   session_after := s |} in
  match user_id s with
  | Some _ => stay (auth_redirect "index")
  | None =>
  match login_username form, login_password form with
  | Some u, Some p =>
      let name := strip u in
      let password := strip p in
      match filter_by_username name users with
      | Some (id, user) =>
          if check_password_hash h (password_hash user) password then
            {| auth_response :=
                 auth_redirect
                   match next with
                   | Some (String c page) => String c page
                   | _ => "index"
                   end;
               users_after := users;
               session_after := log_in s id |}
          else stay login_html
      | None => stay login_html
      end
  | _, _ => stay (auth_uncaught "AttributeError")
  end end.

(** [GET /logout]: the five [session.pop] and the redirect to the home
    page. *)
Definition logout (s : FlaskSession) : FlaskSession * AuthResponse :=
  ({| user_id := None;
      current_coach_session_id := None;
      current_practice_session_id := None;
      job_details := None |},
   auth_redirect "index").

(** ** [resume_optimizer_results] *)

Inductive ResultsResponse :=
  | results_redirect (endpoint : string)
  | resume_optimizer_results_html (results : ResumeResults).

(** What the template receives for a stored row: the improvements are
    split into lines again, an empty column giving no line. *)
Definition shown (results : ResumeOptimizationResult) : ResumeResults :=
  {| match_score := row_match_score results;
     summary_message := row_summary_message results;
     original_improvements :=
       if truthy (row_original_improvements results)
       then split_lines (row_original_improvements results)
       else [];
     optimized_resume_text := row_optimized_resume_text results;
     changes_analysis := row_changes_analysis results |}.

(** [GET /resume-optimizer-results].  The rows do not carry their time
    stamp: [order_by_timestamp_desc] stands for the sort of
    [order_by(timestamp.desc())], of which the statements only assume that it
    rearranges the rows. *)
Definition resume_optimizer_results
  (order_by_timestamp_desc
     : list ResumeOptimizationResult -> list ResumeOptimizationResult)
  (w : World) : ResultsResponse :=
  match user_id (session w) with
  | None => results_redirect "login"
  | Some _ =>
  match present (user_id (session w)) with
  | None => results_redirect "login"
  | Some user =>
  match
    head (order_by_timestamp_desc
            (filter (fun row => row_user_id row = user)
               (resume_results (db w))))
  with
  | None => results_redirect "resume_optimizer"
  | Some results => resume_optimizer_results_html (shown results)
  end end end.

(** What comes back from the table for parsed results: a single empty
    improvement is stored as an empty column and read as no improvement. *)
Definition after_storage (parsed : ResumeResults) : ResumeResults :=
  {| match_score := match_score parsed;
     summary_message := summary_message parsed;
     original_improvements :=
       match original_improvements parsed with
       | [[]] => []
       | items => items
       end;
     optimized_resume_text := optimized_resume_text parsed;
     changes_analysis := changes_analysis parsed |}.

(** ** Vocabulary of the further properties *)

(** One to three digits and the percent sign. *)
Definition is_percentage (g : str) : Prop :=
  exists d,
    g = (d ++ txt "%")%list /\ 1 <= length d <= 3 /\ forallb isdigit d = true.

Definition no_newline (s : str) : Prop := Forall (fun x => x <> nl) s.

(** The columns of a session row that are set when it is created. *)
Definition same_row (s s' : PracticeSession) : Prop :=
  ps_user_id s' = ps_user_id s
  /\ job_of s' = job_of s
  /\ session_type s' = session_type s.

(** What every stored entry looks like: a question and an ideal answer that
    are not empty and carry no whitespace at their ends, and either no
    evaluation at all or an answer of the same kind with its feedback. *)
Definition well_formed_record (q : QuestionRecord) : Prop :=
  question q <> [] /\ strip (question q) = question q
  /\ answer q <> [] /\ strip (answer q) = answer q
  /\ match user_answer q, ai_feedback q with
     | None, None => True
     | Some given, Some feedback =>
         given <> [] /\ strip given = given /\ strip feedback = feedback
     | _, _ => False
     end.

Definition not_evaluated (q : QuestionRecord) : Prop :=
  user_answer q = None /\ ai_feedback q = None.

Definition well_formed_row (s : PracticeSession) : Prop :=
  Forall well_formed_record (questions_data s)
  /\ (session_type s = coach -> Forall not_evaluated (questions_data s)).

Definition records_well_formed (w : World) : Prop :=
  Forall well_formed_row (practice_sessions (db w)).

(** The row that a set-up form opens for [user], with the entries [qs]. *)
Definition opened (t : SessionType) (user : nat) (position : str)
  (form : SetupForm) (qs : list QuestionRecord) : PracticeSession :=
  {| ps_user_id := user;
     job_position := position;
     experience_level := form_experience form;
     industry := form_industry form;
     session_type := t;
     questions_data := qs |}.

(** The model client answers no prompt with a text. *)
Definition failing (g : Prompt -> Completion) : Prop :=
  forall p text, g p <> Text text.

(** A request that reads or extends a session, or optimises a resume: every
    route but the two that open a session. *)
Definition opens_session (op : Op) : bool :=
  match op with
  | StartCoach _ | StartPractice _ => true
  | _ => false
  end.

Definition earlier_answer : EvaluateRequest :=
  {| q_index := Some 0%Z; user_answer_field := txt "a first try" |}.

(** A registration request: the form, the cookie it comes with and the salt
    that the hash draws. *)
Record Registration := {
  reg_salt : str;
  reg_cookie : FlaskSession;
  reg_form : RegisterForm
}.

(** The table of users after a sequence of registration requests. *)
Fixpoint register_all (h : Hashing) (requests : list Registration)
  (users : list User) : list User :=
  match requests with
  | [] => users
  | r :: rest =>
      register_all h rest
        (users_after
           (register h (reg_salt r) users (reg_cookie r) (reg_form r)))
  end.

(** User names are not empty, carry no whitespace at their ends and are
    pairwise different. *)
Definition well_formed_users (users : list User) : Prop :=
  NoDup (map username users)
  /\ Forall (fun u => username u <> [] /\ strip (username u) = username u)
       users.

(** A hashing for concrete inputs: the hash is the salt, a dollar sign and
    the password. *)
Definition salted : Hashing :=
  {| generate_password_hash := fun salt password =>
       (salt ++ txt "$" ++ password)%list;
     check_password_hash := fun hash password =>
       str_eqb (drop (length hash - length password) hash) password |}.

Definition new_account : RegisterForm :=
  {| reg_username := Some (txt " alice ");
     reg_password := Some (txt "secret1");
     reg_confirm_password := Some (txt "secret1") |}.

Definition anonymous : FlaskSession :=
  {| user_id := None;
     current_coach_session_id := None;
     current_practice_session_id := None;
     job_details := None |}.

(** The entry of the summary prompt that is made from a stored record. *)
Definition item_describes (q : QuestionRecord) (it : str * str * str * str)
  : Prop :=
  let '(question_text, ideal_answer, given, feedback) := it in
  question q = question_text /\ answer q = ideal_answer
  /\ user_answer q = Some given /\ ai_feedback q = Some feedback.

(** The assessment that is made from the model's answer to the summary
    prompt: parsed from a text, and without percentage after a failure. *)
Definition assessment_of (c : Completion) (r : OverallResults) : Prop :=
  match c with
  | Text text => r = parse_overall_results (strip text)
  | _ =>
      hiring_percentage r = txt "N/A"
      /\ overall_message r = txt "Please try again."
  end.

(** Every group holds characters that satisfy [Q]. *)
Definition caps_in (Q : ascii -> Prop) (c : caps) : Prop :=
  Forall (fun nv => Forall Q (snd nv)) c.

(** * Theorems *)

Local Open Scope list_scope.

Lemma truthy_true (s : str) : truthy s = true <-> s <> [].
Proof. destruct s; simpl; split; congruence. Qed.

(** ** Theorems: text and the matcher *)

Lemma code_inj (x y : ascii) : code x = code y -> x = y.
Proof.
  unfold code. intros H.
  rewrite <- (ascii_N_embedding x), <- (ascii_N_embedding y). congruence.
Qed.

Lemma eqc_refl (x : ascii) : eqc x x = true.
Proof. unfold eqc. apply N.eqb_refl. Qed.

Lemma eqc_true (x y : ascii) : eqc x y = true -> x = y.
Proof. unfold eqc. rewrite N.eqb_eq. apply code_inj. Qed.

(** Facts about single characters are checked on the 256 of them. *)
Ltac by_cases_on_char x :=
  destruct x as [[] [] [] [] [] [] [] []]; vm_compute; try reflexivity;
  try discriminate; auto.

Lemma space_not_digit (x : ascii) : isspace x = true -> isdigit x = false.
Proof. by_cases_on_char x. Qed.

Lemma skip_app_all (p : ascii -> bool) (w s : str) :
  forallb p w = true -> skip p (w ++ s) = skip p s.
Proof.
  induction w as [|x w IH]; simpl; [reflexivity|].
  intros [Hx Hw]%andb_true_iff. rewrite Hx. by apply IH.
Qed.

Lemma skip_split (p : ascii -> bool) (s : str) :
  s = run_of p s ++ skip p s /\ forallb p (run_of p s) = true.
Proof.
  induction s as [|x s [IH1 IH2]]; simpl; [by split|].
  destruct (p x) eqn:Hx; simpl; [|by split].
  rewrite Hx, IH2. split; [by f_equal | reflexivity].
Qed.

Lemma skip_head (p : ascii -> bool) (s : str) (x : ascii) (t : str) :
  skip p s = x :: t -> p x = false.
Proof.
  induction s as [|y s IH]; simpl; [discriminate|].
  destruct (p y) eqn:Hy; [assumption|]. intros H; by simplify_eq.
Qed.

(** *** [strip] *)

Lemma rstrip_snoc_space (s : str) (x : ascii) :
  isspace x = true -> rstrip (s ++ [x]) = rstrip s.
Proof.
  intros Hx. unfold rstrip, lstrip. rewrite rev_unit. simpl. by rewrite Hx.
Qed.

Lemma rstrip_app_space (s w : str) :
  forallb isspace w = true -> rstrip (s ++ w) = rstrip s.
Proof.
  revert s. induction w as [|x w IH] using rev_ind; intros s Hw.
  - by rewrite app_nil_r.
  - rewrite forallb_app in Hw. apply andb_true_iff in Hw as [Hw Hx].
    simpl in Hx. rewrite andb_true_r in Hx.
    rewrite app_assoc, rstrip_snoc_space by assumption. by apply IH.
Qed.

Lemma rstrip_snoc_keep (s : str) (x : ascii) :
  isspace x = false -> rstrip (s ++ [x]) = s ++ [x].
Proof.
  intros Hx. unfold rstrip, lstrip. rewrite rev_unit. simpl. rewrite Hx.
  simpl. by rewrite rev_involutive.
Qed.

Lemma rstrip_cons (x : ascii) (s : str) :
  rstrip (x :: s) = match rstrip s with
                    | [] => if isspace x then [] else [x]
                    | t => x :: t
                    end.
Proof.
  induction s as [|y s IH] using rev_ind.
  - unfold rstrip, lstrip. simpl. by destruct (isspace x).
  - destruct (isspace y) eqn:Hy.
    + rewrite app_comm_cons, !rstrip_snoc_space by assumption. exact IH.
    + rewrite app_comm_cons, !rstrip_snoc_keep by assumption.
      by destruct s.
Qed.

Lemma strip_app_space_r (s w : str) :
  forallb isspace w = true -> strip (s ++ w) = strip s.
Proof. intros H. unfold strip. by rewrite rstrip_app_space. Qed.

Lemma strip_cons_space (x : ascii) (s : str) :
  isspace x = true -> strip (x :: s) = strip s.
Proof.
  intros Hx. unfold strip. rewrite rstrip_cons.
  destruct (rstrip s) eqn:Hr; [by rewrite Hx|].
  unfold lstrip. simpl. by rewrite Hx.
Qed.

Lemma strip_app_space_l (w s : str) :
  forallb isspace w = true -> strip (w ++ s) = strip s.
Proof.
  induction w as [|x w IH]; simpl; [reflexivity|].
  intros [Hx Hw]%andb_true_iff. rewrite strip_cons_space by assumption.
  by apply IH.
Qed.

Lemma strip_lstrip (s : str) : strip (lstrip s) = strip s.
Proof.
  unfold lstrip. destruct (skip_split isspace s) as [Hs Hw].
  rewrite Hs at 2. by rewrite strip_app_space_l.
Qed.

(** A stripped, non-empty text begins and ends with characters that are not
    whitespace. *)
Lemma stripped_ends (s : str) :
  s <> [] -> strip s = s ->
  (exists x t, s = x :: t /\ isspace x = false)
  /\ (exists t y, s = t ++ [y] /\ isspace y = false).
Proof.
  intros Hne Hs. split.
  - destruct s as [|x t]; [congruence|]. exists x, t. split; [reflexivity|].
    unfold strip in Hs. destruct (rstrip (x :: t)) as [|y r] eqn:Hr;
      [discriminate Hs|].
    eapply (skip_head isspace (y :: r)). exact Hs.
  - destruct (exists_last Hne) as (t & y & ->). exists t, y.
    split; [reflexivity|].
    destruct (isspace y) eqn:Hy; [|reflexivity].
    exfalso. unfold strip in Hs. rewrite rstrip_snoc_space in Hs by assumption.
    assert (Hlen : length (lstrip (rstrip t)) <= length t).
    { clear. unfold lstrip.
      assert (H1 : forall u, length (skip isspace u) <= length u).
      { induction u as [|c u IH]; simpl; [lia|]. destruct (isspace c); simpl; lia. }
      etransitivity; [apply H1|]. unfold rstrip, lstrip.
      rewrite length_rev. etransitivity; [apply H1|]. by rewrite length_rev. }
    rewrite Hs, length_app in Hlen. simpl in Hlen. lia.
Qed.

(** *** [after_prefix], [first_at], [up_to] *)

Lemma after_prefix_app (eq : ascii -> ascii -> bool) (l1 l2 s : str) :
after_prefix eq (l1 ++ l2) s
= match after_prefix eq l1 s with
  | Some s1 => after_prefix eq l2 s1
  | None => None
  end.
Proof.
revert s. induction l1 as [|c l1 IH]; intros s; simpl; [reflexivity|].
destruct s as [|x s]; [reflexivity|]. destruct (eq c x); [apply IH | reflexivity].
Qed.

Lemma after_prefix_ext (eq1 eq2 : ascii -> ascii -> bool) (l s : str) :
(forall c x, In c l -> eq1 c x = eq2 c x) ->
after_prefix eq1 l s = after_prefix eq2 l s.
Proof.
revert s. induction l as [|c l IH]; intros s H; simpl; [reflexivity|].
destruct s as [|x s]; [reflexivity|].
rewrite (H c x) by (by left). destruct (eq2 c x); [|reflexivity].
apply IH. intros c' x' Hin. apply H. by right.
Qed.

Lemma after_prefix_length (eq : ascii -> ascii -> bool) (l s s' : str) :
after_prefix eq l s = Some s' -> length s = length l + length s'.
Proof.
revert s. induction l as [|c l IH]; intros s; simpl.
- intros H; by simplify_eq.
- destruct s as [|x s]; [discriminate|]. destruct (eq c x); [|discriminate].
  intros H. apply IH in H. simpl. lia.
Qed.

Lemma after_prefix_split (eq : ascii -> ascii -> bool) (l s s' : str) :
after_prefix eq l s = Some s' ->
exists pre, s = pre ++ s' /\ length pre = length l.
Proof.
revert s. induction l as [|c l IH]; intros s; simpl.
- intros H. exists []. by simplify_eq.
- destruct s as [|x s]; [discriminate|]. destruct (eq c x); [|discriminate].
  intros H. destruct (IH _ H) as (pre & -> & Hlen).
  exists (x :: pre). split; [reflexivity | simpl; lia].
Qed.

(** If the run [l] is found at the head of [a ++ b], it is found in [a] or
  it runs into [b]. *)
Lemma after_prefix_across (eq : ascii -> ascii -> bool) (l a b r : str) :
after_prefix eq l (a ++ b) = Some r ->
(exists r', after_prefix eq l a = Some r')
\/ (exists l1 c l2 x b',
      l = l1 ++ c :: l2 /\ b = x :: b' /\ eq c x = true).
Proof.
revert a. induction l as [|c l IH]; intros a; simpl.
- intros _. left. by eexists.
- destruct a as [|y a]; simpl.
  + destruct b as [|x b']; [discriminate|].
    destruct (eq c x) eqn:Hc; [|discriminate]. intros _. right.
    by exists [], c, l, x, b'.
  + destruct (eq c y); [|discriminate]. intros H.
    destruct (IH _ H) as [Hl | (l1 & c' & l2 & x & b' & -> & -> & Hc)].
    * by left.
    * right. by exists (c :: l1), c', l2, x, b'.
Qed.

Section FirstAt.

Context {A : Type}.
Implicit Types (f g : str -> option A).

Lemma first_at_ext f g s :
  (forall t, f t = g t) -> first_at f s = first_at g s.
Proof.
  intros H. induction s as [|x s IH]; simpl; rewrite H; [reflexivity|].
  by rewrite IH.
Qed.

(** The first success is at [s] after the prefix [pre] when [f] fails at
    every earlier place. *)
Lemma first_at_app f pre s a :
  (forall n, n < length pre -> f (drop n pre ++ s) = None) ->
  f s = Some a ->
  first_at f (pre ++ s) = Some (pre, a).
Proof.
  induction pre as [|x pre IH]; intros Hfail Hs; simpl.
  - destruct s; simpl; by rewrite Hs.
  - pose proof (Hfail 0 ltac:(simpl; lia)) as H0. simpl in H0. rewrite H0.
    rewrite IH; [reflexivity| |assumption].
    intros n Hn. apply (Hfail (S n)). simpl. lia.
Qed.

Lemma first_at_fail_everywhere f s :
  (forall n, f (drop n s) = None) -> first_at f s = None.
Proof.
  induction s as [|x s IH]; intros H; simpl.
  - pose proof (H 0) as H0. simpl in H0. by rewrite H0.
  - pose proof (H 0) as H0. simpl in H0. rewrite H0.
    rewrite IH; [reflexivity|]. intros n. apply (H (S n)).
Qed.

Lemma first_at_stop (stop : str -> bool) (F : str -> A) s :
  stop [] = true ->
  first_at (fun t => if stop t then Some (F t) else None) s
  = Some (up_to stop s, F (drop (length (up_to stop s)) s)).
Proof.
  intros Hnil. induction s as [|x s IH]; simpl.
  - by rewrite Hnil.
  - destruct (stop (x :: s)); [reflexivity|]. by rewrite IH.
Qed.

End FirstAt.

Lemma first_at_fmap {A B : Type} (h : A -> B) (f : str -> option A) (s : str) :
first_at (fun t => h <$> f t) s = prod_map id h <$> first_at f s.
Proof.
induction s as [|x s IH]; simpl.
- by destruct (f []).
- destruct (f (x :: s)); simpl; [reflexivity|]. rewrite IH.
  by destruct (first_at f s) as [[]|].
Qed.

Lemma up_to_split (stop : str -> bool) (s : str) :
s = up_to stop s ++ drop (length (up_to stop s)) s.
Proof.
induction s as [|x s IH]; simpl.
- by destruct (stop []).
- destruct (stop (x :: s)); simpl; [reflexivity|]. by f_equal.
Qed.

Lemma up_to_app_run (stop : str -> bool) (w s : str) :
(forall n, n < length w -> stop (drop n w ++ s) = false) ->
up_to stop (w ++ s) = w ++ up_to stop s.
Proof.
induction w as [|x w IH]; intros H; simpl; [reflexivity|].
pose proof (H 0 ltac:(simpl; lia)) as H0. simpl in H0. rewrite H0.
f_equal. apply IH.
intros n Hn. apply (H (S n)). simpl. lia.
Qed.

Lemma take_app_diff (pre s : str) :
take (length (pre ++ s) - length s) (pre ++ s) = pre.
Proof.
rewrite length_app. replace (length pre + length s - length s) with (length pre) by lia.
by rewrite take_app_length.
Qed.

Lemma drop_run_of (p : ascii -> bool) (s : str) :
drop (length (run_of p s)) s = skip p s.
Proof.
induction s as [|x s IH]; simpl; [reflexivity|].
destruct (p x); simpl; [assumption | reflexivity].
Qed.

Lemma take_skip (p : ascii -> bool) (s : str) :
take (length s - length (skip p s)) s = run_of p s.
Proof.
destruct (skip_split p s) as [Hs _]. rewrite Hs at 1 3.
apply take_app_diff.
Qed.

(** *** The repetitions *)

Section Repetitions.

Context {R : Type}.
Implicit Types (k ka kb : str -> option R).

Lemma star_lazy_ext p ka kb s :
  (forall t, ka t = kb t) -> star_lazy p s ka = star_lazy p s kb.
Proof.
  intros H. induction s as [|x s IH]; simpl; rewrite H; [reflexivity|].
  by rewrite IH.
Qed.

(** When what follows cannot start with a character of the class, the
    greedy star gives up nothing. *)
Lemma star_greedy_commit p k s :
  (forall x t, p x = true -> k (x :: t) = None) ->
  star_greedy p s k = k (skip p s).
Proof.
  intros Hk. induction s as [|x s IH]; simpl; [reflexivity|].
  destruct (p x) eqn:Hx; [|reflexivity]. rewrite IH.
  destruct (k (skip p s)); [reflexivity|]. by apply Hk.
Qed.

(** The greedy star first tries the longest run. *)
Lemma star_greedy_first p k s r :
  k (skip p s) = Some r -> star_greedy p s k = Some r.
Proof.
  induction s as [|x s IH]; simpl; [done|].
  destruct (p x); [|done]. intros H. by rewrite IH.
Qed.

Lemma star_greedy_sound p k s r :
  star_greedy p s k = Some r -> exists n, k (drop n s) = Some r.
Proof.
  induction s as [|x s IH]; simpl.
  - intros H. by exists 0.
  - destruct (p x); [|intros H; by exists 0].
    destruct (star_greedy p s k) eqn:Hs.
    + intros H. simplify_eq. destruct (IH eq_refl) as [n Hn]. by exists (S n).
    + intros H. by exists 0.
Qed.

(** The lazy star over a class that holds every character stops at the
    first place where what follows succeeds. *)
Lemma star_lazy_first_at p k s :
  (forall x, p x = true) -> star_lazy p s k = snd <$> first_at k s.
Proof.
  intros Hp. induction s as [|x s IH]; simpl.
  - by destruct (k []).
  - destruct (k (x :: s)); [reflexivity|]. rewrite Hp, IH.
    by destruct (first_at k s) as [[]|].
Qed.

Lemma star_lazy_sound p k s r :
  star_lazy p s k = Some r -> exists n, k (drop n s) = Some r.
Proof.
  induction s as [|x s IH]; simpl.
  - destruct (k []) eqn:Hk; [|discriminate]. intros H. exists 0. by simplify_eq.
  - destruct (k (x :: s)) eqn:Hk.
    + intros H. exists 0. by simplify_eq.
    + destruct (p x); [|discriminate]. intros H.
      destruct (IH H) as [n Hn]. by exists (S n).
Qed.

(** When what follows cannot start with a character of the class, the
    bounded repetition takes the whole run or fails. *)
Lemma rep_greedy_commit p lo hi k s :
  (forall x t, p x = true -> k (x :: t) = None) ->
  rep_greedy p lo hi s k
  = if (lo <=? length (run_of p s))%nat && (length (run_of p s) <=? hi)%nat
    then k (skip p s) else None.
Proof.
  intros Hk. revert lo s. induction hi as [|hi IH]; intros lo s.
  - simpl. destruct s as [|x s]; simpl.
    + destruct lo; reflexivity.
    + destruct (p x) eqn:Hx; simpl.
      * rewrite andb_false_r. destruct lo; simpl; [by apply Hk | reflexivity].
      * destruct lo; reflexivity.
  - simpl. destruct s as [|x s]; simpl.
    + destruct lo; reflexivity.
    + destruct (p x) eqn:Hx; simpl.
      * rewrite IH.
        replace (Nat.pred lo <=? length (run_of p s))%nat
          with (lo <=? S (length (run_of p s)))%nat
          by (destruct lo; reflexivity).
        destruct ((lo <=? S (length (run_of p s)))%nat
                  && (length (run_of p s) <=? hi)%nat) eqn:Hc.
        -- destruct (k (skip p s)); [reflexivity|].
           destruct lo; simpl; [by apply Hk | reflexivity].
        -- destruct lo; simpl; [by apply Hk | reflexivity].
      * destruct lo; reflexivity.
Qed.

End Repetitions.

(** *** [search] *)

Lemma search_from_first_at (fl : flags) (text : str) (r : regex) (s : str) :
search_from fl text r s
= (fun '(pre, (e, c)) => (drop (length pre) s, e, c))
    <$> first_at (match_at fl text r) s.
Proof.
induction s as [|x s IH]; simpl.
- by destruct (match_at fl text r []) as [[e c]|].
- destruct (match_at fl text r (x :: s)) as [[e c]|]; [reflexivity|].
  rewrite IH. by destruct (first_at (match_at fl text r) s) as [[pre [e c]]|].
Qed.

(** The group [n] of a search is the value at the first place where the
  anchored match, seen through its group [n], succeeds. *)
Lemma found_first_at (fl : flags) (r : regex) (n : nat) (text : str)
(f : str -> option str) :
(forall t, (fun ec => group_or_empty n (snd ec)) <$> match_at fl text r t
           = f t) ->
found n (search fl r text) = snd <$> first_at f text.
Proof.
intros Hf. unfold search. rewrite search_from_first_at.
rewrite (first_at_ext f (fun t => (fun ec => group_or_empty n (snd ec))
                                    <$> match_at fl text r t))
  by (intros; by rewrite Hf).
rewrite first_at_fmap.
assert (Hopt : forall o : option (str * (str * caps)),
           found n ((fun '(pre, (e, c)) => (drop (length pre) text, e, c))
                      <$> o)
           = snd <$> (prod_map id (fun ec : str * caps =>
                                     group_or_empty n (snd ec)) <$> o))
  by (by intros [[pre [e c]]|]).
apply Hopt.
Qed.

(** *** The patterns of [parse_overall_results], place by place *)

Lemma percent_sign_ci (x : ascii) :
  eqc_ci "%"%char x = eqc "%"%char x.
Proof. by_cases_on_char x. Qed.

Lemma digit_not_percent (x : ascii) :
  isdigit x = true -> eqc_ci "%"%char x = false.
Proof. by_cases_on_char x. Qed.

Lemma percent_at (text t : str) :
  (fun ec : str * caps => group_or_empty 1 (snd ec))
    <$> match_at I_ text percent_re t
  = Described.percentage_here t.
Proof.
  unfold match_at, percent_re. cbn [m].
  unfold Described.percentage_here, Described.after_label.
  change (strip_prefix I_ (txt "Hiring Percentage:") t)
    with (after_prefix eqc_ci (txt "Hiring Percentage:") t).
  destruct (after_prefix eqc_ci (txt "Hiring Percentage:") t) as [s1|];
    [|reflexivity].
  change (in_class I_ CSpace) with isspace.
  change (in_class I_ CDigit) with isdigit.
  assert (Hpercent : forall c x u,
    isdigit x = true ->
    match strip_prefix I_ (txt "%") (x :: u) with
    | Some s' => accept s' c
    | None => None
    end = None).
  { intros c x u Hx. unfold strip_prefix, lit_eq. cbn.
    fold (eqc_ci "%"%char x). by rewrite digit_not_percent. }
  rewrite star_greedy_commit.
  2:{ intros x u Hx. rewrite rep_greedy_commit by (intros; by apply Hpercent).
      simpl. by rewrite (space_not_digit x Hx). }
  rewrite rep_greedy_commit by (intros; by apply Hpercent).
  fold (lstrip s1). rewrite drop_run_of, take_skip.
  rewrite <- andb_assoc.
  destruct (1 <=? length (run_of isdigit (lstrip s1)))%nat; [|reflexivity].
  destruct (length (run_of isdigit (lstrip s1)) <=? 3)%nat; [|reflexivity].
  cbn [andb]. unfold starts_with, strip_prefix.
  rewrite (after_prefix_ext (lit_eq I_) eqc (txt "%")).
  2:{ intros c x [<-|[]]. apply percent_sign_ci. }
  by destruct (after_prefix eqc (txt "%") _).
Qed.

Lemma take_up_to (stop : str -> bool) (s : str) :
  take (length s - length (drop (length (up_to stop s)) s)) s = up_to stop s.
Proof.
  pose proof (up_to_split stop s) as Hs. rewrite length_drop.
  assert (Hlen : length (up_to stop s) <= length s).
  { rewrite Hs at 2. rewrite length_app. lia. }
  replace (length s - (length s - length (up_to stop s)))
    with (length (up_to stop s)) by lia.
  transitivity (take (length (up_to stop s))
                  (up_to stop s ++ drop (length (up_to stop s)) s)).
  - f_equal. exact Hs.
  - apply take_app_length.
Qed.

(** A lazy group over any character, followed by a test [stop] that holds at
    the end of the text at the latest: the group is the text up to the first
    place where [stop] holds. *)
Lemma lazy_until (p : ascii -> bool) (stop : str -> bool)
  (C : str -> str -> caps) (s : str) :
  (forall x, p x = true) ->
  stop [] = true ->
  star_lazy p s
    (fun s' => if stop s' then Some (s', C s' (take (length s - length s') s))
               else None)
  = Some (drop (length (up_to stop s)) s,
          C (drop (length (up_to stop s)) s) (up_to stop s)).
Proof.
  intros Hp Hstop. rewrite star_lazy_first_at by assumption.
  rewrite (first_at_stop stop
             (fun s' => (s', C s' (take (length s - length s') s))))
    by assumption.
  cbn [fmap option_fmap option_map snd]. do 3 f_equal.
  apply take_up_to.
Qed.

Lemma dot_all (fl : flags) (x : ascii) :
  DOTALL fl = true -> in_class fl CDot x = true.
Proof. intros H. simpl. by rewrite H. Qed.

Lemma improvement_at (text t : str) :
  (fun ec : str * caps => group_or_empty 1 (snd ec))
    <$> match_at IS_ text improvement_re t
  = (fun rest =>
       up_to (fun s => Described.known_label_here s || at_end s)
         (lstrip rest))
      <$> Described.after_label "Areas for Improvement:" t.
Proof.
  unfold match_at, improvement_re. cbn [m].
  unfold Described.after_label.
  change (strip_prefix IS_ (txt "Areas for Improvement:") t)
    with (after_prefix eqc_ci (txt "Areas for Improvement:") t).
  destruct (after_prefix eqc_ci (txt "Areas for Improvement:") t) as [s1|];
    [|reflexivity].
  change (in_class IS_ CSpace) with isspace.
  set (stop := fun s => Described.known_label_here s || at_end s).
  set (G := fun s3 : str =>
    match after_prefix eqc_ci (txt "Overall Message:") s3 with
    | Some s' => take (length s3 - length s') s3
    | None =>
        match after_prefix eqc_ci (txt "Overall Feedback:") s3 with
        | Some s' => take (length s3 - length s') s3
        | None => take (length s3 - length s3) s3
        end
    end).
  match goal with
  | |- context [star_greedy isspace s1 ?k] =>
      assert (HK : k (lstrip s1)
                   = Some (drop (length (up_to stop (lstrip s1))) (lstrip s1),
                           [(2, G (drop (length (up_to stop (lstrip s1)))
                                     (lstrip s1)));
                            (1, up_to stop (lstrip s1))]))
  end.
  { etransitivity;
      [|exact (lazy_until (in_class IS_ CDot) stop
                 (fun e u => [(2, G e); (1, u)]) (lstrip s1)
                 (fun x => dot_all IS_ x eq_refl) eq_refl)].
    apply star_lazy_ext. intros s3.
    unfold stop, Described.known_label_here, Described.after_label, G.
    change (strip_prefix IS_ (txt "Overall Message:") s3)
      with (after_prefix eqc_ci (txt "Overall Message:") s3).
    change (strip_prefix IS_ (txt "Overall Feedback:") s3)
      with (after_prefix eqc_ci (txt "Overall Feedback:") s3).
    destruct (after_prefix eqc_ci (txt "Overall Message:") s3); [reflexivity|].
    destruct (after_prefix eqc_ci (txt "Overall Feedback:") s3); [reflexivity|].
    cbn [orb]. by destruct (at_end s3). }
  by rewrite (star_greedy_first _ _ _ _ HK).
Qed.

Lemma skip_everything (p : ascii -> bool) (s : str) :
  (forall x, p x = true) -> skip p s = [].
Proof.
  intros Hp. induction s as [|x s IH]; simpl; [reflexivity|]. by rewrite Hp.
Qed.

(** A greedy group over any character that ends the pattern takes the rest
    of the text. *)
Lemma greedy_rest (p : ascii -> bool) (C : str -> caps) (s : str) :
  (forall x, p x = true) ->
  star_greedy p s (fun s' => accept s' (C (take (length s - length s') s)))
  = Some ([], C s).
Proof.
  intros Hp. apply star_greedy_first. rewrite skip_everything by assumption.
  unfold accept. simpl. by rewrite Nat.sub_0_r, firstn_all.
Qed.

Lemma message_at (text t : str) :
  (fun ec : str * caps => group_or_empty 1 (snd ec))
    <$> match_at IS_ text overall_message_re t
  = lstrip <$> Described.message_label_here t.
Proof.
  unfold match_at, overall_message_re. cbn [m].
  change (in_class IS_ CSpace) with isspace.
  assert (HK : forall s1,
    match strip_prefix IS_ (txt ":") s1 with
    | Some s2 =>
        star_greedy isspace s2
          (fun s3 =>
             star_greedy (in_class IS_ CDot) s3
               (fun s4 => accept s4 [(1, take (length s3 - length s4) s3)]))
    | None => None
    end
    = (fun s2 => ([], [(1, lstrip s2)]))
        <$> after_prefix eqc_ci (txt ":") s1).
  { intros s1.
    change (strip_prefix IS_ (txt ":") s1)
      with (after_prefix eqc_ci (txt ":") s1).
    destruct (after_prefix eqc_ci (txt ":") s1) as [s2|]; [|reflexivity].
    apply star_greedy_first. fold (lstrip s2).
    apply (greedy_rest (in_class IS_ CDot) (fun g => [(1, g)])).
    intros x. by apply dot_all. }
  unfold Described.message_label_here, Described.after_label.
  change (txt "Overall Message:") with (txt "Overall Message" ++ txt ":").
  change (txt "Overall Feedback:") with (txt "Overall Feedback" ++ txt ":").
  rewrite !after_prefix_app.
  change (strip_prefix IS_ (txt "Overall Message") t)
    with (after_prefix eqc_ci (txt "Overall Message") t).
  change (strip_prefix IS_ (txt "Overall Feedback") t)
    with (after_prefix eqc_ci (txt "Overall Feedback") t).
  destruct (after_prefix eqc_ci (txt "Overall Message") t) as [s1|].
  - rewrite HK. destruct (after_prefix eqc_ci (txt ":") s1) as [s2|];
      cbn [fmap option_fmap option_map]; [reflexivity|].
    destruct (after_prefix eqc_ci (txt "Overall Feedback") t) as [s1'|];
      [|reflexivity].
    rewrite HK. by destruct (after_prefix eqc_ci (txt ":") s1').
  - destruct (after_prefix eqc_ci (txt "Overall Feedback") t) as [s1'|];
      [|reflexivity].
    rewrite HK. by destruct (after_prefix eqc_ci (txt ":") s1').
Qed.

(** *** [parse_overall_results] *)

Lemma space_not_O (x : ascii) :
  isspace x = true -> eqc_ci "O"%char x = false.
Proof. by_cases_on_char x. Qed.

Lemma known_label_not_at_space (x : ascii) (s : str) :
  isspace x = true -> Described.known_label_here (x :: s) = false.
Proof.
  intros Hx. unfold Described.known_label_here, Described.after_label.
  cbn. fold (eqc_ci "O"%char x). by rewrite space_not_O.
Qed.

Lemma forallb_drop_head (p : ascii -> bool) (w : str) (n : nat) :
  forallb p w = true -> n < length w ->
  exists x t, drop n w = x :: t /\ p x = true.
Proof.
  revert n. induction w as [|y w IH]; intros n Hw Hn; simpl in *; [lia|].
  apply andb_true_iff in Hw as [Hy Hw].
  destruct n as [|n]; simpl; [by exists y, w|]. apply IH; [assumption | lia].
Qed.

Lemma up_to_known_label_skips_space (s : str) :
  up_to Described.known_label_here s
  = run_of isspace s ++ up_to Described.known_label_here (lstrip s).
Proof.
  destruct (skip_split isspace s) as [Hs Hw]. rewrite Hs at 1.
  apply up_to_app_run. intros n Hn.
  destruct (forallb_drop_head _ _ _ Hw Hn) as (x & t & -> & Hx).
  by apply known_label_not_at_space.
Qed.

Lemma rstrip_up_to_end (stop : str -> bool) (s : str) :
  rstrip (up_to (fun t => stop t || at_end t) s) = rstrip (up_to stop s).
Proof.
  induction s as [|x s IH]; simpl.
  - by destruct (stop []).
  - destruct (stop (x :: s)); [reflexivity|]. cbn [orb].
    destruct s as [|y s].
    + cbn [at_end]. destruct (eqc x nl) eqn:Hx.
      * apply eqc_true in Hx as ->. simpl. by destruct (stop []).
      * by rewrite !rstrip_cons, IH.
    + cbn [at_end]. by rewrite !rstrip_cons, IH.
Qed.

Lemma areas_block (rest : str) :
  strip (up_to (fun s => Described.known_label_here s || at_end s)
           (lstrip rest))
  = strip (up_to Described.known_label_here rest).
Proof.
  rewrite (up_to_known_label_skips_space rest).
  rewrite strip_app_space_l by (by destruct (skip_split isspace rest)).
  unfold strip. by rewrite rstrip_up_to_end.
Qed.

Lemma parse_overall_results_eq (text : str) :
  parse_overall_results text = Described.overall_results_of text.
Proof.
  unfold parse_overall_results, Described.overall_results_of.
  rewrite (found_first_at I_ percent_re 1 text _ (percent_at text)).
  rewrite (found_first_at IS_ improvement_re 1 text _ (improvement_at text)).
  rewrite (found_first_at IS_ overall_message_re 1 text _ (message_at text)).
  rewrite !first_at_fmap. f_equal.
  - unfold Described.hiring_percentage_of.
    by destruct (first_at Described.percentage_here text) as [[pre d]|].
  - unfold Described.areas_for_improvement_of.
    destruct (first_at (Described.after_label "Areas for Improvement:") text)
      as [[pre rest]|]; [|reflexivity].
    cbn [fmap option_fmap option_map prod_map snd]. apply areas_block.
  - unfold Described.overall_message_of.
    destruct (first_at Described.message_label_here text) as [[pre rest]|];
      [|reflexivity].
    cbn [fmap option_fmap option_map prod_map snd]. apply strip_lstrip.
Qed.

Lemma contains_ci_false (l s : str) :
  contains_ci l s = false ->
  forall n, after_prefix eqc_ci l (drop n s) = None.
Proof.
  induction s as [|x s IH]; simpl; intros H n.
  - rewrite drop_nil. by destruct (after_prefix eqc_ci l []).
  - apply orb_false_iff in H as [H1 H2].
    destruct n as [|n]; simpl; [|by apply IH].
    by destruct (after_prefix eqc_ci l (x :: s)).
Qed.

Lemma no_label_first_at (label : string) (text : str) :
  contains_ci (txt label) text = false ->
  first_at (Described.after_label label) text = None.
Proof.
  intros H. apply first_at_fail_everywhere. intros n.
  by apply contains_ci_false.
Qed.

(** C7. [parse_overall_results] is the extraction that the specification
    describes: the percentage of one to three digits that follows the first
    [Hiring Percentage:] label followed by one, the stripped block after the
    first [Areas for Improvement:] up to the next [Overall Message:] or
    [Overall Feedback:] or the end of the text, and the stripped text after
    the first [Overall Message:] or [Overall Feedback:], labels compared
    without case.  A field whose label does not occur is ["N/A"], except the
    message, which is then the whole text, stripped; the function is total. *)
Theorem parse_overall_results_described (text : str) :
  parse_overall_results text = Described.overall_results_of text
  /\ (contains_ci (txt "Hiring Percentage:") text = false ->
      hiring_percentage (parse_overall_results text) = txt "N/A")
  /\ (contains_ci (txt "Areas for Improvement:") text = false ->
      areas_for_improvement (parse_overall_results text) = txt "N/A")
  /\ (contains_ci (txt "Overall Message:") text = false ->
      contains_ci (txt "Overall Feedback:") text = false ->
      overall_message (parse_overall_results text) = strip text)
  /\ (Described.no_label text ->
      parse_overall_results text
      = {| hiring_percentage := txt "N/A";
           areas_for_improvement := txt "N/A";
           overall_message := strip text |}).
Proof.
  rewrite parse_overall_results_eq.
  assert (H1 : contains_ci (txt "Hiring Percentage:") text = false ->
               Described.hiring_percentage_of text = txt "N/A").
  { intros H. unfold Described.hiring_percentage_of.
    rewrite first_at_fail_everywhere; [reflexivity|]. intros n.
    unfold Described.percentage_here, Described.after_label.
    by rewrite (contains_ci_false _ _ H). }
  assert (H2 : contains_ci (txt "Areas for Improvement:") text = false ->
               Described.areas_for_improvement_of text = txt "N/A").
  { intros H. unfold Described.areas_for_improvement_of.
    by rewrite no_label_first_at. }
  assert (H3 : contains_ci (txt "Overall Message:") text = false ->
               contains_ci (txt "Overall Feedback:") text = false ->
               Described.overall_message_of text = strip text).
  { intros Ha Hb. unfold Described.overall_message_of.
    rewrite first_at_fail_everywhere; [reflexivity|]. intros n.
    unfold Described.message_label_here, Described.after_label.
    by rewrite (contains_ci_false _ _ Ha), (contains_ci_false _ _ Hb). }
  repeat split; try assumption.
  intros (Ha & Hb & Hc & Hd). unfold Described.overall_results_of.
  by rewrite H1, H2, H3.
Qed.

Lemma parse_overall_results_described_witness :
  Described.no_label (txt " You did well. ")
  /\ parse_overall_results (txt " You did well. ")
     = {| hiring_percentage := txt "N/A";
          areas_for_improvement := txt "N/A";
          overall_message := txt "You did well." |}.
Proof.
  assert (H : Described.no_label (txt " You did well. "))
    by (repeat split; reflexivity).
  split; [exact H|].
  exact (proj2 (proj2 (proj2 (proj2
           (parse_overall_results_described (txt " You did well. "))))) H).
Defined.

(** *** [parse_ai_response] *)

(** The matcher, one item of a sequence at a time. *)
Lemma m_Str_Seq (fl : flags) (text l : str) (r : regex) (s : str) (c : caps)
  (k : str -> caps -> option result) :
  m fl text (Str l >> r) s c k
  = match strip_prefix fl l s with
    | Some s' => m fl text r s' c k
    | None => None
    end.
Proof. reflexivity. Qed.

Lemma m_Star_Seq (fl : flags) (text : str) (cl : cclass) (r : regex) (s : str)
  (c : caps) (k : str -> caps -> option result) :
  m fl text (Star cl >> r) s c k
  = star_greedy (in_class fl cl) s (fun s' => m fl text r s' c k).
Proof. reflexivity. Qed.

Lemma m_Lazy_Seq (fl : flags) (text : str) (n : nat) (cl : cclass) (r : regex)
  (s : str) (c : caps) (k : str -> caps -> option result) :
  m fl text (Group n (LazyStar cl) >> r) s c k
  = star_lazy (in_class fl cl) s
      (fun s' =>
         m fl text r s' ((n, take (length s - length s') s) :: c) k).
Proof. reflexivity. Qed.

Lemma contains_false (l s : str) :
  contains l s = false ->
  forall n, after_prefix eqc l (drop n s) = None.
Proof.
  induction s as [|x s IH]; simpl; intros H n.
  - rewrite drop_nil. unfold starts_with in H.
    rewrite orb_false_r in H. by destruct (after_prefix eqc l []).
  - apply orb_false_iff in H as [H1 H2]. unfold starts_with in H1.
    destruct n as [|n]; simpl; [|by apply IH].
    by destruct (after_prefix eqc l (x :: s)).
Qed.

Lemma drop_of_after_prefix (eq : ascii -> ascii -> bool) (l s s' : str) :
  after_prefix eq l s = Some s' -> s' = drop (length l) s.
Proof.
  intros H. destruct (after_prefix_split _ _ _ _ H) as (pre & -> & <-).
  by rewrite drop_app_length.
Qed.

(** A match of [qa_re] starts with [Question:] and has [Answer:] later. *)
Lemma qa_match_labels (text t : str) (res : result) :
  match_at S_ text qa_re t = Some res ->
  (exists s1, after_prefix eqc (txt "Question:") t = Some s1)
  /\ (exists n s5, after_prefix eqc (txt "Answer:") (drop n t) = Some s5).
Proof.
  unfold match_at, qa_re. rewrite m_Str_Seq.
  change (strip_prefix S_ (txt "Question:") t)
    with (after_prefix eqc (txt "Question:") t).
  destruct (after_prefix eqc (txt "Question:") t) as [s1|] eqn:Hq;
    [|discriminate].
  intros H. split; [by eexists|].
  rewrite m_Star_Seq in H. apply star_greedy_sound in H as [n1 H].
  rewrite m_Lazy_Seq in H. apply star_lazy_sound in H as [n2 H].
  rewrite m_Star_Seq in H. apply star_greedy_sound in H as [n3 H].
  rewrite m_Str_Seq in H.
  change (strip_prefix S_ (txt "Answer:") (drop n3 (drop n2 (drop n1 s1))))
    with (after_prefix eqc (txt "Answer:") (drop n3 (drop n2 (drop n1 s1))))
    in H.
  destruct (after_prefix eqc (txt "Answer:") _) as [s5|] eqn:Ha;
    [|discriminate].
  rewrite (drop_of_after_prefix _ _ _ _ Hq), !drop_drop in Ha.
  by eexists _, s5.
Qed.

Lemma qa_search_none (text s : str) :
  contains (txt "Question:") s = false \/ contains (txt "Answer:") s = false ->
  search_from S_ text qa_re s = None.
Proof.
  intros H. rewrite search_from_first_at.
  rewrite first_at_fail_everywhere; [reflexivity|]. intros n.
  destruct (match_at S_ text qa_re (drop n s)) as [res|] eqn:Hm;
    [|reflexivity].
  exfalso. apply qa_match_labels in Hm as ((s1 & Hq) & (n' & s5 & Ha)).
  destruct H as [H | H].
  - by rewrite (contains_false _ _ H) in Hq.
  - rewrite drop_drop in Ha. by rewrite (contains_false _ _ H) in Ha.
Qed.

Lemma parse_ai_response_missing_label (text : str) :
  contains (txt "Question:") text = false
  \/ contains (txt "Answer:") text = false ->
  parse_ai_response text = [].
Proof.
  intros H. unfold parse_ai_response, findall. cbn [findall_from].
  by rewrite qa_search_none.
Qed.

Lemma parse_ai_response_kept (text : str) (q : QuestionRecord) :
  In q (parse_ai_response text) ->
  question q <> [] /\ answer q <> []
  /\ exists c, In c (findall S_ qa_re text)
       /\ question q = strip (group_or_empty 1 c)
       /\ answer q = strip (group_or_empty 2 c).
Proof.
  unfold parse_ai_response. rewrite in_flat_map. intros (c & Hc & Hq).
  unfold qa_of_match in Hq.
  destruct (truthy (strip (group_or_empty 1 c))) eqn:H1; [|destruct Hq].
  destruct (truthy (strip (group_or_empty 2 c))) eqn:H2; [|destruct Hq].
  destruct Hq as [<-|[]]. cbn [question answer].
  apply truthy_true in H1, H2. repeat split; try assumption. by exists c.
Qed.

(** The end of [qa_re]: the lazy group of the answer stops at the next
    [Question:] or at the end of the text. *)
Lemma qa_answer_group (text s : str) (c : caps) :
  exists g3,
    m S_ text
      (Group 2 (LazyStar CDot)
       >> Look (Group 3 (Alt (Str (txt "Question:")) Eol))) s c accept
    = Some (drop (length (up_to (fun t => starts_with (txt "Question:") t
                                          || at_end t) s)) s,
            (3, g3)
            :: (2, up_to (fun t => starts_with (txt "Question:") t
                                   || at_end t) s)
            :: c).
Proof.
  set (stop := fun t => starts_with (txt "Question:") t || at_end t).
  set (G := fun e : str =>
    match after_prefix eqc (txt "Question:") e with
    | Some s' => take (length e - length s') e
    | None => take (length e - length e) e
    end).
  exists (G (drop (length (up_to stop s)) s)).
  rewrite m_Lazy_Seq.
  etransitivity;
    [|exact (lazy_until (in_class S_ CDot) stop
               (fun e u => (3, G e) :: (2, u) :: c) s
               (fun x => dot_all S_ x eq_refl) eq_refl)].
  apply star_lazy_ext. intros s7. cbn [m].
  unfold stop, starts_with, G.
  change (strip_prefix S_ (txt "Question:") s7)
    with (after_prefix eqc (txt "Question:") s7).
  destruct (after_prefix eqc (txt "Question:") s7); [reflexivity|].
  cbn [orb]. by destruct (at_end s7).
Qed.

Lemma skip_app_keep (p : ascii -> bool) (s r : str) :
  (exists t y, s = t ++ [y] /\ p y = false) ->
  skip p (s ++ r) = skip p s ++ r /\ skip p s <> [].
Proof.
  induction s as [|x s IH]; intros (t & y & Hs & Hy).
  - by destruct t.
  - simpl. destruct (p x) eqn:Hx; [|split; [reflexivity | discriminate]].
    apply IH. destruct t as [|x' t]; simpl in Hs; simplify_eq.
    + congruence.
    + by exists t, y.
Qed.

Lemma drop_suffix_last (s t : str) (y : ascii) (n : nat) :
  s = t ++ [y] -> n < length s ->
  exists t', drop n s = t' ++ [y].
Proof.
  intros -> Hn. rewrite length_app in Hn. simpl in Hn.
  exists (drop n t). rewrite drop_app_le by lia. reflexivity.
Qed.

Lemma skip_is_drop (p : ascii -> bool) (s : str) :
  exists n, skip p s = drop n s.
Proof.
  induction s as [|x s [n IH]]; simpl; [by exists 0|].
  destruct (p x); [by exists (S n) | by exists 0].
Qed.

(** A run that occurs at a place that starts in [a] and [a] does not hold
    it: it runs into what follows [a]. *)
Lemma label_not_inside (l a b r : str) (n : nat) :
  contains l a = false ->
  after_prefix eqc l (drop n a ++ b) = Some r ->
  exists c x b', In c l /\ b = x :: b' /\ c = x.
Proof.
  intros Hno H.
  destruct (after_prefix_across _ _ _ _ _ H)
    as [[r' Hr] | (l1 & c & l2 & x & b' & -> & -> & Hc)].
  - by rewrite (contains_false _ _ Hno) in Hr.
  - exists c, x, b'. apply eqc_true in Hc.
    repeat split; [|assumption]. apply in_app_iff. right. by left.
Qed.

Lemma answer_label_rejects_space (text : str) (r : regex) (c : caps)
  (k : str -> caps -> option result) (x : ascii) (t : str) :
  isspace x = true ->
  m S_ text (Str (txt "Answer:") >> r) (x :: t) c k = None.
Proof.
  intros Hx. rewrite m_Str_Seq. unfold strip_prefix, lit_eq. cbn.
  destruct (eqc "A"%char x) eqn:HA; [|reflexivity].
  apply eqc_true in HA as <-. discriminate Hx.
Qed.

(** The match of [qa_re] on a text of the shape
    [Question: A Answer: B] followed by whitespace. *)
Lemma qa_match_well_formed (A B ws : str) :
  A <> [] -> B <> [] -> strip A = A -> strip B = B ->
  contains (txt "Answer:") A = false ->
  contains (txt "Question:") B = false ->
  forallb isspace ws = true ->
  let text := txt "Question: " ++ A ++ txt " Answer: " ++ B ++ ws in
  exists u e g3,
    ws = u ++ e
    /\ match_at S_ text qa_re text
       = Some (e, [(3, g3); (2, B ++ u); (1, A)]).
Proof.
  intros HA HB HsA HsB HnoA HnoQ Hws text.
  destruct (stripped_ends A HA HsA) as ((a & A' & HAhd & Ha) & (At & ay & HAtl & Hay)).
  destruct (stripped_ends B HB HsB) as ((b & B' & HBhd & Hb) & (Bt & by_ & HBtl & Hby)).
  set (stop := fun t => starts_with (txt "Question:") t || at_end t).
  set (R1 := txt " Answer: " ++ B ++ ws).
  destruct (qa_answer_group text (B ++ ws) [(1, A)]) as [g3 Htail].
  fold stop in Htail.
  (* the answer group stops inside the trailing whitespace *)
  assert (Hu : up_to stop (B ++ ws) = B ++ up_to stop ws).
  { apply up_to_app_run. intros n Hn. unfold stop.
    destruct (drop_suffix_last B Bt by_ n HBtl Hn) as [t' Ht'].
    apply orb_false_iff. split.
    - unfold starts_with.
      destruct (after_prefix eqc (txt "Question:") (drop n B ++ ws)) as [r|] eqn:Hr;
        [|reflexivity].
      exfalso.
      destruct (label_not_inside _ _ _ _ _ HnoQ Hr) as (c & x & ws' & Hc & -> & ->).
      simpl in Hws. apply andb_true_iff in Hws as [Hx _].
      cbn in Hc.
      repeat (destruct Hc as [<-|Hc]; [discriminate Hx|]). destruct Hc.
    - rewrite Ht'. destruct t' as [|z t']; simpl.
      + destruct ws; [|reflexivity].
        destruct (eqc by_ nl) eqn:Hnl; [|reflexivity].
        apply eqc_true in Hnl as ->. discriminate Hby.
      + destruct ((t' ++ [by_]) ++ ws) eqn:Hl; [|reflexivity].
        apply app_eq_nil in Hl as [Hl _]. by destruct t'. }
  exists (up_to stop ws), (drop (length (up_to stop ws)) ws), g3.
  split; [apply up_to_split|].
  unfold match_at, qa_re. rewrite m_Str_Seq.
  change (strip_prefix S_ (txt "Question:") text)
    with (Some (" "%char :: A ++ R1)).
  cbv beta iota. rewrite m_Star_Seq. apply star_greedy_first.
  change (in_class S_ CSpace) with isspace.
  replace (skip isspace (" "%char :: A ++ R1)) with (A ++ R1)
    by (rewrite HAhd; simpl; by rewrite Ha).
  rewrite m_Lazy_Seq, star_lazy_first_at by (intros; by apply dot_all).
  erewrite first_at_app; [reflexivity| |].
  - (* no earlier end of the question *)
    intros n Hn. rewrite m_Star_Seq.
    rewrite star_greedy_commit
      by (intros; by apply answer_label_rejects_space).
    change (in_class S_ CSpace) with isspace.
    destruct (drop_suffix_last A At ay n HAtl Hn) as [t' Ht'].
    destruct (skip_app_keep isspace (drop n A) R1) as [Hsk Hne];
      [by exists t', ay|].
    rewrite Hsk. destruct (skip_is_drop isspace (drop n A)) as [n' Hn'].
    rewrite Hn', drop_drop in Hsk, Hne |- *.
    rewrite m_Str_Seq.
    change (strip_prefix S_ (txt "Answer:") (drop (n + n') A ++ R1))
      with (after_prefix eqc (txt "Answer:") (drop (n + n') A ++ R1)).
    destruct (after_prefix eqc (txt "Answer:") (drop (n + n') A ++ R1))
      as [r|] eqn:Hr; [|reflexivity].
    exfalso.
    destruct (label_not_inside _ _ _ _ _ HnoA Hr) as (c & x & b' & Hc & Hx & ->).
    unfold R1 in Hx. cbn in Hx. injection Hx as <- _. cbn in Hc.
    repeat (destruct Hc as [Hc|Hc]; [discriminate Hc|]). destruct Hc.
  - (* the question ends before [ Answer:] *)
    rewrite m_Star_Seq.
    rewrite star_greedy_commit
      by (intros; by apply answer_label_rejects_space).
    change (in_class S_ CSpace) with isspace.
    change (skip isspace R1) with (txt "Answer: " ++ B ++ ws).
    rewrite m_Str_Seq.
    change (strip_prefix S_ (txt "Answer:") (txt "Answer: " ++ B ++ ws))
      with (Some (" "%char :: B ++ ws)).
    cbv beta iota. rewrite m_Star_Seq. apply star_greedy_first.
    change (in_class S_ CSpace) with isspace.
    replace (skip isspace (" "%char :: B ++ ws)) with (B ++ ws)
      by (rewrite HBhd; simpl; by rewrite Hb).
    rewrite take_app_diff.
    rewrite Htail, Hu. do 2 f_equal.
    rewrite length_app, drop_app_ge by lia.
    f_equal. lia.
Qed.

Lemma search_from_here (fl : flags) (text : str) (r : regex) (s e : str)
  (c : caps) :
  match_at fl text r s = Some (e, c) ->
  search_from fl text r s = Some (s, e, c).
Proof. intros H. destruct s; simpl; by rewrite H. Qed.

Lemma findall_from_none (fuel : nat) (fl : flags) (text : str) (r : regex)
  (s : str) :
  search_from fl text r s = None -> findall_from fuel fl text r s = [].
Proof. intros H. destruct fuel; simpl; [reflexivity | by rewrite H]. Qed.

Lemma space_only_no_question (e : str) :
  forallb isspace e = true -> contains (txt "Question:") e = false.
Proof.
  induction e as [|x e IH]; [reflexivity|]. cbn [forallb].
  intros [Hx He]%andb_true_iff.
  change (contains (txt "Question:") (x :: e))
    with (starts_with (txt "Question:") (x :: e)
          || contains (txt "Question:") e).
  rewrite (IH He), orb_false_r.
  unfold starts_with. cbn.
  destruct (eqc "Q"%char x) eqn:HQ; [|reflexivity].
  apply eqc_true in HQ as <-. discriminate Hx.
Qed.

Lemma parse_ai_response_well_formed (A B ws : str) :
  A <> [] -> B <> [] -> strip A = A -> strip B = B ->
  contains (txt "Answer:") A = false ->
  contains (txt "Question:") B = false ->
  forallb isspace ws = true ->
  parse_ai_response (txt "Question: " ++ A ++ txt " Answer: " ++ B ++ ws)
  = [{| question := A; answer := B;
        user_answer := None; ai_feedback := None |}].
Proof.
  intros HA HB HsA HsB HnoA HnoQ Hws.
  destruct (qa_match_well_formed A B ws HA HB HsA HsB HnoA HnoQ Hws)
    as (u & e & g3 & Hue & Hm). cbv zeta in Hm.
  assert (Hspace : forallb isspace u = true /\ forallb isspace e = true).
  { rewrite Hue, forallb_app in Hws. by apply andb_true_iff in Hws. }
  destruct Hspace as [Hu He].
  unfold parse_ai_response, findall. cbn [findall_from].
  rewrite (search_from_here _ _ _ _ _ _ Hm).
  replace (length e <? length (txt "Question: " ++ A ++ txt " Answer: " ++ B ++ ws))%nat
    with true.
  2:{ symmetry. apply Nat.ltb_lt. rewrite Hue, !length_app. simpl. lia. }
  rewrite findall_from_none
    by (apply qa_search_none; left; by apply space_only_no_question).
  cbn [flat_map]. rewrite app_nil_r. unfold qa_of_match.
  change (group_or_empty 1 [(3, g3); (2, B ++ u); (1, A)]) with A.
  change (group_or_empty 2 [(3, g3); (2, B ++ u); (1, A)]) with (B ++ u).
  rewrite strip_app_space_r, HsA, HsB by assumption.
  by rewrite (proj2 (truthy_true A) HA), (proj2 (truthy_true B) HB).
Qed.

(** C6. A text [Question: A Answer: B], where [A] and [B] are stripped and
    non-empty, [A] does not hold [Answer:] and [B] does not hold
    [Question:], gives exactly the pair of [A] and [B], whatever whitespace
    follows it; a text in which [Question:] or [Answer:] does not occur
    gives no pair; and every pair of a result has a question and an answer
    that are non-empty after stripping, a match without one being left
    out. *)
Theorem parse_ai_response_pairs :
  (forall A B ws : str,
      A <> [] -> B <> [] -> strip A = A -> strip B = B ->
      contains (txt "Answer:") A = false ->
      contains (txt "Question:") B = false ->
      forallb isspace ws = true ->
      parse_ai_response (txt "Question: " ++ A ++ txt " Answer: " ++ B ++ ws)
      = [{| question := A; answer := B;
            user_answer := None; ai_feedback := None |}])
  /\ (forall text : str,
        contains (txt "Question:") text = false
        \/ contains (txt "Answer:") text = false ->
        parse_ai_response text = [])
  /\ (forall (text : str) (q : QuestionRecord),
        In q (parse_ai_response text) ->
        question q <> [] /\ answer q <> []
        /\ exists c, In c (findall S_ qa_re text)
             /\ question q = strip (group_or_empty 1 c)
             /\ answer q = strip (group_or_empty 2 c)).
Proof.
  split; [exact parse_ai_response_well_formed|].
  split; [exact parse_ai_response_missing_label|].
  exact parse_ai_response_kept.
Qed.

Lemma parse_ai_response_pairs_witness :
  parse_ai_response
    (txt "Question: " ++ txt "Why Rust?" ++ txt " Answer: "
     ++ txt "Memory safety." ++ [" "%char; nl])
  = [{| question := txt "Why Rust?"; answer := txt "Memory safety.";
        user_answer := None; ai_feedback := None |}]
  /\ parse_ai_response (txt "Question: Why Rust?") = []
  /\ parse_ai_response (txt "Answer: Memory safety.") = [].
Proof.
  destruct parse_ai_response_pairs as (H1 & H2 & _).
  split; [|split].
  - apply H1; try reflexivity; discriminate.
  - apply H2. right. reflexivity.
  - apply H2. left. reflexivity.
Defined.

(** *** The scans never run out of fuel *)

Lemma rep_greedy_sound {R : Type} (p : ascii -> bool) (lo hi : nat) (s : str)
  (k : str -> option R) (r : R) :
  rep_greedy p lo hi s k = Some r -> exists n, k (drop n s) = Some r.
Proof.
  revert lo s. induction hi as [|hi IH]; intros lo s; simpl.
  - destruct (Nat.eqb lo 0); [|discriminate]. intros H. by exists 0.
  - assert (Hstop : (if Nat.eqb lo 0 then k s else None) = Some r ->
                    exists n, k (drop n s) = Some r).
    { destruct (Nat.eqb lo 0); [|discriminate]. intros H. by exists 0. }
    destruct s as [|x s]; [exact Hstop|].
    destruct (p x); [|exact Hstop].
    destruct (rep_greedy p (Nat.pred lo) hi s k) eqn:Hr; [|exact Hstop].
    intros H. simplify_eq. destruct (IH _ _ Hr) as [n Hn]. by exists (S n).
Qed.

(** What follows a pattern is entered on a suffix of where the pattern was
    entered. *)
Lemma m_shrinks (fl : flags) (text : str) (r : regex) (s : str) (c : caps)
  (k : str -> caps -> option result) (res : result) :
  m fl text r s c k = Some res ->
  exists s' c', length s' <= length s /\ k s' c' = Some res.
Proof.
  revert s c k. induction r as [l|cl|r1 IH1 r2 IH2|r1 IH1 r2 IH2|cl|cl|cl lo hi|n r1 IH1|r1 IH1| |];
    intros s c k; cbn [m].
  - destruct (strip_prefix fl l s) as [s'|] eqn:Hp; [|discriminate].
    intros H. exists s', c. split; [|assumption].
    apply after_prefix_length in Hp. lia.
  - destruct s as [|x s]; [discriminate|].
    destruct (in_class fl cl x); [|discriminate].
    intros H. exists s, c. split; [simpl; lia | assumption].
  - intros H. destruct (IH1 _ _ _ H) as (s1 & c1 & Hl1 & H1).
    destruct (IH2 _ _ _ H1) as (s2 & c2 & Hl2 & H2).
    exists s2, c2. split; [lia | assumption].
  - destruct (m fl text r1 s c k) eqn:H1.
    + intros H. simplify_eq. by apply IH1 in H1.
    + apply IH2.
  - intros H. apply star_greedy_sound in H as [n H].
    exists (drop n s), c. split; [rewrite length_drop; lia | assumption].
  - intros H. apply star_lazy_sound in H as [n H].
    exists (drop n s), c. split; [rewrite length_drop; lia | assumption].
  - intros H. apply rep_greedy_sound in H as [n H].
    exists (drop n s), c. split; [rewrite length_drop; lia | assumption].
  - intros H. destruct (IH1 _ _ _ H) as (s1 & c1 & Hl1 & H1).
    by exists s1, ((n, take (length s - length s1) s) :: c1).
  - destruct (m fl text r1 s c (fun s' c' => Some (s', c'))) as [[e c']|];
      [|discriminate].
    intros H. by exists s, c'.
  - destruct (Nat.eqb (length s) (length text)); [|discriminate].
    intros H. by exists s, c.
  - destruct (at_end s); [|discriminate]. intros H. by exists s, c.
Qed.

Lemma match_at_shrinks (fl : flags) (text : str) (r : regex) (s e : str)
  (c : caps) :
  match_at fl text r s = Some (e, c) -> length e <= length s.
Proof.
  intros H. apply m_shrinks in H as (s' & c' & Hl & H).
  unfold accept in H. by simplify_eq.
Qed.

Lemma search_from_shrinks (fl : flags) (text : str) (r : regex) (s b e : str)
  (c : caps) :
  search_from fl text r s = Some (b, e, c) ->
  length e <= length b /\ length b <= length s.
Proof.
  induction s as [|x s IH]; simpl.
  - destruct (match_at fl text r []) as [[e' c']|] eqn:Hm; [|discriminate].
    intros H. simplify_eq. apply match_at_shrinks in Hm. simpl in *. lia.
  - destruct (match_at fl text r (x :: s)) as [[e' c']|] eqn:Hm.
    + intros H. simplify_eq. apply match_at_shrinks in Hm. simpl in *. lia.
    + intros H. apply IH in H. lia.
Qed.

(** More fuel than the length of the text changes nothing: [findall] and
    [sub] are the scans run to their end. *)
Lemma findall_from_fuel (fl : flags) (text : str) (r : regex)
  (f1 f2 : nat) (s : str) :
  length s < f1 -> length s < f2 ->
  findall_from f1 fl text r s = findall_from f2 fl text r s.
Proof.
  revert f2 s. induction f1 as [|f1 IH]; intros f2 s H1 H2; [lia|].
  destruct f2 as [|f2]; [lia|]. cbn [findall_from].
  destruct (search_from fl text r s) as [[[b e] c]|] eqn:Hs; [|reflexivity].
  apply search_from_shrinks in Hs as [He Hb]. f_equal.
  destruct (Nat.ltb_spec (length e) (length b)).
  - apply IH; lia.
  - destruct e as [|y e]; [reflexivity|]. apply IH; simpl in *; lia.
Qed.

Lemma sub_from_fuel (fl : flags) (text : str) (r : regex)
  (repl : caps -> str) (f1 f2 : nat) (s : str) :
  length s < f1 -> length s < f2 ->
  sub_from f1 fl text r repl s = sub_from f2 fl text r repl s.
Proof.
  revert f2 s. induction f1 as [|f1 IH]; intros f2 s H1 H2; [lia|].
  destruct f2 as [|f2]; [lia|]. cbn [sub_from].
  assert (Hcopy :
    match s with [] => [] | x :: s' => x :: sub_from f1 fl text r repl s' end
    = match s with [] => [] | x :: s' => x :: sub_from f2 fl text r repl s' end).
  { destruct s as [|x s]; [reflexivity|]. f_equal. apply IH; simpl in *; lia. }
  destruct (match_at fl text r s) as [[e c]|] eqn:Hm; [|exact Hcopy].
  apply match_at_shrinks in Hm. f_equal.
  destruct (Nat.ltb_spec (length e) (length s)); [|exact Hcopy].
  apply IH; lia.
Qed.

(** *** [parse_resume_optimization_response] *)

(** C8. The score of [**Match Score:** 82%] is ["82%"], and a score without
    its percent sign is read by the second pattern and given the sign when
    the label is written without bold markers; but after the bold label the
    second pattern meets the closing markers where it wants whitespace or
    digits, and the score stays at its default. *)
Theorem match_score_fallback_misses_bold_label :
  match_score (parse_resume_optimization_response (txt "**Match Score:** 82%"))
  = txt "82%"
  /\ match_score (parse_resume_optimization_response (txt "Match Score: 82"))
     = txt "82%"
  /\ match_score (parse_resume_optimization_response (txt "**Match Score:** 82"))
     = NO_SCORE
  /\ search I_ score_fallback_re (txt "**Match Score:** 82") = None.
Proof. vm_compute. repeat split. Qed.

(** *** The patterns are the source's strings *)

Lemma patterns_compiled :
  Pattern.compile qa_src = Some qa_re
  /\ Pattern.compile percent_src = Some percent_re
  /\ Pattern.compile improvement_src = Some improvement_re
  /\ Pattern.compile overall_message_src = Some overall_message_re
  /\ Pattern.compile bold_src = Some bold_re
  /\ Pattern.compile score_src = Some score_re
  /\ Pattern.compile score_fallback_src = Some score_fallback_re
  /\ Pattern.compile summary_src = Some summary_re
  /\ Pattern.compile improvements_src = Some improvements_re
  /\ Pattern.compile optimized_resume_src = Some optimized_resume_re
  /\ Pattern.compile changes_analysis_src = Some changes_analysis_re
  /\ Pattern.compile bullet_src = Some bullet_re.
Proof. repeat split; vm_compute; reflexivity. Qed.

(** *** The parsers on texts in the expected format *)

Example parse_overall_results_sample :
  parse_overall_results sample_overall
  = {| hiring_percentage := txt "75%";
       areas_for_improvement := lines ["- Be concise"; "- Give examples"];
       overall_message := txt "Keep going!" |}.
Proof. vm_compute. reflexivity. Qed.

(** Bold markers are taken out of the summary, the improvements and the
    analysis; the optimized resume keeps its own. *)
Example parse_resume_optimization_response_sample :
  parse_resume_optimization_response sample_resume
  = {| match_score := txt "82%";
       summary_message := txt "A good fit.";
       original_improvements := [txt "Add metrics"; txt "Use keywords"];
       optimized_resume_text := lines ["**Jane Doe**"; "Engineer"];
       changes_analysis := txt "Added numbers." |}.
Proof. vm_compute. reflexivity. Qed.

(** The bullet pattern takes the first asterisk of a line that starts with a
    bold marker, and a marker is then left in the line; a bullet after
    indentation is kept; a bold text that runs over a line break is kept. *)
Example clean_line_corner_cases :
  clean_line (txt "**Keywords:** add more") = txt "*Keywords:** add more"
  /\ clean_line (txt "  - indented") = txt "- indented"
  /\ clean_asterisks (lines ["**a"; "b**"]) = lines ["**a"; "b**"].
Proof. vm_compute. repeat split. Qed.
(** ** Theorems: the session protocol *)

Lemma query_get_commit_eq {A : Type} (table : list A) (id : nat) (old row : A) :
  query_get table id = Some old ->
  query_get (commit_row table id row) id = Some row.
Proof.
  destruct id as [|i]; simpl; [discriminate|].
  intros H. apply list_lookup_insert_eq. eapply lookup_lt_Some; eauto.
Qed.

Lemma query_get_commit_ne {A : Type} (table : list A) (id id' : nat) (row : A) :
  id' <> id ->
  query_get (commit_row table id row) id' = query_get table id'.
Proof.
  destruct id as [|i], id' as [|i']; simpl; try reflexivity; try congruence.
  intros H. apply list_lookup_insert_ne. congruence.
Qed.

Lemma stored_commit_eq (w : World) (id : nat) (s : PracticeSession)
  (qs : list QuestionRecord) :
  query_get (practice_sessions (db w)) id = Some s ->
  stored (commit_questions w id s qs) id = qs.
Proof.
  intros H. unfold stored, commit_questions; simpl.
  by rewrite (query_get_commit_eq _ _ _ _ H).
Qed.

Lemma stored_commit_ne (w : World) (id id' : nat) (s : PracticeSession)
  (qs : list QuestionRecord) :
  id' <> id -> stored (commit_questions w id s qs) id' = stored w id'.
Proof.
  intros H. unfold stored, commit_questions; simpl.
  by rewrite query_get_commit_ne.
Qed.

Lemma SessionType_eqb_eq (a b : SessionType) :
  SessionType_eqb a b = true <-> a = b.
Proof. destruct a, b; simpl; split; congruence. Qed.

Lemma lookup_at_length {A : Type} (l : list A) : l !! length l = None.
Proof. apply lookup_ge_None. lia. Qed.

(** The guards that precede the index test pass for an active session. *)
Ltac enter_endpoint Hact :=
  let Hu := fresh "Hu" in
  let Hp := fresh "Hp" in
  let Hq := fresh "Hq" in
  let Ht := fresh "Ht" in
  destruct Hact as (Hu & Hp & Hq & Ht);
  cbn [pointer kind coach_endpoint practice_endpoint] in Hp, Ht;
  unfold login_required;
  destruct (user_id (session _)) eqn:?; [|congruence];
  rewrite Hp, Hq, Ht; cbn [negb SessionType_eqb].

Ltac at_end_of_list :=
  rewrite lookup_at_length, Nat.eqb_refl.

Ltac below_cap H :=
  rewrite (proj2 (Nat.leb_gt _ _) H).

Ltac at_cap H :=
  rewrite (proj2 (Nat.leb_le _ _) H).

Ltac beyond_list H :=
  rewrite (proj2 (lookup_ge_None _ _)) by lia;
  rewrite (proj2 (Nat.eqb_neq _ _)) by lia.

Ltac project := cbn [response world calls reply error_json on_failure fst snd].

Lemma coach_transitions (g : Prompt -> Completion) (w : World) (id i : nat)
  (s : PracticeSession) :
  active coach_endpoint w id s ->
  question_transitions_amended coach_endpoint g w id i s.
Proof.
  intros Hact. unfold question_transitions_amended, stored.
  pose proof Hact as (_ & _ & Hq0 & _). rewrite Hq0.
  cbn [handler cap history payload coach_endpoint].
  unfold get_question. enter_endpoint Hact.
  split; [|split; [|split]].
  - intros Hi. destruct (lookup_lt_is_Some_2 _ _ Hi) as [q Hq']. rewrite Hq'.
    exists q. by project.
  - intros -> Hlt. at_end_of_list. below_cap Hlt.
    destruct (g _) eqn:Hg; [destruct (parse_ai_response _) as [|q ?] eqn:Hparse|..];
      project; try (split; [reflexivity | split; [eexists; reflexivity | reflexivity]]).
    split; [reflexivity|].
    fold (stored (commit_questions w id s (questions_data s ++ [q])) id).
    rewrite (stored_commit_eq _ _ _ _ Hq0).
    repeat split; [rewrite length_app; simpl; lia|].
    intros id' Hne. fold (stored w id').
    fold (stored (commit_questions w id s (questions_data s ++ [q])) id').
    by apply stored_commit_ne.
  - intros -> Heq. at_end_of_list. at_cap (Nat.eq_le_incl _ _ (eq_sym Heq)).
    project. repeat split. eexists; reflexivity.
  - intros Hlt. beyond_list Hlt. project. repeat split. eexists; reflexivity.
Qed.

Lemma practice_transitions (g : Prompt -> Completion) (w : World) (id i : nat)
  (s : PracticeSession) :
  active practice_endpoint w id s ->
  question_transitions_amended practice_endpoint g w id i s.
Proof.
  intros Hact. unfold question_transitions_amended, stored.
  pose proof Hact as (_ & _ & Hq0 & _). rewrite Hq0.
  cbn [handler cap history payload practice_endpoint].
  unfold practice_interview_question. enter_endpoint Hact.
  split; [|split; [|split]].
  - intros Hi. destruct (lookup_lt_is_Some_2 _ _ Hi) as [q Hq']. rewrite Hq'.
    exists q. by project.
  - intros -> Hlt. at_end_of_list. below_cap Hlt.
    destruct (g _) eqn:Hg; [destruct (parse_ai_response _) as [|q ?] eqn:Hparse|..];
      project; try (split; [reflexivity | split; [eexists; reflexivity | reflexivity]]).
    split; [reflexivity|].
    fold (stored (commit_questions w id s (questions_data s ++ [q])) id).
    rewrite (stored_commit_eq _ _ _ _ Hq0).
    repeat split; [rewrite length_app; simpl; lia|].
    intros id' Hne. fold (stored w id').
    fold (stored (commit_questions w id s (questions_data s ++ [q])) id').
    by apply stored_commit_ne.
  - intros -> Heq. at_end_of_list. at_cap (Nat.eq_le_incl _ _ (eq_sym Heq)).
    project. repeat split. eexists; reflexivity.
  - intros Hlt. beyond_list Hlt. project. repeat split. eexists; reflexivity.
Qed.

(** C1 (as amended). For an active coach or practice session and a model
    client that is present: a request for an index below the stored length
    returns the stored record and changes nothing; a request for the index
    equal to the length, below the cap of 5, sends one prompt and, when the
    call returns a text in which a pair is found, stores exactly that one
    new record at the end, so that the length becomes the index plus one,
    while a failed call or a text without a pair is answered with an error
    and stores nothing; at the cap the request is rejected with status 400,
    and an index beyond the length is rejected with status 404, nothing
    stored. *)
Theorem question_endpoint_transitions (ep : Endpoint)
  (g : Prompt -> Completion) (w : World) (id i : nat) (s : PracticeSession) :
  ep = coach_endpoint \/ ep = practice_endpoint ->
  active ep w id s ->
  question_transitions_amended ep g w id i s.
Proof.
  intros [-> | ->] Hact.
  - by apply coach_transitions.
  - by apply practice_transitions.
Qed.

Lemma question_endpoint_transitions_witness :
  active coach_endpoint (world_with [unasked "Q0" "A0"] []) 1
    (session_row coach [unasked "Q0" "A0"])
  /\ question_transitions_amended coach_endpoint
       (fun _ => Text (txt "Question: Q1 Answer: A1"))
       (world_with [unasked "Q0" "A0"] []) 1 1
       (session_row coach [unasked "Q0" "A0"]).
Proof.
  assert (Hact : active coach_endpoint (world_with [unasked "Q0" "A0"] []) 1
                   (session_row coach [unasked "Q0" "A0"])).
  { repeat split; try reflexivity. discriminate. }
  split; [exact Hact|].
  apply (question_endpoint_transitions coach_endpoint _ _ 1 1 _
           (or_introl eq_refl) Hact).
Defined.

(** C1 as the specification words it does not hold: a request for the next
    index of an empty coach session whose model call times out stores no
    record, and with no model client even a stored record is not served. *)
Lemma question_endpoint_fails_without_model_answer :
  ~ question_transitions coach_endpoint timing_out (world_with [] []) 1 0
  /\ ~ question_transitions practice_endpoint None
         (world_with [] [unasked "Q0" "A0"]) 2 0.
Proof.
  split.
  - intros (_ & H & _).
    destruct H as (q & Hq & _); [reflexivity | vm_compute; lia |].
    vm_compute in Hq. discriminate.
  - intros (H & _).
    destruct H as (q & _ & Hr & _); [vm_compute; lia|].
    vm_compute in Hr. discriminate.
Qed.

(** What [practice_evaluate] does once its guards are passed. *)
Lemma practice_evaluate_accepts (g : Prompt -> Completion) (w : World)
  (data : EvaluateRequest) (id i : nat) (s : PracticeSession)
  (q : QuestionRecord) :
  active practice_endpoint w id s ->
  q_index data = Some (Z.of_nat i) ->
  i < MAX_PRACTICE_QUESTIONS ->
  questions_data s !! i = Some q ->
  strip (user_answer_field data) <> [] ->
  let prompt :=
    EvaluationPrompt (job_of s) (question q) (strip (user_answer_field data))
      (answer q) in
  practice_evaluate (Some g) w data =
  match g prompt with
  | Text text =>
      let updated :=
        <[i:=with_evaluation q (strip (user_answer_field data)) (strip text)]>
          (questions_data s) in
      {| response :=
           if Nat.eqb (length updated) MAX_PRACTICE_QUESTIONS
           then jsonify to_results 200
           else jsonify [("message", JStr (txt "Answer evaluated successfully."));
                         ("feedback", JStr (strip text))] 200;
         world := commit_questions w id s updated;
         calls := [prompt] |}
  | failure =>
      on_failure w prompt failure
        "AI evaluation timed out. Please try again."
        "AI Service Error during evaluation: "
        "An unexpected server error occurred during evaluation."
  end.
Proof.
  intros Hact Hidx Hi Hq Hua. unfold practice_evaluate. enter_endpoint Hact.
  rewrite Hidx.
  replace ((0 <=? Z.of_nat i)%Z && (Z.of_nat i <? Z.of_nat MAX_PRACTICE_QUESTIONS)%Z)
    with true by (symmetry; apply andb_true_iff; split; [apply Z.leb_le | apply Z.ltb_lt]; lia).
  cbn [negb]. rewrite Nat2Z.id.
  rewrite (proj2 (truthy_true _) Hua). cbn [negb]. rewrite Hq.
  rewrite (proj2 (Nat.ltb_lt _ _) (lookup_lt_Some _ _ _ Hq)).
  reflexivity.
Qed.

Lemma not_success_error (w : World) (message : string) (status : nat) :
  status <> 200 -> ~ is_success (error_json w message status).
Proof. intros H [body Hb]. unfold error_json, reply in Hb. simpl in Hb. congruence. Qed.

Lemma not_success_failure (w : World) (p : Prompt) (c : Completion)
  (a b d : string) :
  ~ is_success (on_failure w p c a b d).
Proof.
  intros [body Hb]. unfold on_failure in Hb.
  destruct c; cbn [response fst snd] in Hb; congruence.
Qed.

(** C4. [practice_evaluate] answers with status 200 only for an index
    [0 <= i < 5] whose record is stored in the active practice session and
    for an answer that is not empty after stripping; it then writes the
    stripped answer and the feedback into record [i], which keeps its
    question and ideal answer, and leaves the length of the list and every
    other record as they were.  An answer that is empty after stripping is
    never accepted and leaves the world unchanged; for an active session and
    an index in range it is answered with the validation error, status 400. *)
Theorem practice_evaluate_updates_in_place (model : Model) (w : World)
  (data : EvaluateRequest) :
  let out := practice_evaluate model w data in
  let given := strip (user_answer_field data) in
  (is_success out -> accepted_evaluation model w data)
  /\ (given = [] -> ~ is_success out /\ world out = w)
  /\ (given = [] ->
      forall id s z,
        active practice_endpoint w id s ->
        q_index data = Some z -> (0 <= z < 5)%Z ->
        response out
        = jsonify [("error", JStr (txt
            "Your answer cannot be empty. Please provide a response."))] 400).
Proof.
  cbv zeta. split; [|split].
  - intros Hs0. pose proof Hs0 as Hs.
    unfold practice_evaluate, login_required in Hs.
    destruct (user_id (session w)) as [u|] eqn:Hu;
      [|destruct Hs as [b Hb]; discriminate Hb].
    destruct (present (current_practice_session_id (session w))) as [id|] eqn:Hp;
      [|destruct Hs as [b Hb]; discriminate Hb].
    destruct (query_get (practice_sessions (db w)) id) as [s|] eqn:Hq;
      [|destruct Hs as [b Hb]; discriminate Hb].
    destruct (SessionType_eqb (session_type s) practice) eqn:Ht;
      cbn [negb] in Hs; [|destruct Hs as [b Hb]; discriminate Hb].
    apply SessionType_eqb_eq in Ht.
    destruct (q_index data) as [z|] eqn:Hz;
      [|by apply not_success_error in Hs].
    destruct ((0 <=? z)%Z && (z <? Z.of_nat MAX_PRACTICE_QUESTIONS)%Z) eqn:Hr;
      cbn [negb] in Hs; [|by apply not_success_error in Hs].
    apply andb_true_iff in Hr as [Hr1%Z.leb_le Hr2%Z.ltb_lt].
    destruct (truthy (strip (user_answer_field data))) eqn:Hua;
      cbn [negb] in Hs; [|by apply not_success_error in Hs].
    apply truthy_true in Hua.
    destruct (questions_data s !! Z.to_nat z) as [q|] eqn:Hl;
      [|by apply not_success_error in Hs].
    destruct model as [g|]; [|by apply not_success_error in Hs].
    assert (Hact : active practice_endpoint w id s).
    { repeat split; try assumption. congruence. }
    assert (Hzi : Some z = Some (Z.of_nat (Z.to_nat z))) by (f_equal; lia).
    assert (Hi : Z.to_nat z < MAX_PRACTICE_QUESTIONS) by (unfold MAX_PRACTICE_QUESTIONS in *; lia).
    rewrite <- Hz in Hzi.
    clear Hs.
    rewrite (practice_evaluate_accepts g w data id _ s q Hact Hzi Hi Hl Hua)
      in Hs0.
    destruct (g _) as [text| | |] eqn:Hg;
      try (by apply not_success_failure in Hs0).
    clear Hs0. unfold accepted_evaluation.
    rewrite (practice_evaluate_accepts g w data id _ s q Hact Hzi Hi Hl Hua).
    rewrite Hg. cbn [world].
    exists id, s, (Z.to_nat z), q, g, text.
    rewrite (stored_commit_eq _ _ _ _ Hq).
    unfold stored at 1 2. rewrite Hq.
    refine (conj Hact (conj Hzi (conj Hi (conj Hl (conj Hua (conj eq_refl
             (conj Hg (conj eq_refl (conj _ (conj _ (conj _ _))))))))))).
    + apply length_insert.
    + apply list_lookup_insert_eq. by eapply lookup_lt_Some.
    + intros j Hj. apply list_lookup_insert_ne. congruence.
    + intros id' Hne. by apply stored_commit_ne.
  - intros Hempty. unfold practice_evaluate, login_required.
    rewrite Hempty. cbn [truthy negb].
    destruct (user_id (session w)); [|split; [intros [b Hb]; discriminate Hb|reflexivity]].
    destruct (present _); [|split; [intros [b Hb]; discriminate Hb|reflexivity]].
    destruct (query_get _ _); [|split; [intros [b Hb]; discriminate Hb|reflexivity]].
    destruct (negb _); [split; [intros [b Hb]; discriminate Hb|reflexivity]|].
    destruct (q_index data); [|split; [by apply not_success_error|reflexivity]].
    destruct (negb _); split; try reflexivity; by apply not_success_error.
  - intros Hempty id s z Hact Hz Hr. unfold practice_evaluate.
    enter_endpoint Hact. rewrite Hz, Hempty.
    replace ((0 <=? z)%Z && (z <? Z.of_nat MAX_PRACTICE_QUESTIONS)%Z)
      with true by (symmetry; apply andb_true_iff; split;
                    [apply Z.leb_le | apply Z.ltb_lt]; unfold MAX_PRACTICE_QUESTIONS; lia).
    reflexivity.
Qed.

Lemma practice_evaluate_updates_in_place_witness :
  is_success (practice_evaluate (answering "Be specific.")
                (world_with [] [unasked "Q0" "A0"; unasked "Q1" "A1"])
                answer_to_first)
  /\ accepted_evaluation (answering "Be specific.")
       (world_with [] [unasked "Q0" "A0"; unasked "Q1" "A1"]) answer_to_first.
Proof.
  assert (Hs : is_success (practice_evaluate (answering "Be specific.")
                (world_with [] [unasked "Q0" "A0"; unasked "Q1" "A1"])
                answer_to_first)).
  { eexists. vm_compute. reflexivity. }
  split; [exact Hs|].
  exact (proj1 (practice_evaluate_updates_in_place _ _ _) Hs).
Defined.

(** On an accepted evaluation the redirect to the results page is sent
    exactly when the stored list has [MAX_PRACTICE_QUESTIONS] entries. *)
Lemma practice_evaluate_redirect_iff_full (g : Prompt -> Completion)
  (w : World) (data : EvaluateRequest) (id i : nat) (s : PracticeSession)
  (q : QuestionRecord) (text : str) :
  active practice_endpoint w id s ->
  q_index data = Some (Z.of_nat i) ->
  i < MAX_PRACTICE_QUESTIONS ->
  questions_data s !! i = Some q ->
  strip (user_answer_field data) <> [] ->
  g (EvaluationPrompt (job_of s) (question q) (strip (user_answer_field data))
       (answer q)) = Text text ->
  response (practice_evaluate (Some g) w data) = jsonify to_results 200
  <-> length (questions_data s) = MAX_PRACTICE_QUESTIONS.
Proof.
  intros Hact Hidx Hi Hq Hua Hg.
  rewrite (practice_evaluate_accepts g w data id i s q Hact Hidx Hi Hq Hua), Hg.
  cbn [response]. rewrite length_insert.
  destruct (Nat.eqb_spec (length (questions_data s)) MAX_PRACTICE_QUESTIONS);
    split; intros; try reflexivity; try assumption; try lia. discriminate.
Qed.

(** C2. The code sends the redirect to the results page on the length of the
    question list, not on the number of evaluated records: after a practice
    session is started and its five questions are requested, none being
    answered, the evaluation of index 0 is answered with the redirect
    although one record only is evaluated. *)
Theorem practice_evaluate_redirects_before_completion :
  let out :=
    practice_evaluate (answering "Be specific.") five_generated
      answer_to_first in
  length (stored five_generated 1) = MAX_PRACTICE_QUESTIONS
  /\ evaluated_count (stored five_generated 1) = 0
  /\ response out = jsonify to_results 200
  /\ evaluated_count (stored (world out) 1) = 1.
Proof. vm_compute. repeat split. Qed.

(** C3. After a practice session is started and its five questions are
    requested, none being answered, the results route neither renders nor
    turns back: the summary prompt reads [user_answer] from the first record
    and the [KeyError] escapes the handler; and with no model client the
    page is rendered from the unanswered records with no call to the
    model. *)
Theorem practice_results_on_unanswered_records :
  evaluated_count (stored five_generated 1) = 0
  /\ practice_results (answering "Hiring Percentage: 50%") five_generated
     = {| response := uncaught "KeyError";
          world := five_generated;
          calls := [] |}
  /\ (exists page,
        response (practice_results None five_generated)
        = render_template page
        /\ calls (practice_results None five_generated) = []).
Proof.
  split; [vm_compute; reflexivity|]. split; [vm_compute; reflexivity|].
  eexists. split; vm_compute; reflexivity.
Qed.

(** The results route as it is written: it turns back when fewer than five
    records are stored, and with five evaluated records it sends one summary
    prompt, renders the page, clears the pointer of the cookie and leaves
    the tables as they are. *)
Lemma practice_results_incomplete (model : Model) (w : World) (id : nat)
  (s : PracticeSession) :
  active practice_endpoint w id s ->
  length (questions_data s) < MAX_PRACTICE_QUESTIONS ->
  practice_results model w = reply w (redirect "practice_interview").
Proof.
  intros Hact Hlen. unfold practice_results. enter_endpoint Hact.
  rewrite (proj2 (Nat.ltb_lt _ _) Hlen). by rewrite orb_true_r.
Qed.

Lemma practice_results_complete (g : Prompt -> Completion) (w : World)
  (id : nat) (s : PracticeSession) (items : list (str * str * str * str)) :
  active practice_endpoint w id s ->
  MAX_PRACTICE_QUESTIONS <= length (questions_data s) ->
  prompt_items (questions_data s) = Some items ->
  let out := practice_results (Some g) w in
  (exists overall_feedback,
     response out
     = render_template
         (practice_results_html (questions_data s) overall_feedback (job_of s)))
  /\ calls out = [OverallFeedbackPrompt (job_of s) items]
  /\ current_practice_session_id (session (world out)) = None
  /\ db (world out) = db w.
Proof.
  intros Hact Hlen Hitems. cbv zeta. unfold practice_results.
  enter_endpoint Hact.
  rewrite (proj2 (Nat.ltb_ge _ _) Hlen), orb_false_r.
  destruct (questions_data s) as [|q qs] eqn:Hqs;
    [unfold MAX_PRACTICE_QUESTIONS in Hlen; simpl in Hlen; lia|].
  unfold generate_overall_practice_feedback. rewrite Hitems.
  repeat split. eexists. reflexivity.
Qed.

Lemma eqc_eq (x y : ascii) : eqc x y = true <-> x = y.
Proof.
  unfold eqc, code. rewrite N.eqb_eq. split; [|congruence].
  intros H. rewrite <- (ascii_N_embedding x), <- (ascii_N_embedding y).
  congruence.
Qed.

Lemma str_eqb_eq (a b : str) : str_eqb a b = true <-> a = b.
Proof.
  revert b. induction a as [|x a IH]; intros [|y b]; simpl; try (split; congruence).
  rewrite andb_true_iff, eqc_eq, IH. split; [intros [-> ->]; reflexivity|].
  intros H; by simplify_eq.
Qed.

Lemma parsing_failed_true (p : ResumeResults) :
  parsing_failed p = true
  <-> match_score p = NO_SCORE /\ original_improvements p = []
      /\ optimized_resume_text p = NO_OPTIMIZED.
Proof.
  unfold parsing_failed. rewrite !andb_true_iff, !str_eqb_eq.
  destruct (original_improvements p); intuition congruence.
Qed.

(** C9. When the model's text is parsed and the score, the list of
    improvements and the optimized resume are all three at their defaults,
    the request is answered with the error page and no row is added; when
    one of them at least was extracted, one row with the parsed fields is
    added to the results and the user is sent to the results page. *)
Theorem resume_optimizer_stores_unless_all_defaults
  (g : Prompt -> Completion) (w : World) (form : ResumeForm) (user : nat)
  (resume description text : str) :
  user_id (session w) = Some (S user) ->
  filled (resume_text form) = Some resume ->
  filled (job_description form) = Some description ->
  g (ResumePrompt description resume) = Text text ->
  let parsed := parse_resume_optimization_response (strip text) in
  let out := resume_optimizer (Some g) w form in
  let all_defaults :=
    match_score parsed = NO_SCORE /\ original_improvements parsed = []
    /\ optimized_resume_text parsed = NO_OPTIMIZED in
  (all_defaults ->
     (exists message, response out = render_template (error_html message))
     /\ world out = w)
  /\ (~ all_defaults ->
       response out = redirect "resume_optimizer_results"
       /\ resume_results (db (world out))
          = (resume_results (db w)
             ++ [{| row_user_id := S user;
                    row_match_score := match_score parsed;
                    row_summary_message := summary_message parsed;
                    row_original_improvements :=
                      join_lines (original_improvements parsed);
                    row_optimized_resume_text := optimized_resume_text parsed;
                    row_changes_analysis := changes_analysis parsed |}])%list
       /\ practice_sessions (db (world out)) = practice_sessions (db w)
       /\ session (world out) = session w).
Proof.
  intros Hu Hr Hd Hg. cbv zeta.
  unfold resume_optimizer, login_required. rewrite Hu. cbn [present].
  rewrite Hr, Hd, Hg.
  destruct (parsing_failed _) eqn:Hf.
  - apply parsing_failed_true in Hf. split; [|intros Hn; by destruct Hn].
    intros _. split; [eexists|]; reflexivity.
  - split; [intros Ha; apply parsing_failed_true in Ha; congruence|].
    intros _. repeat split.
Qed.

Lemma resume_optimizer_stores_unless_all_defaults_witness :
  response (resume_optimizer (answering "**Match Score:** 82%")
              (world_with [] []) resume_form)
  = redirect "resume_optimizer_results"
  /\ resume_results (db (world (resume_optimizer
                                 (answering "**Match Score:** 82%")
                                 (world_with [] []) resume_form)))
     = [{| row_user_id := 1;
           row_match_score := txt "82%";
           row_summary_message := NO_SUMMARY;
           row_original_improvements := [];
           row_optimized_resume_text := NO_OPTIMIZED;
           row_changes_analysis := NO_ANALYSIS |}].
Proof.
  pose proof (resume_optimizer_stores_unless_all_defaults
                (fun _ => Text (txt "**Match Score:** 82%"))
                (world_with [] []) resume_form 0
                (txt "Python developer") (txt "Backend role")
                (txt "**Match Score:** 82%")
                eq_refl eq_refl eq_refl eq_refl) as [_ H].
  destruct H as (Hresp & Hrows & _).
  { vm_compute. intros [H _]. discriminate H. }
  split; [exact Hresp|].
  etransitivity; [exact Hrows|]. vm_compute. reflexivity.
Defined.

Lemma lookup_snoc {A : Type} (l : list A) (x : A) :
  (l ++ [x])%list !! length l = Some x.
Proof. rewrite lookup_app_r by lia. by rewrite Nat.sub_diag. Qed.

Ltac refuse H :=
  cbn [response reply error_json on_failure fst snd] in H; discriminate H.

(** A question endpoint answers with status 200 only with the payload of the
    record that is stored at the requested index once the request is done. *)
Lemma question_endpoint_payload (ep : Endpoint) (model : Model) (w : World)
  (i : nat) (body : list (string * jvalue)) :
  ep = coach_endpoint \/ ep = practice_endpoint ->
  response (handler ep model w i) = jsonify body 200 ->
  exists id q,
    present (pointer ep (session w)) = Some id
    /\ stored (world (handler ep model w i)) id !! i = Some q
    /\ body = payload ep q i.
Proof.
  intros Hep H.
  assert (Hcases :
    exists id s g, active ep w id s /\ model = Some g).
  { destruct Hep as [-> | ->];
      cbn [handler coach_endpoint practice_endpoint] in H;
      [unfold get_question in H | unfold practice_interview_question in H];
      unfold login_required in H;
      (destruct (user_id (session w)) eqn:Hu; [|refuse H]);
      (destruct (present _) as [id|] eqn:Hp; [|refuse H]);
      (destruct (query_get _ _) as [s|] eqn:Hq; [|refuse H]);
      (destruct (SessionType_eqb _ _) eqn:Ht; cbn [negb] in H; [|refuse H]);
      (destruct model as [g|]; [|refuse H]);
      exists id, s, g; apply SessionType_eqb_eq in Ht;
      (split; [|reflexivity]); repeat split; try assumption; congruence. }
  destruct Hcases as (id & s & g & Hact & ->).
  assert (Htr : question_transitions_amended ep g w id i s)
    by (destruct Hep as [-> | ->];
        [by apply coach_transitions | by apply practice_transitions]).
  destruct Htr as (Hlt & Heq & Hcap & Hgt).
  pose proof Hact as (_ & Hp & Hq & _).
  assert (Hst0 : stored w id = questions_data s)
    by (unfold stored; by rewrite Hq).
  rewrite Hst0 in Hlt, Heq, Hcap, Hgt.
  exists id. 
  destruct (Nat.lt_total i (length (questions_data s))) as [Hi | [Hi | Hi]].
  - destruct (Hlt Hi) as (q & Hl & Hr & Hw & _).
    exists q. rewrite Hw, Hst0.
    rewrite Hr in H. by simplify_eq.
  - assert (Hc : cap ep = 5) by (by destruct Hep as [-> | ->]).
    destruct (Nat.lt_ge_cases (length (questions_data s)) (cap ep)) as [Hlen | Hlen].
    + destruct (Heq Hi Hlen) as (_ & Hgen).
      destruct (g _); try (destruct Hgen as [[msg Hr] _]; rewrite Hr in H; discriminate H).
      destruct (parse_ai_response _) as [|q ?];
        [destruct Hgen as [[msg Hr] _]; rewrite Hr in H; discriminate H|].
      destruct Hgen as (Hst & _ & Hr & _).
      exists q. rewrite Hst, Hi. rewrite Hr in H. split; [done|].
      split; [apply lookup_snoc | by simplify_eq].
    + (* at or beyond the cap the stored list is full or the request fails *)
      destruct (Nat.eq_dec (length (questions_data s)) (cap ep)) as [Hfull | Hne].
      * destruct (Hcap Hi Hfull) as ([msg Hr] & _). rewrite Hr in H. discriminate H.
      * exfalso. clear Hlt Heq Hcap Hgt.
        destruct Hep as [-> | ->];
          cbn [handler cap coach_endpoint practice_endpoint] in *;
          [unfold get_question in H | unfold practice_interview_question in H];
          revert H; enter_endpoint Hact; subst i; at_end_of_list;
          at_cap Hlen; intros H; refuse H.
  - destruct (Hgt Hi) as ([msg Hr] & _). rewrite Hr in H. discriminate H.
Qed.

(** C10. A status-200 answer of the practice question endpoint has exactly
    the fields [question], [index] and [total], in particular no field for
    the stored ideal answer, while a status-200 answer of the coach question
    endpoint carries the stored ideal answer in its field [answer]. *)
Theorem practice_question_hides_ideal_answer (model : Model) (w : World)
  (i : nat) (body : list (string * jvalue)) :
  (response (practice_interview_question model w i) = jsonify body 200 ->
     map fst body = ["question"; "index"; "total"]
     /\ ~ In "answer" (map fst body)
     /\ exists id q,
          present (current_practice_session_id (session w)) = Some id
          /\ stored (world (practice_interview_question model w i)) id !! i
             = Some q
          /\ body = [("question", JStr (question q)); ("index", JNum i);
                     ("total", JNum MAX_PRACTICE_QUESTIONS)])
  /\ (response (get_question model w i) = jsonify body 200 ->
        exists id q,
          present (current_coach_session_id (session w)) = Some id
          /\ stored (world (get_question model w i)) id !! i = Some q
          /\ body = [("question", JStr (question q));
                     ("answer", JStr (answer q)); ("index", JNum i);
                     ("total", JNum MAX_INITIAL_QUESTIONS)]).
Proof.
  split; intros H.
  - destruct (question_endpoint_payload practice_endpoint model w i body
                (or_intror eq_refl) H) as (id & q & Hp & Hl & ->).
    cbn [payload practice_endpoint map fst].
    split; [reflexivity|]. split; [|by exists id, q].
    cbn [In]. intros [Hf | [Hf | [Hf | []]]]; discriminate Hf.
  - destruct (question_endpoint_payload coach_endpoint model w i body
                (or_introl eq_refl) H) as (id & q & Hp & Hl & ->).
    by exists id, q.
Qed.

Lemma practice_question_hides_ideal_answer_witness :
  response (practice_interview_question (answering "unused")
              (world_with [unasked "Q0" "A0"] [unasked "P0" "I0"]) 0)
  = jsonify [("question", JStr (txt "P0")); ("index", JNum 0);
             ("total", JNum 5)] 200
  /\ ~ In "answer"
         (map fst [("question", JStr (txt "P0")); ("index", JNum 0);
                   ("total", JNum 5)])
  /\ response (get_question (answering "unused")
                 (world_with [unasked "Q0" "A0"] [unasked "P0" "I0"]) 0)
     = jsonify [("question", JStr (txt "Q0")); ("answer", JStr (txt "A0"));
                ("index", JNum 0); ("total", JNum 5)] 200.
Proof.
  split; [reflexivity|]. split; [|reflexivity].
  exact (proj1 (proj2 (proj1 (practice_question_hides_ideal_answer
           (answering "unused")
           (world_with [unasked "Q0" "A0"] [unasked "P0" "I0"]) 0
           [("question", JStr (txt "P0")); ("index", JNum 0); ("total", JNum 5)])
           eq_refl))).
Defined.

(** *** Every request changes the tables in one of the listed ways *)

Lemma get_question_change (model : Model) (w : World) (i : nat) :
  db_change (CoachQuestion i) (db w) (db (world (get_question model w i))).
Proof.
  unfold get_question, login_required.
  destruct (user_id (session w)); [|constructor].
  destruct (present _) as [id|]; [|constructor].
  destruct (query_get _ id) as [s|] eqn:Hq; [|constructor].
  destruct (negb _); [constructor|].
  destruct model as [g|]; [|constructor].
  destruct (questions_data s !! i); [constructor|].
  destruct (Nat.eqb_spec i (length (questions_data s))) as [Hi|]; [|constructor].
  destruct (Nat.leb_spec MAX_INITIAL_QUESTIONS (length (questions_data s)));
    [constructor|].
  destruct (g _); try (unfold on_failure; constructor).
  destruct (parse_ai_response _) as [|q ?]; [constructor|].
  cbn [world]. eapply (change_append _ _ id i s q); eauto.
  unfold MAX_INITIAL_QUESTIONS in *. lia.
Qed.

Lemma practice_interview_question_change (model : Model) (w : World)
  (i : nat) :
  db_change (PracticeQuestion i) (db w)
    (db (world (practice_interview_question model w i))).
Proof.
  unfold practice_interview_question, login_required.
  destruct (user_id (session w)); [|constructor].
  destruct (present _) as [id|]; [|constructor].
  destruct (query_get _ id) as [s|] eqn:Hq; [|constructor].
  destruct (negb _); [constructor|].
  destruct model as [g|]; [|constructor].
  destruct (questions_data s !! i); [constructor|].
  destruct (Nat.eqb_spec i (length (questions_data s))) as [Hi|]; [|constructor].
  destruct (Nat.leb_spec MAX_PRACTICE_QUESTIONS (length (questions_data s)));
    [constructor|].
  destruct (g _); try (unfold on_failure; constructor).
  destruct (parse_ai_response _) as [|q ?]; [constructor|].
  cbn [world]. eapply (change_append _ _ id i s q); eauto.
  unfold MAX_PRACTICE_QUESTIONS in *. lia.
Qed.

Lemma practice_evaluate_change (model : Model) (w : World)
  (data : EvaluateRequest) :
  db_change (Evaluate data) (db w)
    (db (world (practice_evaluate model w data))).
Proof.
  unfold practice_evaluate, login_required.
  destruct (user_id (session w)); [|constructor].
  destruct (present _) as [id|]; [|constructor].
  destruct (query_get _ id) as [s|] eqn:Hq; [|constructor].
  destruct (negb _); [constructor|].
  destruct (q_index data) as [z|]; [|constructor].
  destruct (negb _); [constructor|].
  destruct (negb _); [constructor|].
  destruct (questions_data s !! Z.to_nat z) as [q|] eqn:Hl; [|constructor].
  destruct model as [g|]; [|constructor].
  destruct (g _); try (unfold on_failure; constructor).
  cbn [world].
  rewrite (proj2 (Nat.ltb_lt _ _) (lookup_lt_Some _ _ _ Hl)).
  eapply (change_update _ _ id (Z.to_nat z) s q); eauto.
  by split.
Qed.

Lemma practice_results_change (model : Model) (w : World) :
  db_change Results (db w) (db (world (practice_results model w))).
Proof.
  unfold practice_results, login_required.
  repeat case_match; constructor.
Qed.

Lemma resume_optimizer_change (model : Model) (w : World) (form : ResumeForm) :
  db_change (OptimizeResume form) (db w)
    (db (world (resume_optimizer model w form))).
Proof.
  unfold resume_optimizer, login_required.
  repeat case_match; constructor.
Qed.

Lemma practice_interview_change (model : Model) (w : World) (form : SetupForm) :
  db_change (StartPractice form) (db w)
    (db (world (practice_interview model w form))).
Proof.
  unfold practice_interview, login_required.
  repeat case_match; constructor; simpl; lia.
Qed.

Lemma commit_row_last {A : Type} (table : list A) (old row : A) :
  commit_row (table ++ [old])%list (S (length table)) row
  = (table ++ [row])%list.
Proof.
  simpl. rewrite insert_app_r_alt by lia. by rewrite Nat.sub_diag.
Qed.

Lemma interview_coach_change (model : Model) (w : World) (form : SetupForm) :
  db_change (StartCoach form) (db w)
    (db (world (interview_coach model w form))).
Proof.
  unfold interview_coach, login_required.
  destruct (user_id (session w)); [|constructor].
  destruct (filled _); [|constructor].
  destruct model as [g|]; [|constructor].
  destruct (g _);
    try (cbn [world add_session db];
         apply (change_open _ _ {| questions_data := [] |}); simpl; lia).
  destruct (parse_ai_response _) as [|q ?];
    [cbn [world add_session db];
     apply (change_open _ _ {| questions_data := [] |}); simpl; lia|].
  cbn [world commit_questions add_session db practice_sessions resume_results].
  rewrite commit_row_last.
  apply (change_open _ (db w) (set_questions _ _)). simpl. lia.
Qed.

Lemma perform_change (model : Model) (op : Op) (w : World) :
  db_change op (db w) (db (world (perform model op w))).
Proof.
  destruct op; simpl.
  - apply interview_coach_change.
  - apply practice_interview_change.
  - apply get_question_change.
  - apply practice_interview_question_change.
  - apply practice_evaluate_change.
  - apply practice_results_change.
  - apply resume_optimizer_change.
Qed.

(** *** The cap and the growth of the question lists *)

Lemma change_within_cap (op : Op) (d d' : Database) :
  db_change op d d' ->
  Forall (fun s => length (questions_data s) <= 5) (practice_sessions d) ->
  Forall (fun s => length (questions_data s) <= 5) (practice_sessions d').
Proof.
  intros Hc Hd. destruct Hc as [|id i s q Hq Hi Hlt _|id i s q q' Hq _ _|row Hrow|row];
    cbn [practice_sessions with_sessions]; try assumption.
  - destruct id as [|n]; [discriminate Hq|]. cbn [commit_row].
    apply Forall_insert; [assumption|]. simpl. rewrite length_app. simpl. lia.
  - destruct id as [|n]; [discriminate Hq|]. cbn [commit_row query_get] in *.
    apply Forall_insert; [assumption|]. simpl. rewrite length_insert.
    by eapply (Forall_lookup_1 _ _ _ _ Hd).
  - apply Forall_app. split; [assumption|]. constructor; [lia|constructor].
Qed.

Lemma same_question_all (l : list QuestionRecord) :
  Forall2 same_question l l.
Proof. induction l; constructor; [by split | assumption]. Qed.

Lemma grows_refl (l : list QuestionRecord) : grows l l.
Proof.
  exists l, []. split; [by rewrite app_nil_r | apply same_question_all].
Qed.

Lemma grows_nil (l : list QuestionRecord) : grows [] l.
Proof. exists [], l. split; [reflexivity | constructor]. Qed.

Lemma stored_same (w w' : World) (id : nat) :
  query_get (practice_sessions (db w')) id
  = query_get (practice_sessions (db w)) id ->
  stored w' id = stored w id.
Proof. unfold stored. by intros ->. Qed.

Lemma list_step_same (op : Op) (w w' : World) (id : nat) :
  stored w' id = stored w id -> list_step op w w' id.
Proof.
  intros H. unfold list_step. rewrite H. split; [apply grows_refl|].
  intros _ Hne. by destruct Hne.
Qed.

Lemma change_list_step (op : Op) (w w' : World) (id : nat) :
  db_change op (db w) (db w') -> list_step op w w' id.
Proof.
  intros Hc. remember (db w) as d eqn:Hd. remember (db w') as d' eqn:Hd'.
  destruct Hc as [|id0 i s q Hq Hi Hlt Hop|id0 i s q q' Hq Hl Hsame|row Hrow|row].
  - apply list_step_same, stored_same. congruence.
  - destruct (Nat.eq_dec id id0) as [->|Hne].
    + assert (Hold : stored w id0 = questions_data s)
        by (unfold stored; by rewrite <- Hd, Hq).
      assert (Hnew : stored w' id0 = (questions_data s ++ [q])%list).
      { unfold stored. rewrite <- Hd'. cbn [practice_sessions with_sessions].
        by rewrite (query_get_commit_eq _ _ _ _ Hq). }
      unfold list_step. rewrite Hold, Hnew. split.
      * exists (questions_data s), [q].
        split; [reflexivity | apply same_question_all].
      * intros _ _. exists i. split; [assumption|]. split; [assumption|].
        subst i. rewrite drop_app_length. split; [reflexivity|].
        rewrite length_app. simpl. lia.
    + apply list_step_same, stored_same. rewrite <- Hd, <- Hd'.
      cbn [practice_sessions with_sessions]. by apply query_get_commit_ne.
  - destruct (Nat.eq_dec id id0) as [->|Hne].
    + assert (Hold : stored w id0 = questions_data s)
        by (unfold stored; by rewrite <- Hd, Hq).
      assert (Hnew : stored w' id0 = <[i:=q']> (questions_data s)).
      { unfold stored. rewrite <- Hd'. cbn [practice_sessions with_sessions].
        by rewrite (query_get_commit_eq _ _ _ _ Hq). }
      unfold list_step. rewrite Hold, Hnew. split.
      * exists (<[i:=q']> (questions_data s)), []. split; [by rewrite app_nil_r|].
        rewrite <- (list_insert_id _ _ _ Hl) at 1.
        apply Forall2_insert; [apply same_question_all | assumption].
      * intros _ Hne. rewrite length_insert in Hne. by destruct Hne.
    + apply list_step_same, stored_same. rewrite <- Hd, <- Hd'.
      cbn [practice_sessions with_sessions]. by apply query_get_commit_ne.
  - unfold list_step, stored. rewrite <- Hd, <- Hd'.
    cbn [practice_sessions with_sessions].
    destruct id as [|n]; cbn [query_get].
    + split; [apply grows_refl|]. intros Hn. by destruct Hn.
    + destruct (practice_sessions d !! n) as [s|] eqn:Hl.
      * rewrite (lookup_app_l_Some _ _ _ _ Hl).
        split; [apply grows_refl|]. intros _ Hne. by destruct Hne.
      * split; [apply grows_nil|]. intros Hn. by destruct Hn.
  - apply list_step_same, stored_same. rewrite <- Hd, <- Hd'. reflexivity.
Qed.

Lemma step_within_cap (st : Step) (w : World) :
  within_cap w -> within_cap (step st w).
Proof.
  unfold within_cap, step. intros H.
  eapply change_within_cap; [apply perform_change|].
  unfold arrive. by destruct (cookie st).
Qed.

Lemma run_within_cap (steps : list Step) (w : World) :
  within_cap w -> within_cap (run steps w).
Proof.
  revert w. induction steps as [|st steps IH]; intros w H; simpl; [assumption|].
  by apply IH, step_within_cap.
Qed.

(** C5. Along every history of requests that starts with empty tables, no
    stored question list is longer than 5.  And one request, whatever the
    world it meets, keeps every stored entry of every session in place with
    its question and ideal answer, so that a list only grows at its end; the
    length of a stored list changes only through a question request whose
    index equals the current length, and then by exactly one. *)
Theorem question_list_capped_and_append_only :
  (forall (steps : list Step) (c : FlaskSession),
      within_cap (run steps (empty_world c)))
  /\ (forall (model : Model) (op : Op) (w : World) (id : nat),
        list_step op w (world (perform model op w)) id).
Proof.
  split.
  - intros steps c. apply run_within_cap. constructor.
  - intros model op w id. apply change_list_step, perform_change.
Qed.

Lemma question_list_capped_and_append_only_witness :
  within_cap (run six_requests (empty_world logged_in))
  /\ length (stored (run six_requests (empty_world logged_in)) 1) = 5
  /\ list_step (PracticeQuestion 0) (world_with [] [])
       (world (perform (answering "Question: Why Rust? Answer: Memory safety.")
                 (PracticeQuestion 0) (world_with [] []))) 2.
Proof.
  split; [apply (proj1 question_list_capped_and_append_only)|].
  split; [vm_compute; reflexivity|].
  apply (proj2 question_list_capped_and_append_only).
Defined.


(** * Further properties of the code *)

(** ** Text *)

Lemma skip_twice (p : ascii -> bool) (s : str) : skip p (skip p s) = skip p s.
Proof.
  induction s as [|x s IH]; simpl; [reflexivity|].
  destruct (p x) eqn:Hx; [assumption|]. simpl. by rewrite Hx.
Qed.

Lemma rstrip_twice (s : str) : rstrip (rstrip s) = rstrip s.
Proof.
  unfold rstrip, lstrip. by rewrite rev_involutive, skip_twice.
Qed.

(** What is left of a text without trailing whitespace, once the leading
    whitespace is taken off, has no trailing whitespace either. *)
Lemma rstrip_skip (s : str) :
  rstrip s = s -> rstrip (lstrip s) = lstrip s.
Proof.
  induction s as [|x s IH]; [reflexivity|].
  intros H. unfold lstrip. simpl. destruct (isspace x) eqn:Hx; [|exact H].
  apply IH. rewrite rstrip_cons in H.
  destruct (rstrip s) as [|y t] eqn:Hr.
  - rewrite Hx in H. discriminate H.
  - by injection H.
Qed.

Lemma strip_twice (s : str) : strip (strip s) = strip s.
Proof.
  unfold strip. rewrite (rstrip_skip (rstrip s)) by apply rstrip_twice.
  apply skip_twice.
Qed.


Lemma skip_keeps (p : ascii -> bool) (s : str) :
  match s with [] => True | x :: _ => p x = false end -> skip p s = s.
Proof. destruct s as [|x s]; simpl; [done|]. by intros ->. Qed.

(** A text without whitespace at either end is its own [strip]. *)
Lemma strip_no_space (s : str) :
  forallb (fun x => negb (isspace x)) s = true -> strip s = s.
Proof.
  intros H. unfold strip.
  assert (Hr : rstrip s = s).
  { unfold rstrip, lstrip. rewrite skip_keeps; [apply rev_involutive|].
    destruct (rev s) as [|x t] eqn:Hrev; [done|].
    assert (Hin : In x s) by (apply in_rev; rewrite Hrev; by left).
    rewrite forallb_forall in H. apply H in Hin.
    by destruct (isspace x). }
  rewrite Hr. apply skip_keeps. destruct s as [|x s]; [done|].
  simpl in H. apply andb_true_iff in H as [H _]. by destruct (isspace x).
Qed.

Lemma digit_not_space (x : ascii) : isdigit x = true -> isspace x = false.
Proof. by_cases_on_char x. Qed.

Lemma is_percentage_stripped (g : str) : is_percentage g -> strip g = g.
Proof.
  intros (d & -> & _ & Hd). apply strip_no_space.
  rewrite forallb_app. apply andb_true_iff. split; [|reflexivity].
  rewrite forallb_forall in Hd |- *. intros x Hx.
  by rewrite (digit_not_space x (Hd x Hx)).
Qed.

(** ** The matcher: what a bounded repetition consumes *)

Lemma rep_greedy_consumed {R : Type} (p : ascii -> bool) (lo hi : nat)
  (s : str) (k : str -> option R) (r : R) :
  rep_greedy p lo hi s k = Some r ->
  exists n,
    lo <= n <= hi /\ n <= length s /\ forallb p (take n s) = true
    /\ k (drop n s) = Some r.
Proof.
  revert lo s. induction hi as [|hi IH]; intros lo s; simpl.
  - destruct (Nat.eqb_spec lo 0) as [->|]; [|discriminate].
    intros H. exists 0. repeat split; try lia; assumption.
  - assert (Hstop : (if Nat.eqb lo 0 then k s else None) = Some r ->
                    exists n, lo <= n <= S hi /\ n <= length s
                              /\ forallb p (take n s) = true
                              /\ k (drop n s) = Some r).
    { destruct (Nat.eqb_spec lo 0) as [->|]; [|discriminate].
      intros H. exists 0. repeat split; try lia; assumption. }
    destruct s as [|x s]; [exact Hstop|].
    destruct (p x) eqn:Hx; [|exact Hstop].
    destruct (rep_greedy p (Nat.pred lo) hi s k) eqn:Hr; [|exact Hstop].
    intros H. simplify_eq.
    destruct (IH _ _ Hr) as (n & Hn & Hlen & Hall & Hk).
    exists (S n). simpl. rewrite Hx, Hall. repeat split; try lia; assumption.
Qed.

Lemma search_from_match (fl : flags) (text : str) (r : regex) (s b e : str)
  (c : caps) :
  search_from fl text r s = Some (b, e, c) ->
  match_at fl text r b = Some (e, c) /\ exists n, b = drop n s.
Proof.
  induction s as [|x s IH]; simpl.
  - destruct (match_at fl text r []) as [[e' c']|] eqn:Hm; [|discriminate].
    intros H. simplify_eq. split; [assumption | by exists 0].
  - destruct (match_at fl text r (x :: s)) as [[e' c']|] eqn:Hm.
    + intros H. simplify_eq. split; [assumption | by exists 0].
    + intros H. destruct (IH H) as [Hb [n ->]]. split; [assumption|].
      by exists (S n).
Qed.

Lemma found_match (fl : flags) (r : regex) (n : nat) (text g : str) :
  found n (search fl r text) = Some g ->
  exists t e c, match_at fl text r t = Some (e, c) /\ g = group_or_empty n c.
Proof.
  unfold found, search.
  destruct (search_from fl text r text) as [[[b e] c]|] eqn:Hs; [|discriminate].
  intros H. simplify_eq. apply search_from_match in Hs as [Hm _].
  by exists b, e, c.
Qed.

Lemma percent_sign_only (x : ascii) (s s' : str) :
  strip_prefix I_ (txt "%") (x :: s) = Some s' -> x = "%"%char /\ s' = s.
Proof.
  unfold strip_prefix, lit_eq. cbn. fold (eqc_ci "%"%char x).
  rewrite percent_sign_ci. destruct (eqc "%"%char x) eqn:Hx; [|discriminate].
  apply eqc_true in Hx as <-. intros H. by simplify_eq.
Qed.

(** ** [parse_resume_optimization_response]: the score *)

Lemma score_group (text t e : str) (c : caps) :
  match_at I_ text score_re t = Some (e, c) ->
  is_percentage (group_or_empty 1 c).
Proof.
  unfold match_at, score_re. rewrite m_Str_Seq.
  destruct (strip_prefix I_ (txt "**Match Score:**") t) as [s1|];
    [|discriminate].
  rewrite m_Star_Seq. intros H. apply star_greedy_sound in H as [n0 H].
  cbn [m] in H. apply rep_greedy_consumed in H as (n & Hn & Hlen & Hd & H).
  set (s := drop n0 s1) in *.
  destruct (drop n s) as [|x s'] eqn:Hdrop; [discriminate H|].
  destruct (strip_prefix I_ (txt "%") (x :: s')) as [s''|] eqn:Hp;
    [|discriminate H].
  apply percent_sign_only in Hp as [-> ->]. unfold accept in H.
  injection H as _ <-. cbn.
  exists (take n s). split; [|split; [rewrite length_take; lia | exact Hd]].
  rewrite <- (take_drop n s) at 1 2. rewrite Hdrop.
  rewrite length_app. cbn [length].
  replace (length (take n s) + S (length s') - length s')
    with (length (take n s ++ ["%"%char])) by (rewrite length_app; simpl; lia).
  change (take n s ++ "%"%char :: s') with (take n s ++ ["%"%char] ++ s').
  rewrite app_assoc. by rewrite take_app_length.
Qed.

Lemma score_fallback_group (text t e : str) (c : caps) :
  match_at I_ text score_fallback_re t = Some (e, c) ->
  is_percentage (strip (group_or_empty 1 c) ++ txt "%").
Proof.
  unfold match_at, score_fallback_re. rewrite m_Str_Seq.
  destruct (strip_prefix I_ (txt "Match Score:") t) as [s1|]; [|discriminate].
  rewrite m_Star_Seq. intros H. apply star_greedy_sound in H as [n0 H].
  cbn [m] in H. apply rep_greedy_consumed in H as (n & Hn & Hlen & Hd & H).
  set (s := drop n0 s1) in *. unfold accept in H. injection H as _ <-. cbn.
  rewrite length_drop.
  replace (length s - (length s - n)) with n by lia.
  exists (take n s). rewrite length_take.
  split; [|split; [lia | exact Hd]].
  f_equal. apply strip_no_space.
  rewrite forallb_forall in Hd |- *. intros x Hx.
  by rewrite (digit_not_space x (Hd x Hx)).
Qed.

(** X1. The score that [parse_resume_optimization_response] returns is its
    default ["N/A"] or one to three digits followed by the percent sign,
    whatever the text. *)
Theorem match_score_format (text : str) :
  match_score (parse_resume_optimization_response text) = NO_SCORE
  \/ is_percentage (match_score (parse_resume_optimization_response text)).
Proof.
  unfold parse_resume_optimization_response. cbn [match_score].
  destruct (found 1 (search I_ score_re text)) as [g|] eqn:Hs.
  - right. apply found_match in Hs as (t & e & c & Hm & ->).
    apply score_group in Hm. by rewrite is_percentage_stripped.
  - destruct (found 1 (search I_ score_fallback_re text)) as [g|] eqn:Hf;
      [|by left].
    right. apply found_match in Hf as (t & e & c & Hm & ->).
    by apply score_fallback_group in Hm.
Qed.

Lemma first_at_value {A : Type} (f : str -> option A) (s pre : str) (a : A) :
  first_at f s = Some (pre, a) -> exists n, f (drop n s) = Some a.
Proof.
  revert pre. induction s as [|x s IH]; intros pre; simpl.
  - destruct (f []) eqn:Hf; [|discriminate]. intros H. exists 0. by simplify_eq.
  - destruct (f (x :: s)) eqn:Hf.
    + intros H. exists 0. by simplify_eq.
    + destruct (first_at f s) as [[pre' a']|] eqn:Hs; [|discriminate].
      intros H. simplify_eq. destruct (IH _ eq_refl) as [n Hn]. by exists (S n).
Qed.

(** ** [parse_overall_results]: the percentage *)

(** X2. The hiring percentage that [parse_overall_results] returns is its
    default ["N/A"] or one to three digits followed by the percent sign. *)
Theorem hiring_percentage_format (text : str) :
  hiring_percentage (parse_overall_results text) = txt "N/A"
  \/ is_percentage (hiring_percentage (parse_overall_results text)).
Proof.
  rewrite parse_overall_results_eq. cbn [hiring_percentage Described.overall_results_of].
  unfold Described.hiring_percentage_of.
  destruct (first_at Described.percentage_here text) as [[pre d]|] eqn:Hf;
    [|by left].
  right. apply first_at_value in Hf as [n Hn].
  unfold Described.percentage_here in Hn.
  destruct (Described.after_label "Hiring Percentage:" (drop n text))
    as [rest|]; [|discriminate].
  destruct (1 <=? length (run_of isdigit (lstrip rest)))%nat eqn:H1;
    [|discriminate].
  destruct (length (run_of isdigit (lstrip rest)) <=? 3)%nat eqn:H3;
    [|discriminate].
  cbn [andb] in Hn.
  destruct (starts_with (txt "%") _); [|discriminate]. simplify_eq.
  exists (run_of isdigit (lstrip rest)). split; [reflexivity|].
  apply Nat.leb_le in H1, H3. split; [lia|].
  by destruct (skip_split isdigit (lstrip rest)).
Qed.

(** ** [clean_asterisks] *)

Lemma sub_from_no_match (fuel : nat) (fl : flags) (text : str) (r : regex)
  (repl : caps -> str) (s : str) :
  (forall n, match_at fl text r (drop n s) = None) ->
  sub_from fuel fl text r repl s = s.
Proof.
  revert s. induction fuel as [|fuel IH]; intros s H; [reflexivity|].
  cbn [sub_from]. pose proof (H 0) as H0. rewrite drop_0 in H0. rewrite H0.
  destruct s as [|x s]; [reflexivity|]. f_equal. apply IH.
  intros n. apply (H (S n)).
Qed.

Lemma bold_needs_markers (text t : str) :
  after_prefix eqc (txt "**") t = None ->
  match_at NOFLAG text bold_re t = None.
Proof.
  intros H. unfold match_at, bold_re. rewrite m_Str_Seq.
  change (strip_prefix NOFLAG (txt "**") t)
    with (after_prefix eqc (txt "**") t).
  by rewrite H.
Qed.

(** X3. A text in which no two asterisks follow each other comes out of
    [clean_asterisks] with nothing taken from it but the whitespace at its
    ends. *)
Theorem clean_asterisks_without_markers (text : str) :
  contains (txt "**") text = false -> clean_asterisks text = strip text.
Proof.
  intros H. unfold clean_asterisks, sub. f_equal.
  apply sub_from_no_match. intros n. apply bold_needs_markers.
  by apply contains_false.
Qed.

Lemma clean_asterisks_without_markers_witness :
  contains (txt "**") (txt " 5 * 3 = 15 ") = false
  /\ clean_asterisks (txt " 5 * 3 = 15 ") = txt "5 * 3 = 15".
Proof.
  split; [reflexivity|].
  exact (clean_asterisks_without_markers (txt " 5 * 3 = 15 ") eq_refl).
Defined.

(** ** A section that is not announced is not extracted *)

Lemma contains_ci_none (l s : str) :
  (forall n, after_prefix eqc_ci l (drop n s) = None) ->
  contains_ci l s = false.
Proof.
  induction s as [|x s IH]; intros H.
  - pose proof (H 0) as H0. simpl in H0 |- *. by rewrite H0.
  - pose proof (H 0) as H0. rewrite drop_0 in H0.
    cbn [contains_ci]. rewrite H0. cbn [orb]. apply IH.
    intros n. apply (H (S n)).
Qed.

Lemma contains_ci_drop (l s : str) (n : nat) :
  contains_ci l s = false -> contains_ci l (drop n s) = false.
Proof.
  intros H. apply contains_ci_none. intros m. rewrite drop_drop.
  by apply contains_ci_false.
Qed.

Lemma after_prefix_more (eq : ascii -> ascii -> bool) (l a w r : str) :
  after_prefix eq l a = Some r -> after_prefix eq l (a ++ w) = Some (r ++ w).
Proof.
  revert a. induction l as [|c l IH]; intros a; simpl.
  - intros H. by simplify_eq.
  - destruct a as [|x a]; [discriminate|]. simpl.
    destruct (eq c x); [apply IH | discriminate].
Qed.

Lemma contains_ci_prefix (l a w : str) :
  contains_ci l (a ++ w) = false -> contains_ci l a = false.
Proof.
  intros H. apply contains_ci_none. intros n.
  destruct (after_prefix eqc_ci l (drop n a)) as [r|] eqn:Hr; [|reflexivity].
  exfalso. apply (after_prefix_more _ _ _ w) in Hr.
  destruct (Nat.le_gt_cases n (length a)) as [Hn|Hn].
  - pose proof (contains_ci_false _ _ H n) as Hnone.
    rewrite drop_app_le in Hnone by assumption. congruence.
  - rewrite drop_ge in Hr by lia. simpl in Hr.
    pose proof (contains_ci_false _ _ H (length a)) as Hnone.
    rewrite drop_app_length in Hnone. congruence.
Qed.

Lemma rstrip_prefix (s : str) : exists w, s = rstrip s ++ w.
Proof.
  unfold rstrip, lstrip. destruct (skip_split isspace (rev s)) as [Hs _].
  exists (rev (run_of isspace (rev s))).
  rewrite <- rev_app_distr, <- Hs. by rewrite rev_involutive.
Qed.

Lemma contains_ci_strip (l s : str) :
  contains_ci l s = false -> contains_ci l (strip s) = false.
Proof.
  intros H. unfold strip, lstrip.
  destruct (skip_is_drop isspace (rstrip s)) as [n ->].
  apply contains_ci_drop. destruct (rstrip_prefix s) as [w Hw].
  rewrite Hw in H. by apply contains_ci_prefix in H.
Qed.

Lemma contains_ci_longer (a l s : str) :
  contains_ci l s = false -> contains_ci (a ++ l) s = false.
Proof.
  intros H. apply contains_ci_none. intros n. rewrite after_prefix_app.
  destruct (after_prefix eqc_ci a (drop n s)) as [s1|] eqn:Ha; [|reflexivity].
  rewrite (drop_of_after_prefix _ _ _ _ Ha), drop_drop.
  by apply contains_ci_false.
Qed.

Lemma contains_ci_extended (l b s : str) :
  contains_ci l s = false -> contains_ci (l ++ b) s = false.
Proof.
  intros H. apply contains_ci_none. intros n. rewrite after_prefix_app.
  by rewrite (contains_ci_false _ _ H).
Qed.

Lemma search_needs_label (fl : flags) (l : str) (r : regex) (text : str) :
  IGNORECASE fl = true ->
  contains_ci l text = false ->
  search fl (Str l >> r) text = None.
Proof.
  intros Hfl H. unfold search. rewrite search_from_first_at.
  rewrite first_at_fail_everywhere; [reflexivity|]. intros n.
  unfold match_at. rewrite m_Str_Seq. unfold strip_prefix.
  rewrite (after_prefix_ext (lit_eq fl) eqc_ci)
    by (intros; unfold lit_eq; by rewrite Hfl).
  by rewrite (contains_ci_false _ _ H).
Qed.

(** X4. [parse_resume_optimization_response] leaves a field at its default
    when the label of its section does not occur in the text, in any case
    of letters: the score without [Match Score:], the other four without
    their bold labels. *)
Theorem resume_fields_default_without_labels (text : str) :
  (contains_ci (txt "Match Score:") text = false ->
   match_score (parse_resume_optimization_response text) = NO_SCORE)
  /\ (contains_ci (txt "**Summary Message:**") text = false ->
      summary_message (parse_resume_optimization_response text) = NO_SUMMARY)
  /\ (contains_ci L_IMPROVEMENTS text = false ->
      original_improvements (parse_resume_optimization_response text) = [])
  /\ (contains_ci L_OPTIMIZED text = false ->
      optimized_resume_text (parse_resume_optimization_response text)
      = NO_OPTIMIZED)
  /\ (contains_ci L_CHANGES text = false ->
      changes_analysis (parse_resume_optimization_response text)
      = NO_ANALYSIS).
Proof.
  unfold parse_resume_optimization_response.
  cbn [match_score summary_message original_improvements
       optimized_resume_text changes_analysis].
  repeat split; intros H.
  - assert (Hbold : contains_ci (txt "**Match Score:**") text = false).
    { apply (contains_ci_longer (txt "**") (txt "Match Score:**")).
      by apply (contains_ci_extended (txt "Match Score:") (txt "**")). }
    unfold score_re, score_fallback_re.
    by rewrite (search_needs_label I_ (txt "**Match Score:**")),
      (search_needs_label I_ (txt "Match Score:")).
  - unfold summary_re. by rewrite search_needs_label.
  - unfold improvements_re. by rewrite search_needs_label.
  - unfold optimized_resume_re. by rewrite search_needs_label.
  - unfold changes_analysis_re. by rewrite search_needs_label.
Qed.

Lemma resume_fields_default_without_labels_witness :
  parse_resume_optimization_response (txt "I cannot help with that.")
  = {| match_score := NO_SCORE;
       summary_message := NO_SUMMARY;
       original_improvements := [];
       optimized_resume_text := NO_OPTIMIZED;
       changes_analysis := NO_ANALYSIS |}.
Proof.
  destruct (resume_fields_default_without_labels
              (txt "I cannot help with that.")) as (H1 & H2 & H3 & H4 & H5).
  specialize (H1 eq_refl). specialize (H2 eq_refl). specialize (H3 eq_refl).
  specialize (H4 eq_refl). specialize (H5 eq_refl).
  destruct (parse_resume_optimization_response (txt "I cannot help with that.")).
  cbn in H1, H2, H3, H4, H5. by subst.
Defined.

(** ** Substitution adds no character *)

Section Kept.

Variable Q : ascii -> Prop.

Lemma Forall_skip (p : ascii -> bool) (s : str) :
  Forall Q s -> Forall Q (skip p s).
Proof. destruct (skip_is_drop p s) as [n ->]. apply Forall_drop. Qed.

Lemma Forall_strip (s : str) : Forall Q s -> Forall Q (strip s).
Proof.
  intros H. unfold strip, lstrip. apply Forall_skip.
  destruct (rstrip_prefix s) as [w Hw]. rewrite Hw in H.
  by apply Forall_app in H as [H _].
Qed.

Lemma group_in (n : nat) (c : caps) :
  caps_in Q c -> Forall Q (group_or_empty n c).
Proof.
  unfold group_or_empty. induction c as [|[i v] c IH]; intros H; simpl.
  - constructor.
  - apply Forall_cons in H as [Hv Hc]. destruct (Nat.eqb i n); [exact Hv|].
    by apply IH.
Qed.

(** What follows a pattern is entered on a suffix of the text, with groups
    that are pieces of the text. *)
Lemma m_keeps (fl : flags) (text : str) (r : regex) (s : str) (c : caps)
  (k : str -> caps -> option result) (res : result) :
  Forall Q s -> caps_in Q c ->
  m fl text r s c k = Some res ->
  exists s' c',
    Forall Q s' /\ caps_in Q c' /\ length s' <= length s
    /\ k s' c' = Some res.
Proof.
  revert s c k res.
  induction r as [l|cl|r1 IH1 r2 IH2|r1 IH1 r2 IH2|cl|cl|cl lo hi|n r1 IH1
                 |r1 IH1| |];
    intros s c k res Hs Hc; cbn [m].
  - destruct (strip_prefix fl l s) as [s'|] eqn:Hp; [|discriminate].
    intros H. exists s', c. pose proof (after_prefix_length _ _ _ _ Hp).
    rewrite (drop_of_after_prefix _ _ _ _ Hp).
    rewrite (drop_of_after_prefix _ _ _ _ Hp) in H, H0.
    repeat split; try assumption; [by apply Forall_drop | lia].
  - destruct s as [|x s]; [discriminate|].
    destruct (in_class fl cl x); [|discriminate].
    intros H. exists s, c. apply Forall_cons in Hs as [_ Hs].
    repeat split; try assumption. simpl. lia.
  - intros H. destruct (IH1 _ _ _ _ Hs Hc H) as (s1 & c1 & Hs1 & Hc1 & Hl1 & H1).
    destruct (IH2 _ _ _ _ Hs1 Hc1 H1) as (s2 & c2 & Hs2 & Hc2 & Hl2 & H2).
    exists s2, c2. repeat split; try assumption. lia.
  - destruct (m fl text r1 s c k) eqn:H1.
    + intros H. simplify_eq. by apply IH1 in H1.
    + by apply IH2.
  - intros H. apply star_greedy_sound in H as [n H].
    exists (drop n s), c.
    repeat split; try assumption; [by apply Forall_drop|].
    rewrite length_drop. lia.
  - intros H. apply star_lazy_sound in H as [n H].
    exists (drop n s), c.
    repeat split; try assumption; [by apply Forall_drop|].
    rewrite length_drop. lia.
  - intros H. apply rep_greedy_sound in H as [n H].
    exists (drop n s), c.
    repeat split; try assumption; [by apply Forall_drop|].
    rewrite length_drop. lia.
  - intros H. destruct (IH1 _ _ _ _ Hs Hc H) as (s1 & c1 & Hs1 & Hc1 & Hl1 & H1).
    exists s1, ((n, take (length s - length s1) s) :: c1).
    repeat split; try assumption.
    apply Forall_cons. split; [by apply Forall_take | assumption].
  - destruct (m fl text r1 s c (fun s' c' => Some (s', c'))) as [[e c']|] eqn:H1;
      [|discriminate].
    intros H. destruct (IH1 _ _ _ _ Hs Hc H1) as (s1 & c1 & _ & Hc1 & _ & H2).
    simplify_eq. by exists s, c'.
  - destruct (Nat.eqb (length s) (length text)); [|discriminate].
    intros H. by exists s, c.
  - destruct (at_end s); [|discriminate]. intros H. by exists s, c.
Qed.

Lemma match_at_keeps (fl : flags) (text : str) (r : regex) (s e : str)
  (c : caps) :
  Forall Q s -> match_at fl text r s = Some (e, c) ->
  Forall Q e /\ caps_in Q c /\ length e <= length s.
Proof.
  intros Hs H. apply m_keeps in H as (s' & c' & Hs' & Hc' & Hl & H);
    [|assumption|constructor].
  unfold accept in H. by simplify_eq.
Qed.

(** [re.sub] with a template made of groups: every character of the result
    is a character of the text. *)
Lemma sub_from_keeps (fuel : nat) (fl : flags) (text : str) (r : regex)
  (repl : caps -> str) (s : str) :
  (forall c, caps_in Q c -> Forall Q (repl c)) ->
  Forall Q s -> Forall Q (sub_from fuel fl text r repl s).
Proof.
  intros Hrepl. revert s. induction fuel as [|fuel IH]; intros s Hs;
    [assumption|].
  cbn [sub_from].
  assert (Hcopy : Forall Q match s with
                           | [] => []
                           | x :: s' => x :: sub_from fuel fl text r repl s'
                           end).
  { destruct s as [|x s]; [constructor|].
    apply Forall_cons in Hs as [Hx Hs]. apply Forall_cons.
    split; [assumption | by apply IH]. }
  destruct (match_at fl text r s) as [[e c]|] eqn:Hm; [|exact Hcopy].
  destruct (match_at_keeps _ _ _ _ _ _ Hs Hm) as (He & Hc & _).
  apply Forall_app. split; [by apply Hrepl|].
  destruct (length e <? length s)%nat; [by apply IH | exact Hcopy].
Qed.

Lemma clean_line_keeps (line : str) :
  Forall Q line -> Forall Q (clean_line line).
Proof.
  intros H. unfold clean_line, clean_asterisks, sub.
  apply Forall_strip, sub_from_keeps; [intros c Hc; by apply group_in|].
  apply Forall_strip, sub_from_keeps; [intros; constructor | assumption].
Qed.

End Kept.

Lemma split_lines_no_newline (s : str) : Forall no_newline (split_lines s).
Proof.
  induction s as [|c s IH]; simpl.
  - repeat constructor.
  - destruct (eqc c nl) eqn:Hc.
    + constructor; [constructor | assumption].
    + destruct (split_lines s) as [|l ls]; [repeat constructor|].
      * intros ->. by rewrite eqc_refl in Hc.
      * apply Forall_cons in IH as [Hl Hls]. constructor; [|assumption].
        constructor; [|assumption]. intros ->. by rewrite eqc_refl in Hc.
Qed.

(** X5. Every improvement that [parse_resume_optimization_response] returns
    is one line, with no line break in it and no whitespace at its ends. *)
Theorem improvements_are_stripped_lines (text item : str) :
  In item (original_improvements (parse_resume_optimization_response text)) ->
  no_newline item /\ strip item = item.
Proof.
  unfold parse_resume_optimization_response. cbn [original_improvements].
  destruct (found 1 (search IS_ improvements_re text)) as [g|];
    [|intros []].
  rewrite in_map_iff. intros (line & <- & Hin).
  apply list_elem_of_In, list_elem_of_filter in Hin as [_ Hin].
  split.
  - apply clean_line_keeps.
    pose proof (split_lines_no_newline (strip g)) as Hall.
    rewrite Forall_forall in Hall. by apply Hall.
  - unfold clean_line, clean_asterisks. apply strip_twice.
Qed.

Lemma improvements_are_stripped_lines_witness :
  In (txt "Add metrics")
    (original_improvements (parse_resume_optimization_response sample_resume))
  /\ no_newline (txt "Add metrics")
  /\ strip (txt "Add metrics") = txt "Add metrics".
Proof.
  assert (H : In (txt "Add metrics")
                (original_improvements
                   (parse_resume_optimization_response sample_resume)))
    by (vm_compute; by left).
  split; [exact H|].
  exact (improvements_are_stripped_lines sample_resume (txt "Add metrics") H).
Defined.

(** ** The tables along a history of requests *)

Lemma same_row_refl (s : PracticeSession) : same_row s s.
Proof. by repeat split. Qed.

Lemma change_keeps_rows (op : Op) (d d' : Database) (id : nat)
  (s : PracticeSession) :
  db_change op d d' ->
  query_get (practice_sessions d) id = Some s ->
  exists s', query_get (practice_sessions d') id = Some s' /\ same_row s s'.
Proof.
  intros Hc Hs.
  destruct Hc as [|id0 i s0 q Hq _ _ _|id0 i s0 q q' Hq _ _|row _|row];
    cbn [practice_sessions with_sessions].
  - exists s. split; [assumption | apply same_row_refl].
  - destruct (Nat.eq_dec id id0) as [->|Hne].
    + rewrite (query_get_commit_eq _ _ _ _ Hq). eexists. split; [reflexivity|].
      simplify_eq. by repeat split.
    + rewrite query_get_commit_ne by assumption.
      exists s. split; [assumption | apply same_row_refl].
  - destruct (Nat.eq_dec id id0) as [->|Hne].
    + rewrite (query_get_commit_eq _ _ _ _ Hq). eexists. split; [reflexivity|].
      simplify_eq. by repeat split.
    + rewrite query_get_commit_ne by assumption.
      exists s. split; [assumption | apply same_row_refl].
  - destruct id as [|n]; [discriminate Hs|]. cbn [query_get] in *.
    rewrite (lookup_app_l_Some _ _ _ _ Hs).
    exists s. split; [reflexivity | apply same_row_refl].
  - exists s. split; [assumption | apply same_row_refl].
Qed.

Lemma change_keeps_results (op : Op) (d d' : Database) :
  db_change op d d' ->
  exists added, resume_results d' = resume_results d ++ added.
Proof.
  intros Hc. destruct Hc; cbn [resume_results with_sessions];
    try (exists []; by rewrite app_nil_r).
  by eexists.
Qed.

(** X6. Along every history of requests, from any world: a session row that
    is stored stays stored under its key, with its owner, its job details
    and its type; and the table of optimisation results only gets rows added
    at its end. *)
Theorem rows_keep_identity (steps : list Step) (w : World) :
  (forall id s,
      query_get (practice_sessions (db w)) id = Some s ->
      exists s',
        query_get (practice_sessions (db (run steps w))) id = Some s'
        /\ same_row s s')
  /\ (exists added,
        resume_results (db (run steps w)) = resume_results (db w) ++ added).
Proof.
  revert w. induction steps as [|st steps IH]; intros w; cbn [run].
  - split.
    + intros id s Hs. exists s. split; [assumption | apply same_row_refl].
    + exists []. by rewrite app_nil_r.
  - assert (Hc : db_change (request st) (db w) (db (step st w))).
    { unfold step.
      replace (db w) with (db (arrive st w))
        by (unfold arrive; by destruct (cookie st)).
      apply perform_change. }
    destruct (IH (step st w)) as [IHrows IHres]. split.
    + intros id s Hs.
      destruct (change_keeps_rows _ _ _ _ _ Hc Hs) as (s1 & Hs1 & H1).
      destruct (IHrows _ _ Hs1) as (s2 & Hs2 & H2).
      exists s2. split; [assumption|].
      destruct H1 as (? & ? & ?), H2 as (? & ? & ?).
      repeat split; congruence.
    + destruct (change_keeps_results _ _ _ Hc) as [a1 H1].
      destruct IHres as [a2 H2]. exists (a1 ++ a2).
      by rewrite H2, H1, app_assoc.
Qed.

Lemma rows_keep_identity_witness :
  exists s',
    query_get (practice_sessions (db (run six_requests (world_with [] [])))) 1
    = Some s'
    /\ same_row (session_row coach []) s'.
Proof.
  apply (proj1 (rows_keep_identity six_requests (world_with [] []))).
  reflexivity.
Defined.

(** ** The shape of the stored entries *)

Lemma parse_ai_response_fresh (text : str) (q : QuestionRecord) :
  In q (parse_ai_response text) -> well_formed_record q /\ not_evaluated q.
Proof.
  unfold parse_ai_response. rewrite in_flat_map. intros (c & _ & Hq).
  unfold qa_of_match in Hq.
  destruct (truthy (strip (group_or_empty 1 c))) eqn:H1; [|destruct Hq].
  destruct (truthy (strip (group_or_empty 2 c))) eqn:H2; [|destruct Hq].
  destruct Hq as [<-|[]]. apply truthy_true in H1, H2.
  unfold well_formed_record, not_evaluated.
  cbn [question answer user_answer ai_feedback].
  by rewrite !strip_twice.
Qed.

Lemma commit_well_formed (w : World) (id : nat) (s : PracticeSession)
  (qs : list QuestionRecord) :
  records_well_formed w ->
  Forall well_formed_record qs ->
  (session_type s = coach -> Forall not_evaluated qs) ->
  records_well_formed (commit_questions w id s qs).
Proof.
  unfold records_well_formed. intros Hw Hqs Hc.
  cbn [commit_questions db practice_sessions].
  destruct id as [|n]; cbn [commit_row]; [assumption|].
  apply Forall_insert; [assumption|]. by split.
Qed.

Lemma stored_well_formed (w : World) (id : nat) (s : PracticeSession) :
  records_well_formed w ->
  query_get (practice_sessions (db w)) id = Some s ->
  well_formed_row s.
Proof.
  unfold records_well_formed. intros Hw Hq.
  destruct id as [|n]; [discriminate Hq|]. cbn [query_get] in Hq.
  by eapply (Forall_lookup_1 _ _ _ _ Hw).
Qed.

Lemma snoc_well_formed (s : PracticeSession) (text : str)
  (q : QuestionRecord) (rest : list QuestionRecord) :
  well_formed_row s ->
  parse_ai_response text = q :: rest ->
  Forall well_formed_record (questions_data s ++ [q])
  /\ (session_type s = coach ->
      Forall not_evaluated (questions_data s ++ [q])).
Proof.
  intros [Hrec Hcoach] Hp.
  destruct (parse_ai_response_fresh text q) as [Hq Hn];
    [rewrite Hp; by left|].
  split; [|intros Ht]; apply Forall_app; split; auto.
Qed.

Lemma get_question_well_formed (model : Model) (w : World) (i : nat) :
  records_well_formed w ->
  records_well_formed (world (get_question model w i)).
Proof.
  intros Hw. unfold get_question, login_required.
  destruct (user_id (session w)); [|assumption].
  destruct (present _) as [id|]; [|assumption].
  destruct (query_get _ id) as [s|] eqn:Hq; [|assumption].
  destruct (negb _); [assumption|].
  destruct model as [g|]; [|assumption].
  destruct (questions_data s !! i); [assumption|].
  destruct (Nat.eqb i (length (questions_data s))); [|assumption].
  destruct (Nat.leb _ _); [assumption|].
  destruct (g _); try (unfold on_failure; assumption).
  destruct (parse_ai_response _) as [|q rest] eqn:Hp; [assumption|].
  cbn [world].
  destruct (snoc_well_formed s _ q rest (stored_well_formed _ _ _ Hw Hq) Hp).
  by apply commit_well_formed.
Qed.

Lemma practice_interview_question_well_formed (model : Model) (w : World)
  (i : nat) :
  records_well_formed w ->
  records_well_formed (world (practice_interview_question model w i)).
Proof.
  intros Hw. unfold practice_interview_question, login_required.
  destruct (user_id (session w)); [|assumption].
  destruct (present _) as [id|]; [|assumption].
  destruct (query_get _ id) as [s|] eqn:Hq; [|assumption].
  destruct (negb _); [assumption|].
  destruct model as [g|]; [|assumption].
  destruct (questions_data s !! i); [assumption|].
  destruct (Nat.eqb i (length (questions_data s))); [|assumption].
  destruct (Nat.leb _ _); [assumption|].
  destruct (g _); try (unfold on_failure; assumption).
  destruct (parse_ai_response _) as [|q rest] eqn:Hp; [assumption|].
  cbn [world].
  destruct (snoc_well_formed s _ q rest (stored_well_formed _ _ _ Hw Hq) Hp).
  by apply commit_well_formed.
Qed.

Lemma practice_evaluate_well_formed (model : Model) (w : World)
  (data : EvaluateRequest) :
  records_well_formed w ->
  records_well_formed (world (practice_evaluate model w data)).
Proof.
  intros Hw. unfold practice_evaluate, login_required.
  destruct (user_id (session w)); [|assumption].
  destruct (present _) as [id|]; [|assumption].
  destruct (query_get _ id) as [s|] eqn:Hq; [|assumption].
  destruct (SessionType_eqb (session_type s) practice) eqn:Ht;
    cbn [negb]; [|assumption].
  apply SessionType_eqb_eq in Ht.
  destruct (q_index data) as [z|]; [|assumption].
  destruct (negb _); [assumption|].
  destruct (truthy (strip (user_answer_field data))) eqn:Hua;
    cbn [negb]; [|assumption].
  apply truthy_true in Hua.
  destruct (questions_data s !! Z.to_nat z) as [q|] eqn:Hl; [|assumption].
  destruct model as [g|]; [|assumption].
  destruct (g _); try (unfold on_failure; assumption).
  cbn [world].
  rewrite (proj2 (Nat.ltb_lt _ _) (lookup_lt_Some _ _ _ Hl)).
  destruct (stored_well_formed _ _ _ Hw Hq) as [Hrec _].
  apply commit_well_formed; [assumption| |congruence].
  apply Forall_insert; [assumption|].
  destruct (Forall_lookup_1 _ _ _ _ Hrec Hl) as (Hq1 & Hq2 & Ha1 & Ha2 & _).
  unfold well_formed_record, with_evaluation.
  cbn [question answer user_answer ai_feedback].
  by rewrite !strip_twice.
Qed.

Lemma add_session_well_formed (w : World) (row : PracticeSession)
  (s : FlaskSession) :
  records_well_formed w -> well_formed_row row ->
  records_well_formed (add_session w row s).
Proof.
  unfold records_well_formed. intros Hw Hrow.
  cbn [add_session db practice_sessions].
  apply Forall_app. split; [assumption | by constructor].
Qed.

Lemma well_formed_empty_row (s : PracticeSession) :
  questions_data s = [] -> well_formed_row s.
Proof. intros H. unfold well_formed_row. rewrite H. by split. Qed.

Lemma interview_coach_well_formed (model : Model) (w : World)
  (form : SetupForm) :
  records_well_formed w ->
  records_well_formed (world (interview_coach model w form)).
Proof.
  intros Hw. unfold interview_coach, login_required.
  destruct (user_id (session w)); [|assumption].
  destruct (filled _); [|assumption].
  destruct model as [g|]; [|assumption].
  destruct (g _);
    try (cbn [world]; by apply add_session_well_formed, well_formed_empty_row).
  destruct (parse_ai_response _) as [|q rest] eqn:Hp;
    [cbn [world]; by apply add_session_well_formed, well_formed_empty_row|].
  cbn [world].
  destruct (parse_ai_response_fresh (strip text) q) as [Hq Hn];
    [rewrite Hp; by left|].
  apply commit_well_formed.
  - by apply add_session_well_formed, well_formed_empty_row.
  - cbn [questions_data app]. constructor; [assumption | constructor].
  - intros _. cbn [questions_data app].
    constructor; [assumption | constructor].
Qed.

Lemma perform_well_formed (model : Model) (op : Op) (w : World) :
  records_well_formed w ->
  records_well_formed (world (perform model op w)).
Proof.
  intros Hw. destruct op; cbn [perform].
  - by apply interview_coach_well_formed.
  - unfold practice_interview, login_required.
    repeat case_match; try assumption.
    cbn [world reply]. by apply add_session_well_formed, well_formed_empty_row.
  - by apply get_question_well_formed.
  - by apply practice_interview_question_well_formed.
  - by apply practice_evaluate_well_formed.
  - unfold practice_results, login_required. repeat case_match; assumption.
  - unfold resume_optimizer, login_required. repeat case_match; assumption.
Qed.

(** X7. The requests keep the stored entries well formed, along every
    history: each entry has a question and an ideal answer that are not
    empty and have no whitespace at their ends; it carries either no
    evaluation, or an answer that is not empty together with its feedback,
    both stripped; and the entries of a coach session are never
    evaluated. *)
Theorem stored_records_stay_well_formed (steps : list Step) (w : World) :
  records_well_formed w -> records_well_formed (run steps w).
Proof.
  revert w. induction steps as [|st steps IH]; intros w Hw; cbn [run];
    [assumption|].
  apply IH. unfold step. apply perform_well_formed.
  unfold arrive. by destruct (cookie st).
Qed.

Lemma stored_records_stay_well_formed_witness :
  records_well_formed (run six_requests (empty_world logged_in)).
Proof.
  apply (stored_records_stay_well_formed six_requests (empty_world logged_in)).
  constructor.
Defined.

(** ** Opening a session *)

Lemma query_get_last {A : Type} (table : list A) (row : A) :
  query_get (table ++ [row]) (S (length table)) = Some row.
Proof. cbn [query_get]. apply lookup_snoc. Qed.

(** X8. [interview_coach], for a logged-in user, a job position and a model
    client, sends one prompt and adds one coach row whatever the model does:
    the row holds the first pair of the answer, and no entry when the call
    fails or gives no pair.  The cookie then points at the new row, and the
    user is sent to the questions only when an entry was stored; the
    question of index 0 is then served from the table with no further
    call. *)
Theorem interview_coach_opens_session (g : Prompt -> Completion) (w : World)
  (form : SetupForm) (position : str) (user : nat) :
  filled (form_job_position form) = Some position ->
  user_id (session w) = Some user ->
  let out := interview_coach (Some g) w form in
  let id := S (length (practice_sessions (db w))) in
  let prompt := FirstQuestionPrompt (job_of (opened coach user position form []))
  in
  let first :=
    match g prompt with
    | Text text => take 1 (parse_ai_response (strip text))
    | _ => []
    end in
  calls out = [prompt]
  /\ practice_sessions (db (world out))
     = practice_sessions (db w) ++ [opened coach user position form first]
  /\ current_coach_session_id (session (world out)) = Some id
  /\ current_practice_session_id (session (world out))
     = current_practice_session_id (session w)
  /\ (response out = redirect "interview_question_display" <-> first <> [])
  /\ (forall g' q,
        first = [q] ->
        get_question (Some g') (world out) 0
        = reply (world out) (jsonify (payload coach_endpoint q 0) 200)).
Proof.
  intros Hpos Huser out id prompt first.
  assert (Hout :
    out = {| response :=
               match first with
               | [] =>
                   match g prompt with
                   | Text _ =>
                       render_template (error_html (txt
                         "AI did not generate a valid first question. Try a different prompt/position."))
                   | DeadlineExceeded _ =>
                       render_template (error_html (txt
                         "AI generation timed out for the first question. Please try again."))
                   | GoogleAPIError e =>
                       render_template (error_html
                         (txt "AI Service Error for initial question: " ++ e))
                   | OtherException _ =>
                       render_template (error_html (txt
                         "An unexpected server error occurred. Please try again. Check terminal for details."))
                   end
               | _ => redirect "interview_question_display"
               end;
             world :=
               {| db := with_sessions (db w)
                          (practice_sessions (db w)
                           ++ [opened coach user position form first]);
                  session :=
                    {| user_id := user_id (session w);
                       current_coach_session_id := Some id;
                       current_practice_session_id :=
                         current_practice_session_id (session w);
                       job_details :=
                         Some (job_of (opened coach user position form [])) |}
               |};
             calls := [prompt] |}).
  { subst out first prompt id. unfold interview_coach, login_required.
    rewrite Huser, Hpos. fold (opened coach user position form []).
    destruct (g _) as [text| | |]; try reflexivity.
    destruct (parse_ai_response (strip text)) as [|q rest]; [reflexivity|].
    cbn [take]. unfold commit_questions, add_session.
    cbn [db practice_sessions resume_results session].
    by rewrite commit_row_last. }
  rewrite Hout. cbn [calls world response db session practice_sessions
                     with_sessions current_coach_session_id
                     current_practice_session_id].
  repeat split; try reflexivity.
  - destruct first; [|congruence]. destruct (g prompt); discriminate.
  - destruct first; [congruence | reflexivity].
  - intros g' q Hq. rewrite Hq. unfold get_question, login_required.
    cbn [session db user_id current_coach_session_id practice_sessions
         with_sessions].
    rewrite Huser. cbn [present]. fold id. unfold id at 1.
    rewrite query_get_last. reflexivity.
Qed.

Lemma interview_coach_opens_session_witness :
  practice_sessions
    (db (world (interview_coach timing_out (empty_world logged_in)
                  backend_form)))
  = [opened coach 1 (txt "Backend Engineer") backend_form []].
Proof.
  exact (proj1 (proj2 (interview_coach_opens_session
                         (fun _ => DeadlineExceeded [])
                         (empty_world logged_in) backend_form
                         (txt "Backend Engineer") 1 eq_refl eq_refl))).
Defined.

(** X9. [practice_interview], for a logged-in user, a job position and a
    model client, sends no prompt and adds one practice row without entries;
    the cookie then points at it, the coach pointer is kept, and the request
    for the question of index 0 sends the prompt with an empty list of
    earlier questions. *)
Theorem practice_interview_opens_session (g : Prompt -> Completion)
  (w : World) (form : SetupForm) (position : str) (user : nat) :
  filled (form_job_position form) = Some position ->
  user_id (session w) = Some user ->
  let out := practice_interview (Some g) w form in
  let id := S (length (practice_sessions (db w))) in
  let row := opened practice user position form [] in
  calls out = []
  /\ response out = render_template (practice_interview_html position)
  /\ practice_sessions (db (world out)) = practice_sessions (db w) ++ [row]
  /\ resume_results (db (world out)) = resume_results (db w)
  /\ active practice_endpoint (world out) id row
  /\ current_coach_session_id (session (world out))
     = current_coach_session_id (session w)
  /\ (forall g',
        calls (practice_interview_question (Some g') (world out) 0)
        = [NextQuestionPrompt (job_of row) []]).
Proof.
  intros Hpos Huser out id row.
  assert (Hout :
    out = reply
            (add_session w row
               {| user_id := user_id (session w);
                  current_coach_session_id :=
                    current_coach_session_id (session w);
                  current_practice_session_id := Some id;
                  job_details := Some (job_of row) |})
            (render_template (practice_interview_html position))).
  { subst out. unfold practice_interview, login_required.
    by rewrite Huser, Hpos. }
  assert (Hact : active practice_endpoint (world out) id row).
  { rewrite Hout. unfold active.
    cbn [world reply add_session session db practice_sessions user_id pointer
         practice_endpoint current_practice_session_id present kind].
    rewrite Huser. repeat split; [discriminate|]. apply query_get_last. }
  rewrite Hout in *.
  cbn [calls response world reply add_session db session practice_sessions
       resume_results current_coach_session_id] in *.
  repeat split; try reflexivity; try apply Hact.
  intros g'.
  destruct (practice_transitions g' _ id 0 row Hact) as (_ & Hnew & _).
  unfold stored in Hnew. destruct Hact as (_ & _ & Hq & _).
  rewrite Hq in Hnew.
  destruct Hnew as [Hc _];
    [reflexivity | vm_compute; lia|].
  exact Hc.
Qed.

Lemma practice_interview_opens_session_witness :
  active practice_endpoint
    (world (practice_interview (answering "ready") (empty_world logged_in)
              backend_form))
    1 (opened practice 1 (txt "Backend Engineer") backend_form []).
Proof.
  exact (proj1 (proj2 (proj2 (proj2 (proj2
           (practice_interview_opens_session
              (fun _ => Text (txt "ready")) (empty_world logged_in)
              backend_form (txt "Backend Engineer") 1 eq_refl eq_refl)))))).
Defined.

(** ** Logging out *)

(** X10. After [logout], every protected route answers with the redirect to
    the login page, whatever the tables hold and whatever the model would
    do: nothing is stored and no prompt is sent. *)
Theorem logout_closes_routes (model : Model) (op : Op) (d : Database)
  (s : FlaskSession) :
  let w := {| db := d; session := fst (logout s) |} in
  snd (logout s) = auth_redirect "index"
  /\ perform model op w = reply w (redirect "login").
Proof.
  split; [reflexivity|]. by destruct op.
Qed.

(** ** The calls to the model *)

Lemma overall_feedback_calls (model : Model) (data : list QuestionRecord)
  (job : JobDetails) :
  length (snd (generate_overall_practice_feedback model data job)) <= 1
  /\ (model = None ->
      snd (generate_overall_practice_feedback model data job) = []).
Proof.
  unfold generate_overall_practice_feedback.
  destruct model; [|split; [simpl; lia | reflexivity]].
  destruct data; [split; [simpl; lia | discriminate]|].
  destruct (prompt_items _); simpl; split; (lia || discriminate).
Qed.

(** X11. A request sends at most one prompt to the model.  When the client
    could not be initialised, no route sends a prompt or changes a table. *)
Theorem requests_call_at_most_once (model : Model) (op : Op) (w : World) :
  length (calls (perform model op w)) <= 1
  /\ (model = None ->
      calls (perform model op w) = []
      /\ db (world (perform model op w)) = db w).
Proof.
  destruct op; cbn [perform].
  - unfold interview_coach, login_required.
    repeat case_match; (split; [simpl; lia | intros; by simplify_eq]).
  - unfold practice_interview, login_required.
    repeat case_match; (split; [simpl; lia | intros; by simplify_eq]).
  - unfold get_question, login_required, on_failure.
    repeat case_match; (split; [simpl; lia | intros; by simplify_eq]).
  - unfold practice_interview_question, login_required, on_failure.
    repeat case_match; (split; [simpl; lia | intros; by simplify_eq]).
  - unfold practice_evaluate, login_required, on_failure.
    repeat case_match; (split; [simpl; lia | intros; by simplify_eq]).
  - unfold practice_results, login_required.
    destruct (user_id (session w)); [|split; [simpl; lia | done]].
    destruct (present _) as [id|]; [|split; [simpl; lia | done]].
    destruct (query_get _ id) as [s|]; [|split; [simpl; lia | done]].
    destruct (negb _); [split; [simpl; lia | done]|].
    destruct (_ || _); [split; [simpl; lia | done]|].
    pose proof (overall_feedback_calls model (questions_data s) (job_of s))
      as [Hle Hnone].
    destruct (generate_overall_practice_feedback _ _ _) as [[e|r] sent];
      cbn [calls world db snd] in *; (split; [assumption|]);
      intros ->; by rewrite Hnone.
  - unfold resume_optimizer, login_required.
    repeat case_match; (split; [simpl; lia | intros; by simplify_eq]).
Qed.

Lemma requests_call_at_most_once_witness :
  calls (perform None (PracticeQuestion 0) (world_with [] [])) = []
  /\ db (world (perform None (PracticeQuestion 0) (world_with [] [])))
     = db (world_with [] []).
Proof.
  exact (proj2 (requests_call_at_most_once None (PracticeQuestion 0)
                  (world_with [] [])) eq_refl).
Defined.

(** X12. When the model answers no prompt with a text, a request to a
    question endpoint, an evaluation, the results page or the optimiser
    changes no table: what is stored comes from an answer of the model. *)
Theorem failed_call_stores_nothing (g : Prompt -> Completion) (op : Op)
  (w : World) :
  failing g -> opens_session op = false ->
  db (world (perform (Some g) op w)) = db w.
Proof.
  intros Hg Hop. destruct op; try discriminate Hop; cbn [perform].
  - unfold get_question, login_required, on_failure.
    repeat case_match; try reflexivity; by edestruct Hg.
  - unfold practice_interview_question, login_required, on_failure.
    repeat case_match; try reflexivity; by edestruct Hg.
  - unfold practice_evaluate, login_required, on_failure.
    repeat case_match; try reflexivity; by edestruct Hg.
  - unfold practice_results, login_required.
    repeat case_match; reflexivity.
  - unfold resume_optimizer, login_required.
    repeat case_match; try reflexivity; by edestruct Hg.
Qed.

Lemma failed_call_stores_nothing_witness :
  db (world (perform timing_out (PracticeQuestion 0) (world_with [] [])))
  = db (world_with [] []).
Proof.
  apply (failed_call_stores_nothing (fun _ => DeadlineExceeded [])
           (PracticeQuestion 0) (world_with [] [])); [|reflexivity].
  intros p text. discriminate.
Defined.



(** ** The results page of a practice session *)

Lemma prompt_items_evaluated (data : list QuestionRecord)
  (items : list (str * str * str * str)) :
  prompt_items data = Some items ->
  Forall (fun q => evaluated q = true) data.
Proof.
  revert items. induction data as [|q data IH]; intros items; [constructor|].
  cbn [prompt_items]. unfold prompt_item, evaluated.
  destruct (user_answer q) eqn:Hua, (ai_feedback q) eqn:Hfb;
    try discriminate.
  destruct (prompt_items data) as [its|]; [|discriminate].
  intros _. constructor; [by rewrite Hua, Hfb | by eapply IH].
Qed.

(** X14. When [practice_results] renders the results page, it shows the list
    stored for the active practice session, which has at least 5 entries,
    all of them evaluated when a model client is there.  It changes no table
    and clears the practice pointer of the cookie, keeping the coach
    pointer: the page is shown once, and after it the results route, the
    evaluation and the practice question endpoint all refuse. *)
Theorem practice_results_shown_once (model model' : Model) (w : World)
  (data : list QuestionRecord) (overall : OverallResults) (job : JobDetails) :
  response (practice_results model w)
  = render_template (practice_results_html data overall job) ->
  let w' := world (practice_results model w) in
  (exists id s,
      active practice_endpoint w id s
      /\ data = questions_data s /\ job = job_of s
      /\ MAX_PRACTICE_QUESTIONS <= length data
      /\ (model <> None -> Forall (fun q => evaluated q = true) data))
  /\ db w' = db w
  /\ current_practice_session_id (session w') = None
  /\ current_coach_session_id (session w')
     = current_coach_session_id (session w)
  /\ practice_results model' w' = reply w' (redirect "practice_interview")
  /\ (forall request,
        practice_evaluate model' w' request
        = reply w' (jsonify [("redirect", JStr (txt "practice_interview"))]
                      400))
  /\ (forall i, rejected (practice_interview_question model' w' i) 400
                /\ world (practice_interview_question model' w' i) = w').
Proof.
  unfold practice_results, login_required.
  destruct (user_id (session w)) as [user|] eqn:Hu; [|discriminate].
  destruct (present _) as [id|] eqn:Hp; [|discriminate].
  destruct (query_get _ id) as [s|] eqn:Hq; [|discriminate].
  destruct (SessionType_eqb (session_type s) practice) eqn:Ht;
    cbn [negb]; [|discriminate].
  apply SessionType_eqb_eq in Ht.
  destruct (_ || _) eqn:Hlen; [discriminate|].
  apply orb_false_iff in Hlen as [_ Hlen]. apply Nat.ltb_ge in Hlen.
  unfold generate_overall_practice_feedback.
  assert (Hafter :
    let w' := {| db := db w; session := clear_practice (session w) |} in
    practice_results model' w' = reply w' (redirect "practice_interview")
    /\ (forall request,
          practice_evaluate model' w' request
          = reply w' (jsonify [("redirect", JStr (txt "practice_interview"))]
                        400))
    /\ (forall i, rejected (practice_interview_question model' w' i) 400
                  /\ world (practice_interview_question model' w' i) = w')).
  { intros w'. unfold practice_results, practice_evaluate,
      practice_interview_question, login_required.
    cbn [w' session clear_practice user_id current_practice_session_id
         present].
    rewrite Hu. repeat split. eexists. reflexivity. }
  assert (Hact : active practice_endpoint w id s).
  { unfold active. rewrite Hu. by repeat split. }
  destruct model as [g|].
  - destruct (questions_data s) as [|q0 qs] eqn:Hdata;
      [simpl in Hlen; unfold MAX_PRACTICE_QUESTIONS in Hlen; lia|].
    destruct (prompt_items (q0 :: qs)) as [items|] eqn:Hitems;
      [|discriminate].
    cbn [response world]. intros Hr. injection Hr as <- _ <-.
    split; [|repeat split; try apply Hafter].
    exists id, s. rewrite Hdata.
    split; [assumption|]. split; [reflexivity|]. split; [reflexivity|].
    split; [assumption|]. intros _. by eapply prompt_items_evaluated.
  - cbn [response world]. intros Hr. injection Hr as <- _ <-.
    split; [|repeat split; try apply Hafter].
    exists id, s.
    split; [assumption|]. split; [reflexivity|]. split; [reflexivity|].
    split; [assumption|]. congruence.
Qed.

Lemma practice_results_shown_once_witness :
  let w' := world (practice_results None five_generated) in
  practice_results timing_out w' = reply w' (redirect "practice_interview").
Proof.
  refine (proj1 (proj2 (proj2 (proj2 (proj2
            (practice_results_shown_once None timing_out five_generated
               _ _ _ _)))))).
  vm_compute. reflexivity.
Defined.

(** ** Evaluating again *)

Lemma practice_evaluate_success (model : Model) (w : World)
  (data : EvaluateRequest) :
  is_success (practice_evaluate model w data) ->
  exists id s i q g text,
    active practice_endpoint w id s
    /\ q_index data = Some (Z.of_nat i)
    /\ i < MAX_PRACTICE_QUESTIONS
    /\ questions_data s !! i = Some q
    /\ strip (user_answer_field data) <> []
    /\ model = Some g
    /\ g (EvaluationPrompt (job_of s) (question q)
            (strip (user_answer_field data)) (answer q)) = Text text.
Proof.
  intros Hs0. pose proof Hs0 as Hs.
  unfold practice_evaluate, login_required in Hs.
  destruct (user_id (session w)) as [u|] eqn:Hu;
    [|destruct Hs as [b Hb]; discriminate Hb].
  destruct (present (current_practice_session_id (session w))) as [id|] eqn:Hp;
    [|destruct Hs as [b Hb]; discriminate Hb].
  destruct (query_get (practice_sessions (db w)) id) as [s|] eqn:Hq;
    [|destruct Hs as [b Hb]; discriminate Hb].
  destruct (SessionType_eqb (session_type s) practice) eqn:Ht;
    cbn [negb] in Hs; [|destruct Hs as [b Hb]; discriminate Hb].
  apply SessionType_eqb_eq in Ht.
  destruct (q_index data) as [z|] eqn:Hz;
    [|by apply not_success_error in Hs].
  destruct ((0 <=? z)%Z && (z <? Z.of_nat MAX_PRACTICE_QUESTIONS)%Z) eqn:Hr;
    cbn [negb] in Hs; [|by apply not_success_error in Hs].
  apply andb_true_iff in Hr as [Hr1%Z.leb_le Hr2%Z.ltb_lt].
  destruct (truthy (strip (user_answer_field data))) eqn:Hua;
    cbn [negb] in Hs; [|by apply not_success_error in Hs].
  apply truthy_true in Hua.
  destruct (questions_data s !! Z.to_nat z) as [q|] eqn:Hl;
    [|by apply not_success_error in Hs].
  destruct model as [g|]; [|by apply not_success_error in Hs].
  assert (Hact : active practice_endpoint w id s).
  { repeat split; try assumption. congruence. }
  assert (Hzi : Some z = Some (Z.of_nat (Z.to_nat z))) by (f_equal; lia).
  assert (Hi : Z.to_nat z < MAX_PRACTICE_QUESTIONS)
    by (unfold MAX_PRACTICE_QUESTIONS in *; lia).
  clear Hs. rewrite <- Hz in Hzi.
  rewrite (practice_evaluate_accepts g w data id _ s q Hact Hzi Hi Hl Hua)
    in Hs0.
  destruct (g _) as [text| | |] eqn:Hg;
    try (by apply not_success_failure in Hs0).
  exists id, s, (Z.to_nat z), q, g, text. rewrite <- Hz.
  exact (conj Hact (conj Hzi (conj Hi (conj Hl (conj Hua (conj eq_refl Hg)))))).
Qed.

Lemma success_or_not (out : Outcome) : is_success out \/ ~ is_success out.
Proof.
  unfold is_success. destruct (response out) as [body status| | |];
    try (right; intros [b Hb]; discriminate Hb).
  destruct (Nat.eq_dec status 200) as [->|Hne]; [left; by eexists|].
  right. intros [b Hb]. congruence.
Qed.

Lemma practice_evaluate_keeps_world (model : Model) (w : World)
  (data : EvaluateRequest) :
  ~ is_success (practice_evaluate model w data) ->
  world (practice_evaluate model w data) = w.
Proof.
  unfold practice_evaluate, login_required, on_failure.
  repeat case_match; try reflexivity;
    intros Hnot; destruct Hnot; eexists; reflexivity.
Qed.

(** X15. Answering a question again replaces the earlier evaluation: when an
    evaluation is accepted, its answer, the stored tables and the cookie are
    the same whether or not another evaluation of the same index came
    before it. *)
Theorem practice_evaluate_last_answer_wins (model : Model) (w : World)
  (earlier data : EvaluateRequest) :
  q_index earlier = q_index data ->
  is_success (practice_evaluate model w data) ->
  practice_evaluate model (world (practice_evaluate model w earlier)) data
  = practice_evaluate model w data.
Proof.
  intros Hidx Hs.
  destruct (practice_evaluate_success _ _ _ Hs)
    as (id & s & i & q & g & text & Hact & Hz & Hi & Hl & Hua & -> & Hg).
  destruct (success_or_not (practice_evaluate (Some g) w earlier))
    as [Hs1|Hs1]; [|by rewrite practice_evaluate_keeps_world].
  destruct (practice_evaluate_success _ _ _ Hs1)
    as (id1 & s1 & i1 & q1 & g1 & text1
        & Hact1 & Hz1 & _ & Hl1 & Hua1 & Hg1 & Htext1).
  assert (id1 = id /\ s1 = s) as [-> ->].
  { destruct Hact as (_ & Hp & Hq & _), Hact1 as (_ & Hp1 & Hq1 & _).
    split; congruence. }
  assert (i1 = i) as -> by (rewrite Hidx, Hz in Hz1; injection Hz1; lia).
  assert (q1 = q) as -> by congruence.
  injection Hg1 as <-.
  rewrite (practice_evaluate_accepts g w earlier id i s q Hact1 Hz1 Hi Hl Hua1).
  rewrite Htext1. cbn [world].
  set (first := with_evaluation q (strip (user_answer_field earlier))
                  (strip text1)).
  set (s' := set_questions s (<[i:=first]> (questions_data s))).
  assert (Hlt : i < length (questions_data s)) by by eapply lookup_lt_Some.
  assert (Hq : query_get (practice_sessions (db w)) id = Some s)
    by apply Hact.
  assert (Hact' : active practice_endpoint
                    (commit_questions w id s (<[i:=first]> (questions_data s)))
                    id s').
  { destruct Hact as (Hu & Hp & _ & Ht). repeat split; try assumption.
    unfold commit_questions. cbn [db practice_sessions].
    by apply (query_get_commit_eq _ _ s). }
  assert (Hl' : questions_data s' !! i = Some first).
  { subst s'. cbn [questions_data set_questions].
    by apply list_lookup_insert_eq. }
  rewrite (practice_evaluate_accepts g _ data id i s' first Hact' Hz Hi Hl' Hua).
  rewrite (practice_evaluate_accepts g w data id i s q Hact Hz Hi Hl Hua).
  change (job_of s') with (job_of s).
  change (question first) with (question q).
  change (answer first) with (answer q).
  rewrite Hg. cbv zeta.
  change (with_evaluation first (strip (user_answer_field data)) (strip text))
    with (with_evaluation q (strip (user_answer_field data)) (strip text)).
  subst s'. cbn [questions_data set_questions].
  rewrite list_insert_insert_eq. rewrite !length_insert.
  f_equal. unfold commit_questions. cbn [db practice_sessions resume_results
                                         session].
  f_equal. f_equal.
  destruct id as [|n]; [discriminate Hq|]. cbn [commit_row].
  by rewrite list_insert_insert_eq.
Qed.

Lemma practice_evaluate_last_answer_wins_witness :
  practice_evaluate (answering "Be specific.")
    (world (practice_evaluate (answering "Be specific.")
              (world_with [] [unasked "Q0" "A0"; unasked "Q1" "A1"])
              earlier_answer))
    answer_to_first
  = practice_evaluate (answering "Be specific.")
      (world_with [] [unasked "Q0" "A0"; unasked "Q1" "A1"]) answer_to_first.
Proof.
  apply (practice_evaluate_last_answer_wins (answering "Be specific.")
           (world_with [] [unasked "Q0" "A0"; unasked "Q1" "A1"])
           earlier_answer answer_to_first); [reflexivity|].
  eexists. vm_compute. reflexivity.
Defined.

(** ** The optimiser and its results page *)

Lemma resume_parse_fails_without_labels (text : str) :
  contains_ci (txt "Match Score:") text = false ->
  contains_ci L_IMPROVEMENTS text = false ->
  contains_ci L_OPTIMIZED text = false ->
  parsing_failed (parse_resume_optimization_response text) = true.
Proof.
  intros Hscore Himp Hopt. apply parsing_failed_true.
  unfold parse_resume_optimization_response.
  cbn [match_score original_improvements optimized_resume_text].
  assert (Hbold : contains_ci (txt "**Match Score:**") text = false).
  { apply (contains_ci_longer (txt "**") (txt "Match Score:**")).
    by apply (contains_ci_extended (txt "Match Score:") (txt "**")). }
  unfold score_re, score_fallback_re, improvements_re, optimized_resume_re.
  by rewrite (search_needs_label I_ (txt "**Match Score:**")),
    (search_needs_label I_ (txt "Match Score:")),
    (search_needs_label IS_ L_IMPROVEMENTS),
    (search_needs_label IS_ L_OPTIMIZED).
Qed.

(** X16. When the model answers the optimiser with a text that carries none
    of the labels [Match Score:], of the improvements and of the optimized
    resume, in any case of letters, [resume_optimizer] shows the error page
    and adds no row. *)
Theorem resume_optimizer_rejects_unlabelled (g : Prompt -> Completion)
  (w : World) (form : ResumeForm) (user : nat) (resume description text : str) :
  present (user_id (session w)) = Some user ->
  filled (resume_text form) = Some resume ->
  filled (job_description form) = Some description ->
  g (ResumePrompt description resume) = Text text ->
  contains_ci (txt "Match Score:") text = false ->
  contains_ci L_IMPROVEMENTS text = false ->
  contains_ci L_OPTIMIZED text = false ->
  resume_optimizer (Some g) w form
  = {| response := render_template (error_html (txt
         "AI did not generate complete optimization results. Check terminal for details."));
       world := w;
       calls := [ResumePrompt description resume] |}.
Proof.
  intros Hu Hr Hd Hg Hscore Himp Hopt.
  unfold resume_optimizer, login_required.
  destruct (user_id (session w)) as [u|]; [|discriminate Hu].
  rewrite Hu, Hr, Hd, Hg.
  by rewrite resume_parse_fails_without_labels by by apply contains_ci_strip.
Qed.

Lemma resume_optimizer_rejects_unlabelled_witness :
  resume_optimizer (answering "I cannot help with that.")
    (empty_world logged_in) resume_form
  = {| response := render_template (error_html (txt
         "AI did not generate complete optimization results. Check terminal for details."));
       world := empty_world logged_in;
       calls := [ResumePrompt (txt "Backend role") (txt "Python developer")] |}.
Proof.
  by apply (resume_optimizer_rejects_unlabelled
              (fun _ => Text (txt "I cannot help with that."))
              (empty_world logged_in) resume_form 1
              (txt "Python developer") (txt "Backend role")
              (txt "I cannot help with that.")).
Defined.

Lemma eqc_false (x y : ascii) : x <> y -> eqc x y = false.
Proof.
  intros H. destruct (eqc x y) eqn:E; [|reflexivity].
  by apply eqc_true in E.
Qed.

Lemma split_lines_app_nl (l rest : str) :
  no_newline l -> split_lines (l ++ nl :: rest) = l :: split_lines rest.
Proof.
  induction l as [|c l IH]; intros H; cbn [split_lines app].
  - by rewrite eqc_refl.
  - inversion H as [|? ? Hc Hl]; subst.
    by rewrite (eqc_false _ _ Hc), (IH Hl).
Qed.

Lemma split_lines_line (l : str) : no_newline l -> split_lines l = [l].
Proof.
  induction l as [|c l IH]; intros H; cbn [split_lines]; [reflexivity|].
  inversion H as [|? ? Hc Hl]; subst.
  by rewrite (eqc_false _ _ Hc), (IH Hl).
Qed.

(** [split] undoes [join] on lines without a line break. *)
Lemma split_join_lines (ls : list str) :
  ls <> [] -> Forall no_newline ls -> split_lines (join_lines ls) = ls.
Proof.
  induction ls as [|l ls IH]; intros Hne H; [by destruct Hne|].
  inversion H as [|? ? Hl Hls]; subst.
  destruct ls as [|l2 rest]; [by apply split_lines_line|].
  change (join_lines (l :: l2 :: rest))
    with (l ++ nl :: join_lines (l2 :: rest)).
  rewrite split_lines_app_nl by assumption. f_equal. by apply IH.
Qed.

Lemma improvements_after_storage (parsed : ResumeResults) (user : nat) :
  Forall no_newline (original_improvements parsed) ->
  shown (new_result user parsed) = after_storage parsed.
Proof.
  intros H. unfold shown, new_result, after_storage.
  cbn [row_match_score row_summary_message row_original_improvements
       row_optimized_resume_text row_changes_analysis].
  f_equal.
  destruct (original_improvements parsed) as [|l [|l2 rest]] eqn:E.
  - reflexivity.
  - cbn [join_lines]. destruct l as [|c l]; [reflexivity|].
    cbn [truthy]. apply split_lines_line. by inversion H.
  - rewrite split_join_lines by (assumption || discriminate).
    change (join_lines (l :: l2 :: rest))
      with (l ++ nl :: join_lines (l2 :: rest)).
    by destruct l.
Qed.

Lemma parsed_improvements_no_newline (text : str) :
  Forall no_newline
    (original_improvements (parse_resume_optimization_response text)).
Proof.
  unfold parse_resume_optimization_response. cbn [original_improvements].
  destruct (found 1 (search IS_ improvements_re text)) as [g|];
    [|constructor].
  apply Forall_forall. intros item.
  rewrite list_elem_of_In, in_map_iff. intros (line & <- & Hin).
  apply list_elem_of_In, list_elem_of_filter in Hin as [_ Hin].
  apply clean_line_keeps.
  pose proof (split_lines_no_newline (strip g)) as Hall.
  rewrite Forall_forall in Hall. by apply Hall.
Qed.

Lemma filter_none {A : Type} (P : A -> Prop) `{!forall x, Decision (P x)}
  (l : list A) :
  Forall (fun x => ~ P x) l -> filter P l = [].
Proof.
  induction 1 as [|x l Hx _ IH]; [reflexivity|].
  by rewrite filter_cons_False.
Qed.

Section ResultsPage.

Variable order_by_timestamp_desc
  : list ResumeOptimizationResult -> list ResumeOptimizationResult.

Hypothesis sorting_rearranges :
  forall rows, order_by_timestamp_desc rows ≡ₚ rows.

(** X17. [resume_optimizer_results] shows a row of the table that belongs to
    the user of the cookie, or redirects: to the login page without a user,
    to the optimiser when the table holds no row of the user.  No user sees
    the results of another one. *)
Theorem results_page_shows_own_row (w : World) :
  match resume_optimizer_results order_by_timestamp_desc w with
  | resume_optimizer_results_html results =>
      exists row,
        In row (resume_results (db w))
        /\ user_id (session w) = Some (row_user_id row)
        /\ results = shown row
  | results_redirect endpoint =>
      (endpoint = "login" /\ present (user_id (session w)) = None)
      \/ (endpoint = "resume_optimizer"
          /\ forall row,
               In row (resume_results (db w)) ->
               user_id (session w) <> Some (row_user_id row))
  end.
Proof using sorting_rearranges.
  unfold resume_optimizer_results.
  destruct (user_id (session w)) as [[|n]|] eqn:Hu; cbn [present];
    try (left; by split).
  set (mine := filter _ _).
  pose proof (sorting_rearranges mine) as Hperm.
  destruct (order_by_timestamp_desc mine) as [|row rest] eqn:Ho; cbn [head].
  - right. split; [reflexivity|]. intros row Hin Heq.
    apply Permutation_nil_l in Hperm.
    assert (Hmine : row ∈ mine).
    { apply list_elem_of_filter. split; [congruence | by apply list_elem_of_In]. }
    rewrite <- Hperm in Hmine. by apply elem_of_nil in Hmine.
  - assert (Hmine : row ∈ mine).
    { rewrite <- Hperm. by left. }
    apply list_elem_of_filter in Hmine as [Hrow Hin].
    exists row. split; [by apply list_elem_of_In|]. split; congruence.
Qed.

(** X18. From the optimiser to its results page: when [resume_optimizer]
    stores the first result of a user and redirects, the page shows the
    fields that were parsed from the model's text.  The improvements come
    back line by line as they were parsed, except that a single empty
    improvement, stored as an empty column, is read as none. *)
Theorem optimizer_results_round_trip (g : Prompt -> Completion) (w : World)
  (form : ResumeForm) :
  (forall row,
      In row (resume_results (db w)) ->
      user_id (session w) <> Some (row_user_id row)) ->
  response (resume_optimizer (Some g) w form)
  = redirect "resume_optimizer_results" ->
  exists resume description text,
    g (ResumePrompt description resume) = Text text
    /\ resume_optimizer_results order_by_timestamp_desc
         (world (resume_optimizer (Some g) w form))
       = resume_optimizer_results_html
           (after_storage (parse_resume_optimization_response (strip text))).
Proof using sorting_rearranges.
  intros Hfirst. unfold resume_optimizer, login_required.
  destruct (user_id (session w)) as [[|n]|] eqn:Hu; cbn [present];
    try discriminate.
  destruct (filled (resume_text form)) as [resume|]; [|discriminate].
  destruct (filled (job_description form)) as [description|]; [|discriminate].
  destruct (g (ResumePrompt description resume)) as [text| | |] eqn:Hg;
    try discriminate.
  destruct (parsing_failed _); [discriminate|]. intros _.
  exists resume, description, text. split; [assumption|].
  cbn [world]. unfold resume_optimizer_results, add_session.
  cbn [add_result session db resume_results]. rewrite Hu. cbn [present].
  set (row := new_result (S n) _).
  assert (Hmine : filter (fun r => row_user_id r = S n)
                    (resume_results (db w) ++ [row]) = [row]).
  { rewrite filter_app.
    replace (filter _ (resume_results (db w))) with (@nil ResumeOptimizationResult).
    - rewrite filter_cons_True by reflexivity. reflexivity.
    - symmetry. apply filter_none.
      apply Forall_forall. intros r Hr Heq.
      apply (Hfirst r); [by apply list_elem_of_In | congruence]. }
  rewrite Hmine.
  pose proof (sorting_rearranges [row]) as Hperm.
  apply Permutation_singleton_r in Hperm. rewrite Hperm. cbn [head].
  f_equal. apply improvements_after_storage, parsed_improvements_no_newline.
Qed.

End ResultsPage.

Lemma results_page_shows_own_row_witness :
  match resume_optimizer_results reverse (empty_world logged_in) with
  | resume_optimizer_results_html results =>
      exists row,
        In row (resume_results (db (empty_world logged_in)))
        /\ user_id (session (empty_world logged_in)) = Some (row_user_id row)
        /\ results = shown row
  | results_redirect endpoint =>
      (endpoint = "login"
       /\ present (user_id (session (empty_world logged_in))) = None)
      \/ (endpoint = "resume_optimizer"
          /\ forall row,
               In row (resume_results (db (empty_world logged_in))) ->
               user_id (session (empty_world logged_in))
               <> Some (row_user_id row))
  end.
Proof.
  apply (results_page_shows_own_row reverse). intros rows.
  apply reverse_Permutation.
Defined.

Lemma optimizer_results_round_trip_witness :
  exists resume description text : str,
    Text sample_resume = Text text
    /\ resume_optimizer_results reverse
         (world (resume_optimizer (Some (fun _ => Text sample_resume))
                   (empty_world logged_in) resume_form))
       = resume_optimizer_results_html
           (after_storage (parse_resume_optimization_response (strip text))).
Proof.
  apply (optimizer_results_round_trip reverse
           (fun rows => reverse_Permutation rows)
           (fun _ => Text sample_resume) (empty_world logged_in) resume_form).
  - intros row [].
  - vm_compute. reflexivity.
Defined.

(** ** Accounts *)

Lemma first_user_none (name : str) (key : nat) (users : list User) :
  first_user name key users = None <-> ~ In name (map username users).
Proof.
  revert key. induction users as [|u users IH]; intros key; simpl.
  - tauto.
  - destruct (str_eqb (username u) name) eqn:E.
    + apply str_eqb_eq in E. split; [discriminate | intros H; destruct H; by left].
    + rewrite IH. split; [|tauto]. intros H [Heq|Hin]; [|tauto].
      apply str_eqb_eq in Heq. congruence.
Qed.

Lemma first_user_found (name : str) (key id : nat) (users : list User)
  (u : User) :
  first_user name key users = Some (id, u) ->
  exists i, id = key + i /\ users !! i = Some u /\ username u = name.
Proof.
  revert key. induction users as [|v users IH]; intros key; simpl;
    [discriminate|].
  destruct (str_eqb (username v) name) eqn:E.
  - intros H. simplify_eq. apply str_eqb_eq in E.
    exists 0. split; [lia | by split].
  - intros H. destruct (IH _ H) as (i & -> & Hl & Hu).
    exists (S i). split; [lia | by split].
Qed.

Lemma first_user_new (name : str) (key : nat) (users : list User) (u : User) :
  first_user name key users = None -> username u = name ->
  first_user name key (users ++ [u]) = Some (key + length users, u).
Proof.
  revert key. induction users as [|v users IH]; intros key; simpl.
  - intros _ <-. rewrite (proj2 (str_eqb_eq _ _) eq_refl).
    by rewrite Nat.add_0_r.
  - destruct (str_eqb (username v) name); [discriminate|].
    intros Hn Hu. rewrite (IH _ Hn Hu). do 2 f_equal. lia.
Qed.

(** What [register] does to the table: nothing, or one row added for a name
    that is new, not empty and stripped, with the hash of a password of at
    least 6 characters. *)
Lemma register_table (h : Hashing) (salt : str) (users : list User)
  (s : FlaskSession) (form : RegisterForm) :
  let out := register h salt users s form in
  (users_after out = users /\ auth_response out <> auth_redirect "login")
  \/ (exists u p,
        reg_username form = Some u /\ reg_password form = Some p
        /\ reg_confirm_password form <> None
        /\ user_id s = None
        /\ strip u <> [] /\ 6 <= length (strip p)
        /\ filter_by_username (strip u) users = None
        /\ auth_response out = auth_redirect "login"
        /\ users_after out
           = users ++ [{| username := strip u;
                          password_hash :=
                            generate_password_hash h salt (strip p) |}]).
Proof.
  unfold register. cbv zeta.
  destruct (user_id s); [left; by split|].
  destruct (reg_username form) as [u|]; [|left; by split].
  destruct (reg_password form) as [p|]; [|left; by split].
  destruct (reg_confirm_password form) as [c|]; [|left; by split].
  destruct (truthy (strip u)) eqn:Hu; cbn [negb orb]; [|left; by split].
  destruct (negb (truthy (strip p)) || negb (truthy (strip c)));
    [left; by split|].
  destruct (negb (str_eqb (strip p) (strip c))); [left; by split|].
  destruct (Nat.ltb_spec (length (strip p)) 6) as [|Hlen]; [left; by split|].
  destruct (filter_by_username (strip u) users) eqn:Hf; [left; by split|].
  right. exists u, p. apply truthy_true in Hu.
  cbn [users_after auth_response]. by repeat split.
Qed.

Lemma register_well_formed (h : Hashing) (salt : str) (users : list User)
  (s : FlaskSession) (form : RegisterForm) :
  well_formed_users users ->
  well_formed_users (users_after (register h salt users s form)).
Proof.
  intros [Hnd Hall].
  destruct (register_table h salt users s form)
    as [[-> _]|(u & p & _ & _ & _ & _ & Hu & _ & Hnew & _ & ->)];
    [by split|].
  apply first_user_none in Hnew. split.
  - rewrite map_app. cbn [map username].
    apply NoDup_app. split; [assumption|]. split.
    + intros x Hx [<-|[]]%list_elem_of_In. by apply Hnew, list_elem_of_In.
    + apply NoDup_singleton.
  - apply Forall_app. split; [assumption|]. constructor; [|constructor].
    cbn [username]. split; [assumption | apply strip_twice].
Qed.

(** X19. Registrations keep the table of users well formed, whatever the
    forms, cookies and salts: the names stay pairwise different, not empty
    and without whitespace at their ends; and the rows that were there stay
    as they are, new ones being added after them. *)
Theorem registrations_keep_names_unique (h : Hashing)
  (requests : list Registration) (users : list User) :
  well_formed_users users ->
  well_formed_users (register_all h requests users)
  /\ exists added, register_all h requests users = users ++ added.
Proof.
  revert users. induction requests as [|r rest IH]; intros users Hw;
    cbn [register_all].
  - split; [assumption|]. exists []. by rewrite app_nil_r.
  - destruct (IH _ (register_well_formed h (reg_salt r) users (reg_cookie r)
                      (reg_form r) Hw)) as [Hw' [added Ha]].
    split; [assumption|]. rewrite Ha.
    destruct (register_table h (reg_salt r) users (reg_cookie r) (reg_form r))
      as [[-> _]|(u & p & _ & _ & _ & _ & _ & _ & _ & _ & ->)].
    + by exists added.
    + eexists. by rewrite <- app_assoc.
Qed.

Lemma registrations_keep_names_unique_witness :
  well_formed_users
    (register_all salted
       [{| reg_salt := txt "s1"; reg_cookie := anonymous;
           reg_form := new_account |};
        {| reg_salt := txt "s2"; reg_cookie := anonymous;
           reg_form := new_account |}] []).
Proof.
  apply (registrations_keep_names_unique salted _ []).
  split; constructor.
Defined.

(** X20. A password is accepted against its own hash: then an account that
    [register] has created can be used at once.  [login] with the same user
    name and password, from a cookie without user, finds the new row and
    puts its key, the number of rows, into the cookie. *)
Theorem register_then_login (h : Hashing) (salt : str) (users : list User)
  (s s' : FlaskSession) (form : RegisterForm) (next : option string) :
  accepts_own h ->
  auth_response (register h salt users s form) = auth_redirect "login" ->
  user_id s' = None ->
  let users' := users_after (register h salt users s form) in
  let out :=
    login h users' s'
      {| login_username := reg_username form;
         login_password := reg_password form |} next in
  length users' = S (length users)
  /\ session_after out = log_in s' (length users')
  /\ users_after out = users'
  /\ auth_response out
     = auth_redirect match next with
                     | Some (String c page) => String c page
                     | _ => "index"
                     end.
Proof.
  intros Hh Hr Hs'.
  destruct (register_table h salt users s form)
    as [[_ Hne]|(u & p & Hu & Hp & _ & _ & _ & _ & Hnew & _ & Hafter)];
    [by destruct Hne|].
  cbv zeta. rewrite Hafter, Hu, Hp. unfold login. cbv zeta. rewrite Hs'.
  cbn [login_username login_password]. unfold filter_by_username in *.
  rewrite (first_user_new (strip u) 1 users
             {| username := strip u;
                password_hash := generate_password_hash h salt (strip p) |}
             Hnew eq_refl).
  cbn [password_hash]. rewrite Hh.
  rewrite length_app. cbn [length users_after session_after auth_response].
  repeat split; try reflexivity; try lia.
  f_equal. lia.
Qed.

Lemma register_then_login_witness :
  session_after
    (login salted
       (users_after (register salted (txt "s1") [] anonymous new_account))
       anonymous
       {| login_username := reg_username new_account;
          login_password := reg_password new_account |} None)
  = log_in anonymous
      (length (users_after
                 (register salted (txt "s1") [] anonymous new_account))).
Proof.
  refine (proj1 (proj2 (register_then_login salted (txt "s1") [] anonymous
                          anonymous new_account None _ eq_refl eq_refl))).
  intros salt password. unfold salted.
  cbn [generate_password_hash check_password_hash].
  rewrite !length_app. cbn [length txt].
  replace (_ - _) with (length salt + 1) by (simpl; lia).
  rewrite app_assoc, drop_app_length'; [apply str_eqb_eq; reflexivity|].
  rewrite length_app. reflexivity.
Defined.

(** X21. [login] never changes the table of users.  From a cookie without
    user, it puts a key into the cookie only when the row with that key
    carries the stripped user name of the form and its hash accepts the
    stripped password; the other keys of the cookie are kept.  Otherwise
    the cookie is left as it was. *)
Theorem login_checks_password (h : Hashing) (users : list User)
  (s : FlaskSession) (form : LoginForm) (next : option string) :
  let out := login h users s form next in
  users_after out = users
  /\ (session_after out = s
      \/ exists id user u p,
           user_id s = None
           /\ login_username form = Some u /\ login_password form = Some p
           /\ query_get users id = Some user
           /\ username user = strip u
           /\ check_password_hash h (password_hash user) (strip p) = true
           /\ session_after out = log_in s id).
Proof.
  unfold login. cbv zeta.
  destruct (user_id s) eqn:Hs; [by split; [|left]|].
  destruct (login_username form) as [u|]; [|by split; [|left]].
  destruct (login_password form) as [p|]; [|by split; [|left]].
  destruct (filter_by_username (strip u) users) as [[id user]|] eqn:Hf;
    [|by split; [|left]].
  destruct (check_password_hash h (password_hash user) (strip p)) eqn:Hc;
    [|by split; [|left]].
  split; [reflexivity|]. right.
  destruct (first_user_found _ _ _ _ _ Hf) as (i & -> & Hl & Hu).
  exists (1 + i), user, u, p. by repeat split.
Qed.

(** ** Which session a request writes to *)

Lemma stored_add_session (w : World) (row : PracticeSession)
  (c : FlaskSession) (id : nat) (s : PracticeSession) :
  query_get (practice_sessions (db w)) id = Some s ->
  stored (add_session w row c) id = stored w id
  /\ id <> S (length (practice_sessions (db w))).
Proof.
  intros Hq. unfold stored, add_session. cbn [db practice_sessions].
  destruct id as [|n]; [discriminate Hq|]. cbn [query_get] in *.
  rewrite (lookup_app_l_Some _ _ _ _ Hq), Hq. split; [reflexivity|].
  apply lookup_lt_Some in Hq. lia.
Qed.

(** X22. A request changes the entries of no session but the one its cookie
    points at, and of that one only through its own routes: a coach session
    through [get_question], a practice session through
    [practice_interview_question] and [practice_evaluate].  Opening a
    session, the results page and the optimiser change no stored entry. *)
Theorem only_active_session_changes (model : Model) (op : Op) (w : World)
  (id : nat) (s : PracticeSession) :
  query_get (practice_sessions (db w)) id = Some s ->
  stored (world (perform model op w)) id <> stored w id ->
  ((exists i, op = CoachQuestion i) /\ active coach_endpoint w id s)
  \/ (((exists i, op = PracticeQuestion i) \/ (exists data, op = Evaluate data))
      /\ active practice_endpoint w id s).
Proof.
  intros Hs Hne. destruct op; cbn [perform] in Hne.
  - exfalso. apply Hne. unfold interview_coach, login_required.
    destruct (user_id (session w)) as [user|]; [|reflexivity].
    destruct (filled _) as [position|]; [|reflexivity].
    destruct model as [g|]; [|reflexivity].
    fold (opened coach user position form []).
    destruct (g _);
      try (cbn [world]; by eapply stored_add_session).
    destruct (parse_ai_response _); cbn [world];
      [by eapply stored_add_session|].
    destruct (stored_add_session w (opened coach user position form [])
                {| user_id := Some user;
                   current_coach_session_id :=
                     Some (S (length (practice_sessions (db w))));
                   current_practice_session_id :=
                     current_practice_session_id (session w);
                   job_details :=
                     Some (job_of (opened coach user position form [])) |}
                id s Hs) as [Hsame Hid].
    by rewrite stored_commit_ne.
  - exfalso. apply Hne. unfold practice_interview, login_required.
    repeat case_match; try reflexivity.
    cbn [world reply]. by eapply stored_add_session.
  - left. split; [by eexists|]. revert Hne.
    unfold get_question, login_required, on_failure.
    destruct (user_id (session w)) eqn:Hu; [|by intros []].
    destruct (present _) as [id0|] eqn:Hp; [|by intros []].
    destruct (query_get _ id0) as [s0|] eqn:Hq; [|by intros []].
    destruct (SessionType_eqb (session_type s0) coach) eqn:Ht;
      cbn [negb]; [|by intros []].
    apply SessionType_eqb_eq in Ht.
    destruct (Nat.eq_dec id id0) as [->|Hother].
    + intros _. unfold active. rewrite Hu. simplify_eq. by repeat split.
    + repeat case_match; cbn [world]; intros Hne; exfalso; apply Hne;
        try reflexivity; by apply stored_commit_ne.
  - right. split; [left; by eexists|]. revert Hne.
    unfold practice_interview_question, login_required, on_failure.
    destruct (user_id (session w)) eqn:Hu; [|by intros []].
    destruct (present _) as [id0|] eqn:Hp; [|by intros []].
    destruct (query_get _ id0) as [s0|] eqn:Hq; [|by intros []].
    destruct (SessionType_eqb (session_type s0) practice) eqn:Ht;
      cbn [negb]; [|by intros []].
    apply SessionType_eqb_eq in Ht.
    destruct (Nat.eq_dec id id0) as [->|Hother].
    + intros _. unfold active. rewrite Hu. simplify_eq. by repeat split.
    + repeat case_match; cbn [world]; intros Hne; exfalso; apply Hne;
        try reflexivity; by apply stored_commit_ne.
  - right. split; [right; by eexists|]. revert Hne.
    unfold practice_evaluate, login_required, on_failure.
    destruct (user_id (session w)) eqn:Hu; [|by intros []].
    destruct (present _) as [id0|] eqn:Hp; [|by intros []].
    destruct (query_get _ id0) as [s0|] eqn:Hq; [|by intros []].
    destruct (SessionType_eqb (session_type s0) practice) eqn:Ht;
      cbn [negb]; [|by intros []].
    apply SessionType_eqb_eq in Ht.
    destruct (Nat.eq_dec id id0) as [->|Hother].
    + intros _. unfold active. rewrite Hu. simplify_eq. by repeat split.
    + repeat case_match; cbn [world]; intros Hne; exfalso; apply Hne;
        try reflexivity; by apply stored_commit_ne.
  - exfalso. apply Hne. unfold practice_results, login_required.
    repeat case_match; reflexivity.
  - exfalso. apply Hne. unfold resume_optimizer, login_required.
    repeat case_match; reflexivity.
Qed.

Lemma only_active_session_changes_witness :
  ((exists i, PracticeQuestion 0 = CoachQuestion i)
   /\ active coach_endpoint (world_with [] []) 2 (session_row practice []))
  \/ (((exists i, PracticeQuestion 0 = PracticeQuestion i)
       \/ (exists data, PracticeQuestion 0 = Evaluate data))
      /\ active practice_endpoint (world_with [] []) 2
           (session_row practice [])).
Proof.
  apply (only_active_session_changes
           (answering "Question: Why Rust? Answer: Memory safety.")
           (PracticeQuestion 0) (world_with [] []) 2
           (session_row practice [])); [reflexivity|].
  vm_compute. discriminate.
Defined.

(** ** The overall assessment *)

Lemma prompt_items_all (data : list QuestionRecord) :
  Forall (fun q => evaluated q = true) data ->
  exists items,
    prompt_items data = Some items /\ Forall2 item_describes data items.
Proof.
  induction 1 as [|q data Hq _ (items & Hi & Hd)].
  - exists []. split; [reflexivity | constructor].
  - unfold evaluated in Hq. cbn [prompt_items]. unfold prompt_item.
    destruct (user_answer q) as [ua|] eqn:Hua; [|discriminate].
    destruct (ai_feedback q) as [fb|] eqn:Hfb; [|discriminate].
    rewrite Hi. eexists. split; [reflexivity|].
    constructor; [|assumption]. by repeat split.
Qed.

Lemma prompt_items_missing (data : list QuestionRecord) :
  ~ Forall (fun q => evaluated q = true) data -> prompt_items data = None.
Proof.
  intros H. destruct (prompt_items data) as [items|] eqn:E; [|reflexivity].
  destruct H. by eapply prompt_items_evaluated.
Qed.

Lemma assessment_of_call (g : Prompt -> Completion) (p : Prompt) :
  assessment_of (g p)
    match g p with
    | Text text => parse_overall_results (strip text)
    | DeadlineExceeded e =>
        unavailable
          (txt "AI generation timed out for overall feedback: " ++ e)
          (txt "Please try again.")
    | GoogleAPIError e =>
        unavailable (txt "AI service error for overall feedback: " ++ e)
          (txt "Please try again.")
    | OtherException e =>
        unavailable (txt "An unexpected server error occurred: " ++ e)
          (txt "Please try again.")
    end.
Proof. unfold assessment_of. by destruct (g p). Qed.

(** X23. [generate_overall_practice_feedback], with a model client and a list
    that is not empty: when every entry carries an answer and its feedback,
    one prompt is sent, with one item for each entry, in order, and the
    assessment is parsed from the model's text, or is without percentage
    when the call fails; when an entry carries none, an exception escapes
    and no prompt is sent. *)
Theorem overall_feedback_needs_evaluations (g : Prompt -> Completion)
  (data : list QuestionRecord) (job : JobDetails) :
  data <> [] ->
  let out := generate_overall_practice_feedback (Some g) data job in
  (Forall (fun q => evaluated q = true) data ->
   exists items r,
     Forall2 item_describes data items
     /\ out = (inr r, [OverallFeedbackPrompt job items])
     /\ assessment_of (g (OverallFeedbackPrompt job items)) r)
  /\ (~ Forall (fun q => evaluated q = true) data ->
      out = (inl "KeyError", [])).
Proof.
  intros Hne. cbv zeta. unfold generate_overall_practice_feedback.
  destruct data as [|q0 data]; [by destruct Hne|]. split.
  - intros Hall. destruct (prompt_items_all _ Hall) as (items & -> & Hd).
    eexists items, _. split; [assumption|]. split; [reflexivity|].
    apply assessment_of_call.
  - intros Hnot. by rewrite prompt_items_missing.
Qed.

Lemma overall_feedback_needs_evaluations_witness :
  generate_overall_practice_feedback timing_out
    [unasked "Q0" "A0"] {| jd_position := txt "Backend Engineer";
                           jd_experience := None; jd_industry := None |}
  = (inl "KeyError", []).
Proof.
  apply (proj2 (overall_feedback_needs_evaluations
                  (fun _ => DeadlineExceeded []) [unasked "Q0" "A0"]
                  {| jd_position := txt "Backend Engineer";
                     jd_experience := None; jd_industry := None |}
                  ltac:(discriminate))).
  intros H. inversion H as [|? ? Hq _]. discriminate Hq.
Defined.

(** X24. [practice_results], for an active practice session with at least 5
    entries and a model client: when every entry is evaluated, the results
    page is rendered whatever the model answers, after one prompt, and the
    practice pointer is cleared even when the call has failed and the page
    carries no percentage; when an entry is not evaluated, an exception
    escapes, nothing is changed and no prompt is sent. *)
Theorem practice_results_outcome (g : Prompt -> Completion) (w : World)
  (id : nat) (s : PracticeSession) :
  active practice_endpoint w id s ->
  MAX_PRACTICE_QUESTIONS <= length (questions_data s) ->
  let out := practice_results (Some g) w in
  (Forall (fun q => evaluated q = true) (questions_data s) ->
   exists items r,
     Forall2 item_describes (questions_data s) items
     /\ assessment_of (g (OverallFeedbackPrompt (job_of s) items)) r
     /\ out = {| response :=
                   render_template
                     (practice_results_html (questions_data s) r (job_of s));
                 world := {| db := db w;
                             session := clear_practice (session w) |};
                 calls := [OverallFeedbackPrompt (job_of s) items] |})
  /\ (~ Forall (fun q => evaluated q = true) (questions_data s) ->
      out = {| response := uncaught "KeyError"; world := w; calls := [] |}).
Proof.
  intros Hact Hlen. cbv zeta. unfold practice_results.
  enter_endpoint Hact.
  rewrite (proj2 (Nat.ltb_ge _ _) Hlen), orb_false_r.
  unfold generate_overall_practice_feedback.
  destruct (questions_data s) as [|q0 data] eqn:Hdata;
    [simpl in Hlen; unfold MAX_PRACTICE_QUESTIONS in Hlen; lia|].
  split.
  - intros Hall. destruct (prompt_items_all _ Hall) as (items & -> & Hd).
    eexists items, _. split; [assumption|].
    split; [apply assessment_of_call | reflexivity].
  - intros Hnot. by rewrite prompt_items_missing.
Qed.

Lemma practice_results_outcome_witness :
  practice_results timing_out five_generated
  = {| response := uncaught "KeyError"; world := five_generated;
       calls := [] |}.
Proof.
  refine (proj2 (practice_results_outcome (fun _ => DeadlineExceeded [])
                   five_generated 1
                   (opened practice 1 (txt "Backend Engineer") backend_form
                      (stored five_generated 1)) _ _) _).
  - vm_compute. repeat split. discriminate.
  - vm_compute. lia.
  - intros H. vm_compute in H. inversion H as [|? ? Hq _]. discriminate Hq.
Defined.
